(** * IOC scanner: detection patterns, scan loop, normalizers, validator

    A shallow embedding of the IOC detection module (IOC_TYPES,
    IOC_PATTERNS, detectIOCs, normalizeDefangedIP, normalizeDefangedURL,
    validateIOC).

    Strings are sequences of 8-bit code units ([list ascii]); every
    pattern of the module is pure ASCII.  Regular expressions are kept as
    their source text, parsed into a small syntax tree, and run by a
    backtracking matcher that follows the ECMAScript matching rules
    (ordered alternation, greedy quantifiers, word boundaries, negative
    lookahead). *)

From Stdlib Require Import List Ascii String Bool Arith NArith ZArith Lia Sorted.
Import ListNotations.
Local Open Scope list_scope.

Set Implicit Arguments.

(** ** Characters *)

Module Chars.

Definition code (c : ascii) : N := N_of_ascii c.

Definition in_range (lo hi c : ascii) : bool :=
  (code lo <=? code c)%N && (code c <=? code hi)%N.

Definition is_digit (c : ascii) : bool := in_range "0" "9" c.
Definition is_lower (c : ascii) : bool := in_range "a" "z" c.
Definition is_upper (c : ascii) : bool := in_range "A" "Z" c.

(** [\w] and the word characters of [\b]: [A-Za-z0-9_]. *)
Definition is_word (c : ascii) : bool :=
  is_lower c || is_upper c || is_digit c || Ascii.eqb c "_".

(** [\s] and the characters removed by [trim], among the code units
    0..255: TAB, LF, VT, FF, CR, SPACE and NBSP. *)
Definition is_space (c : ascii) : bool :=
  let n := code c in
  ((9 <=? n) && (n <=? 13) || (n =? 32) || (n =? 160))%N.

Definition to_upper (c : ascii) : ascii :=
  if is_lower c then ascii_of_N (code c - 32) else c.
Definition to_lower (c : ascii) : ascii :=
  if is_upper c then ascii_of_N (code c + 32) else c.

End Chars.
Import Chars.

(** Text literals. *)
Definition str (s : string) : list ascii := list_ascii_of_string s.

Fixpoint list_eqb (a b : list ascii) : bool :=
  match a, b with
  | [], [] => true
  | x :: a', y :: b' => Ascii.eqb x y && list_eqb a' b'
  | _, _ => false
  end.

(** ** Regular expressions *)

Inductive citem : Type :=
| CChar (c : ascii)
| CRange (lo hi : ascii)
| CSpace
| CWord.

Inductive regex : Type :=
| REmpty
| RChar (c : ascii)
| RClass (neg : bool) (items : list citem)
| RSeq (r1 r2 : regex)
| RAlt (r1 r2 : regex)
| RRep (r : regex) (mn : nat) (mx : option nat)
| RWordB
| RNotAhead (r : regex)
| RBol
| REol.

(** A position in the subject: the code unit just before it (if any)
    and the text that remains. *)
Record pos : Type := Pos { prev : option ascii; rest : list ascii }.

Definition start_pos (s : list ascii) : pos := Pos None s.

Definition advance (p : pos) : option (ascii * pos) :=
  match rest p with
  | [] => None
  | c :: s => Some (c, Pos (Some c) s)
  end.

Module Matcher.

Definition char_eq (ci : bool) (a c : ascii) : bool :=
  if ci then Ascii.eqb (to_upper a) (to_upper c) else Ascii.eqb a c.

Definition item_mem (ci : bool) (it : citem) (c : ascii) : bool :=
  match it with
  | CChar a => char_eq ci a c
  | CRange lo hi =>
      if ci then in_range lo hi c || in_range lo hi (to_upper c)
                 || in_range lo hi (to_lower c)
      else in_range lo hi c
  | CSpace => is_space c
  | CWord => is_word c
  end.

Definition class_mem (ci : bool) (neg : bool) (items : list citem) (c : ascii) : bool :=
  xorb neg (existsb (fun it => item_mem ci it c) items).

Definition word_before (p : pos) : bool :=
  match prev p with Some c => is_word c | None => false end.
Definition word_after (p : pos) : bool :=
  match rest p with c :: _ => is_word c | [] => false end.

Definition at_boundary (p : pos) : bool := xorb (word_before p) (word_after p).

Definition orelse {A} (a b : option A) : option A :=
  match a with Some _ => a | None => b end.

Definition dec_max (mx : option nat) : option nat :=
  match mx with Some n => Some (pred n) | None => None end.

Definition max_is_zero (mx : option nat) : bool :=
  match mx with Some 0 => true | _ => false end.

(** Greedy repetition of a body matcher [m], between [mn] and [mx] times.
    An iteration that consumes nothing once the minimum is reached is
    rejected (the empty check of RepeatMatcher).  [fuel] bounds the number
    of iterations; [S (mn + length)] is always enough. *)
Fixpoint rep (m : (pos -> option pos) -> pos -> option pos) (k : pos -> option pos)
    (fuel : nat) (mn : nat) (mx : option nat) (p : pos) {struct fuel} : option pos :=
  match fuel with
  | 0 => None
  | S fuel' =>
      if max_is_zero mx then k p
      else
        let again :=
          m (fun p' =>
               if (mn =? 0) && (List.length (rest p') =? List.length (rest p))
               then None
               else rep m k fuel' (pred mn) (dec_max mx) p')
            p in
        if mn =? 0 then orelse again (k p) else again
  end.

(** The backtracking matcher, in continuation-passing style: [run ci r k p]
    matches [r] at [p] and hands each candidate end position to [k], in
    the priority order of the pattern, until [k] accepts one. *)
Fixpoint run (ci : bool) (r : regex) (k : pos -> option pos) (p : pos) : option pos :=
  match r with
  | REmpty => k p
  | RChar a =>
      match advance p with
      | Some (c, p') => if char_eq ci a c then k p' else None
      | None => None
      end
  | RClass neg items =>
      match advance p with
      | Some (c, p') => if class_mem ci neg items c then k p' else None
      | None => None
      end
  | RSeq r1 r2 => run ci r1 (run ci r2 k) p
  | RAlt r1 r2 => orelse (run ci r1 k p) (run ci r2 k p)
  | RRep r0 mn mx => rep (run ci r0) k (S (mn + List.length (rest p))) mn mx p
  | RWordB => if at_boundary p then k p else None
  | RNotAhead r0 =>
      match run ci r0 (fun q => Some q) p with
      | Some _ => None
      | None => k p
      end
  | RBol => match prev p with None => k p | Some _ => None end
  | REol => match rest p with [] => k p | _ :: _ => None end
  end.

(** One attempt at a fixed start position. *)
Definition match_at (ci : bool) (r : regex) (p : pos) : option pos :=
  run ci r (fun q => Some q) p.

(** Leftmost match at or after [p]: start and end positions. *)
Fixpoint search_from (ci : bool) (r : regex) (pv : option ascii) (s : list ascii)
  : option (pos * pos) :=
  match match_at ci r (Pos pv s) with
  | Some q => Some (Pos pv s, q)
  | None =>
      match s with
      | [] => None
      | c :: s' => search_from ci r (Some c) s'
      end
  end.

Definition search (ci : bool) (r : regex) (p : pos) : option (pos * pos) :=
  search_from ci r (prev p) (rest p).

(** The text between two positions of the same subject. *)
Definition between (p q : pos) : list ascii :=
  firstn (List.length (rest p) - List.length (rest q)) (rest p).

End Matcher.
Import Matcher.

(** ** Pattern source text

    The patterns are kept as the text between the slashes of the regular
    expression literals and parsed.  The parser covers the syntax the
    module uses: alternation, non-capturing groups, negative lookahead,
    character classes with ranges and negation, the escapes [\b \s \w \d]
    and escaped punctuation, and the quantifiers [* + ? {n} {n,} {n,m}]. *)

Module Syntax.

Definition mk_seq (r1 r2 : regex) : regex :=
  match r1, r2 with
  | REmpty, _ => r2
  | _, REmpty => r1
  | _, _ => RSeq r1 r2
  end.

Definition digit_val (c : ascii) : nat := N.to_nat (code c - 48).

Fixpoint parse_nat (acc : nat) (s : list ascii) : nat * list ascii :=
  match s with
  | c :: s' => if is_digit c then parse_nat (10 * acc + digit_val c) s' else (acc, s)
  | [] => (acc, s)
  end.

Definition is_alnum (c : ascii) : bool := is_lower c || is_upper c || is_digit c.

(** One member of a class: a literal character or a class escape. *)
Definition class_atom (s : list ascii) : option (citem * list ascii) :=
  match s with
  | "\"%char :: "s"%char :: s' => Some (CSpace, s')
  | "\"%char :: "w"%char :: s' => Some (CWord, s')
  | "\"%char :: "d"%char :: s' => Some (CRange "0" "9", s')
  | "\"%char :: c :: s' => if is_alnum c then None else Some (CChar c, s')
  | "\"%char :: [] => None
  | c :: s' => Some (CChar c, s')
  | [] => None
  end.

Fixpoint class_items (fuel : nat) (s : list ascii) : option (list citem * list ascii) :=
  match fuel with
  | 0 => None
  | S fuel' =>
      match s with
      | [] => None
      | "]"%char :: s' => Some ([], s')
      | _ =>
          match class_atom s with
          | None => None
          | Some (CChar lo, "-"%char :: c :: s2) =>
              if Ascii.eqb c "]" then
                match class_items fuel' ("-"%char :: c :: s2) with
                | Some (its, s3) => Some (CChar lo :: its, s3)
                | None => None
                end
              else
                match class_atom (c :: s2) with
                | Some (CChar hi, s3) =>
                    match class_items fuel' s3 with
                    | Some (its, s4) => Some (CRange lo hi :: its, s4)
                    | None => None
                    end
                | _ => None
                end
          | Some (it, s1) =>
              match class_items fuel' s1 with
              | Some (its, s2) => Some (it :: its, s2)
              | None => None
              end
          end
      end
  end.

Definition parse_class (s : list ascii) : option (regex * list ascii) :=
  let '(neg, s0) :=
    match s with
    | "^"%char :: s' => (true, s')
    | _ => (false, s)
    end in
  match class_items (S (List.length s0)) s0 with
  | Some (its, s1) => Some (RClass neg its, s1)
  | None => None
  end.

(** A quantifier after an atom, if there is one. *)
Definition parse_quant (r : regex) (s : list ascii) : option (regex * list ascii) :=
  let lazy_guard (res : regex * list ascii) :=
    match snd res with
    | "?"%char :: _ => None
    | _ => Some res
    end in
  match s with
  | "*"%char :: s' => lazy_guard (RRep r 0 None, s')
  | "+"%char :: s' => lazy_guard (RRep r 1 None, s')
  | "?"%char :: s' => lazy_guard (RRep r 0 (Some 1), s')
  | "{"%char :: s' =>
      let '(n, s1) := parse_nat 0 s' in
      match s1 with
      | "}"%char :: s2 => lazy_guard (RRep r n (Some n), s2)
      | ","%char :: "}"%char :: s2 => lazy_guard (RRep r n None, s2)
      | ","%char :: s2 =>
          let '(m, s3) := parse_nat 0 s2 in
          match s3 with
          | "}"%char :: s4 => lazy_guard (RRep r n (Some m), s4)
          | _ => None
          end
      | _ => None
      end
  | _ => Some (r, s)
  end.

(** Disjunction, by recursive descent.  The outer fuel bounds the nesting
    of groups, the inner one the number of terms of an alternative. *)
Fixpoint parse_disj (fuel : nat) (s : list ascii) : option (regex * list ascii) :=
  match fuel with
  | 0 => None
  | S fuel' =>
      let alternative :=
        (fix alt (g : nat) (s : list ascii) {struct g} : option (regex * list ascii) :=
           match g with
           | 0 => None
           | S g' =>
               let continue (res : option (regex * list ascii)) :=
                 match res with
                 | Some (r, s1) =>
                     match alt g' s1 with
                     | Some (r2, s2) => Some (mk_seq r r2, s2)
                     | None => None
                     end
                 | None => None
                 end in
               let quantified (res : option (regex * list ascii)) :=
                 match res with
                 | Some (r, s1) => continue (parse_quant r s1)
                 | None => None
                 end in
               match s with
               | [] => Some (REmpty, s)
               | "|"%char :: _ => Some (REmpty, s)
               | ")"%char :: _ => Some (REmpty, s)
               | "^"%char :: s' => continue (Some (RBol, s'))
               | "$"%char :: s' => continue (Some (REol, s'))
               | "\"%char :: "b"%char :: s' => continue (Some (RWordB, s'))
               | "\"%char :: "s"%char :: s' => quantified (Some (RClass false [CSpace], s'))
               | "\"%char :: "w"%char :: s' => quantified (Some (RClass false [CWord], s'))
               | "\"%char :: "d"%char :: s' => quantified (Some (RClass false [CRange "0" "9"], s'))
               | "\"%char :: c :: s' =>
                   if is_alnum c then None else quantified (Some (RChar c, s'))
               | "\"%char :: [] => None
               | "("%char :: "?"%char :: ":"%char :: s' =>
                   match parse_disj fuel' s' with
                   | Some (r, ")"%char :: s1) => quantified (Some (r, s1))
                   | _ => None
                   end
               | "("%char :: "?"%char :: "!"%char :: s' =>
                   match parse_disj fuel' s' with
                   | Some (r, ")"%char :: s1) => continue (Some (RNotAhead r, s1))
                   | _ => None
                   end
               | "("%char :: _ => None
               | "["%char :: s' => quantified (parse_class s')
               | "*"%char :: _ => None
               | "+"%char :: _ => None
               | "?"%char :: _ => None
               | "{"%char :: _ => None
               | "."%char :: _ => None
               | c :: s' => quantified (Some (RChar c, s'))
               end
           end) in
      match alternative (S (List.length s)) s with
      | Some (r, "|"%char :: s1) =>
          match parse_disj fuel' s1 with
          | Some (r2, s2) => Some (RAlt r r2, s2)
          | None => None
          end
      | res => res
      end
  end.

(** A whole pattern; [None] on text outside the supported syntax. *)
Definition parse (src : list ascii) : option regex :=
  match parse_disj (S (List.length src)) src with
  | Some (r, []) => Some r
  | _ => None
  end.

End Syntax.

(** ** The registry *)

Inductive ioc_type : Type :=
| IPV4 | IPV6 | CIDR | DEFANGED_IP | MD5 | SHA1 | SHA256 | SHA512
| EMAIL | DEFANGED_URL | URL | FILENAME.

Definition ioc_type_eqb (a b : ioc_type) : bool :=
  match a, b with
  | IPV4, IPV4 | IPV6, IPV6 | CIDR, CIDR | DEFANGED_IP, DEFANGED_IP
  | MD5, MD5 | SHA1, SHA1 | SHA256, SHA256 | SHA512, SHA512
  | EMAIL, EMAIL | DEFANGED_URL, DEFANGED_URL | URL, URL
  | FILENAME, FILENAME => true
  | _, _ => false
  end.

(** IOC_TYPES: the display name of each type. *)
Definition IOC_TYPES (t : ioc_type) : list ascii :=
  match t with
  | IPV4 => str "IPv4"
  | IPV6 => str "IPv6"
  | CIDR => str "CIDR"
  | DEFANGED_IP => str "Defanged IP"
  | MD5 => str "MD5"
  | SHA1 => str "SHA1"
  | SHA256 => str "SHA256"
  | SHA512 => str "SHA512"
  | EMAIL => str "Email"
  | DEFANGED_URL => str "Defanged URL"
  | URL => str "URL"
  | FILENAME => str "Filename"
  end.

(** The double-quote character of the URL character classes. *)
Definition dq : list ascii := ["034"%char].

(** A regular expression literal: its source text and its [i] flag
    (every literal of the module carries the [g] flag). *)
Record regexp : Type := RegExp { source : list ascii; ignore_case : bool }.

Module Sources.

Definition cidr_src : list ascii :=
  str "\b(?:(?:25[0-5]|2[0-4][0-9]|[01]?[0-9][0-9]?)\.){3}(?:25[0-5]|2[0-4][0-9]|[01]?[0-9][0-9]?)\/(?:[0-9]|[12][0-9]|3[0-2])\b|\b(?:[0-9a-fA-F]{1,4}:){7}[0-9a-fA-F]{1,4}\/(?:[0-9]|[1-9][0-9]|1[01][0-9]|12[0-8])\b|\b(?:[0-9a-fA-F]{1,4}:)*::(?:[0-9a-fA-F]{1,4}:)*[0-9a-fA-F]{1,4}\/(?:[0-9]|[1-9][0-9]|1[01][0-9]|12[0-8])\b".

Definition defanged_ip_src : list ascii :=
  str "\b(?:(?:25[0-5]|2[0-4][0-9]|[01]?[0-9][0-9]?)(?:\.|\[\.\]|\(\.\))){3}(?:25[0-5]|2[0-4][0-9]|[01]?[0-9][0-9]?)\b".

Definition ipv4_src : list ascii :=
  str "\b(?:(?:25[0-5]|2[0-4][0-9]|[01]?[0-9][0-9]?)\.){3}(?:25[0-5]|2[0-4][0-9]|[01]?[0-9][0-9]?)(?!\/)\b".

Definition ipv6_src : list ascii :=
  str "\b(?:[0-9a-fA-F]{1,4}:){7}[0-9a-fA-F]{1,4}(?!\/)\b|\b(?:[0-9a-fA-F]{1,4}:)*::(?:[0-9a-fA-F]{1,4}:)*[0-9a-fA-F]{1,4}(?!\/)\b".

Definition md5_src : list ascii :=
  str "\b[a-fA-F0-9]{32}\b".

Definition sha1_src : list ascii :=
  str "\b[a-fA-F0-9]{40}\b".

Definition sha256_src : list ascii :=
  str "\b[a-fA-F0-9]{64}\b".

Definition sha512_src : list ascii :=
  str "\b[a-fA-F0-9]{128}\b".

Definition email_src : list ascii :=
  str "\b[a-zA-Z0-9._%+-]+@[a-zA-Z0-9.-]+\.[a-zA-Z]{2,}\b".

Definition defanged_url_src : list ascii :=
  str "\b(?:hxxps?|ftxp):\/\/[^\s<>" ++ dq ++ str "{}|\\^`]+|\b(?:https?|ftp|hxxps?|ftxp):\/\/[^\s<>" ++ dq ++ str "{}|\\^`]*[\[\(]\.?[\]\)][^\s<>" ++ dq ++ str "{}|\\^`]+".

Definition url_src : list ascii :=
  str "\b(?:https?|ftp):\/\/[^\s<>" ++ dq ++ str "{}|\\^`]+".

Definition filename_src : list ascii :=
  str "\b[\w\-_][\w\-_.]*\.(?:exe|dll|bat|cmd|com|pif|scr|vbs|js|jar|msi|sys|drv|bin|sh|ps1|app|deb|rpm|dmg|pkg|apk|ipa|zip|rar|7z|tar|gz|pdf|doc|docx|xls|xlsx|ppt|pptx|txt|log|csv|xml|json|html|htm|php|asp|aspx|jsp|py|rb|pl|bash|psm1|psd1|vbe|wsf|wsh|jse|war|ear|class|iso|img|dat|db|sqlite|mdb|accdb|bak|tmp|temp|old|backup|lock|pid|conf|config|ini|cfg|yaml|yml|env|properties|key|pem|crt|cert|p12|pfx|keystore|truststore|jks)\b".

End Sources.

(** IOC_PATTERNS, keyed by type. *)
Definition IOC_PATTERNS (t : ioc_type) : regexp :=
  match t with
  | CIDR => RegExp Sources.cidr_src false
  | DEFANGED_IP => RegExp Sources.defanged_ip_src false
  | IPV4 => RegExp Sources.ipv4_src false
  | IPV6 => RegExp Sources.ipv6_src false
  | MD5 => RegExp Sources.md5_src false
  | SHA1 => RegExp Sources.sha1_src false
  | SHA256 => RegExp Sources.sha256_src false
  | SHA512 => RegExp Sources.sha512_src false
  | EMAIL => RegExp Sources.email_src false
  | DEFANGED_URL => RegExp Sources.defanged_url_src false
  | URL => RegExp Sources.url_src false
  | FILENAME => RegExp Sources.filename_src true
  end.

(** ** String operations *)

Module Str.

(** A pattern that never matches: stands for a literal whose text is
    outside the supported syntax (none of the module's literals is). *)
Definition never : regex := RNotAhead REmpty.

Definition compile (re : regexp) : regex :=
  match Syntax.parse (source re) with
  | Some r => r
  | None => never
  end.

(** [String.prototype.trim]. *)
Fixpoint trim_start (s : list ascii) : list ascii :=
  match s with
  | c :: s' => if is_space c then trim_start s' else s
  | [] => []
  end.

Definition trim (s : list ascii) : list ascii :=
  rev (trim_start (rev (trim_start s))).

(** [text.match(re)] for a global [re]: the successive leftmost matches,
    each search resuming where the previous match ended (one code unit
    further after an empty match).  The result [null] is the empty list. *)
Fixpoint match_from (fuel : nat) (ci : bool) (r : regex) (p : pos) : list (list ascii) :=
  match fuel with
  | 0 => []
  | S fuel' =>
      match search ci r p with
      | None => []
      | Some (ps, pe) =>
          let m := between ps pe in
          if List.length (rest pe) =? List.length (rest ps) then
            match advance pe with
            | Some (_, p') => m :: match_from fuel' ci r p'
            | None => [m]
            end
          else m :: match_from fuel' ci r pe
      end
  end.

Definition match_all (re : regexp) (text : list ascii) : list (list ascii) :=
  match_from (S (List.length text)) (ignore_case re) (compile re) (start_pos text).

(** [s.replace(re, by)] for a global [re]. *)
Fixpoint replace_from (fuel : nat) (ci : bool) (r : regex) (by_ : list ascii) (p : pos)
  : list ascii :=
  match fuel with
  | 0 => rest p
  | S fuel' =>
      match search ci r p with
      | None => rest p
      | Some (ps, pe) =>
          between p ps ++ by_ ++
          (if List.length (rest pe) =? List.length (rest ps) then
             match advance pe with
             | Some (c, p') => c :: replace_from fuel' ci r by_ p'
             | None => []
             end
           else replace_from fuel' ci r by_ pe)
      end
  end.

Definition replace_all (re : regexp) (by_ : list ascii) (s : list ascii) : list ascii :=
  replace_from (S (List.length s)) (ignore_case re) (compile re) by_ (start_pos s).

(** [s.replace(re, by)] for a [re] without the [g] flag: the first match only. *)
Definition replace_first (re : regexp) (by_ : list ascii) (s : list ascii) : list ascii :=
  match search (ignore_case re) (compile re) (start_pos s) with
  | None => s
  | Some (ps, pe) => between (start_pos s) ps ++ by_ ++ rest pe
  end.

(** [re.test(s)] for a [re] without the [g] flag. *)
Definition test (ci : bool) (r : regex) (s : list ascii) : bool :=
  match search ci r (start_pos s) with
  | Some _ => true
  | None => false
  end.

Fixpoint starts_with (s pre : list ascii) : bool :=
  match pre, s with
  | [], _ => true
  | a :: pre', c :: s' => Ascii.eqb a c && starts_with s' pre'
  | _ :: _, [] => false
  end.

Definition includes_char (s : list ascii) (c : ascii) : bool :=
  existsb (Ascii.eqb c) s.

End Str.

(** ** Normalizers *)

Definition lit (s : string) (i : bool) : regexp := RegExp (str s) i.

Definition dot : list ascii := str ".".

Definition normalizeDefangedIP (defangedIP : list ascii) : list ascii :=
  let normalized := defangedIP in
  let normalized := Str.replace_all (lit "\[\.\]" false) dot normalized in
  let normalized := Str.replace_all (lit "\(\.\)" false) dot normalized in
  let normalized := Str.replace_all (lit "\[dot\]" true) dot normalized in
  let normalized := Str.replace_all (lit "\(dot\)" true) dot normalized in
  let normalized := Str.replace_all (lit "\[\s*\.\s*\]" false) dot normalized in
  let normalized := Str.replace_all (lit "\(\s*\.\s*\)" false) dot normalized in
  normalized.

Definition normalizeDefangedURL (defangedUrl : list ascii) : list ascii :=
  let normalized := defangedUrl in
  let normalized := Str.replace_first (lit "^hxxp:\/\/" true) (str "http://") normalized in
  let normalized := Str.replace_first (lit "^hxxps:\/\/" true) (str "https://") normalized in
  let normalized := Str.replace_first (lit "^ftxp:\/\/" true) (str "ftp://") normalized in
  let normalized := Str.replace_all (lit "\[\.\]" false) dot normalized in
  let normalized := Str.replace_all (lit "\(\.\)" false) dot normalized in
  let normalized := Str.replace_all (lit "\[dot\]" true) dot normalized in
  let normalized := Str.replace_all (lit "\(dot\)" true) dot normalized in
  let normalized := Str.replace_all (lit "\[\s*\.\s*\]" false) dot normalized in
  let normalized := Str.replace_all (lit "\(\s*\.\s*\)" false) dot normalized in
  normalized.

(** ** The scan *)

Record ioc : Type := IOC {
  type : ioc_type;
  value : list ascii;
  originalValue : option (list ascii);
  id : list ascii
}.

(** The [Set] of claimed values, in insertion order. *)
Definition has (s : list (list ascii)) (v : list ascii) : bool :=
  existsb (list_eqb v) s.

Definition add (s : list (list ascii)) (v : list ascii) : list (list ascii) :=
  if has s v then s else s ++ [v].

Definition detectionOrder : list ioc_type :=
  [CIDR; DEFANGED_IP; IPV4; IPV6; MD5; SHA1; SHA256; SHA512;
   EMAIL; DEFANGED_URL; URL; FILENAME].

Definition is_ip (t : ioc_type) : bool :=
  ioc_type_eqb t IPV4 || ioc_type_eqb t IPV6.

Definition is_defanged (t : ioc_type) : bool :=
  ioc_type_eqb t DEFANGED_URL || ioc_type_eqb t DEFANGED_IP.

Record scan_state : Type := Scan {
  detectedIOCs : list ioc;
  foundValues : list (list ascii)
}.

Section Detect.

(** The text that [Date.now()] and [Math.random()] contribute to the id
    of the n-th record pushed. *)
Variable stamp : nat -> list ascii.

Definition make_id (t : ioc_type) (finalValue : list ascii) (n : nat) : list ascii :=
  IOC_TYPES t ++ str "-" ++ finalValue ++ str "-" ++ stamp n.

(** The body of [matches.forEach(match => ...)]. *)
Definition on_match (t : ioc_type) (st : scan_state) (match_ : list ascii) : scan_state :=
  let found := foundValues st in
  let normalizedMatch := Str.trim match_ in
  if (2 <? List.length normalizedMatch) && negb (has found normalizedMatch) then
    let isPartOfCIDR :=
      if is_ip t then
        existsb (fun foundValue =>
                   Str.includes_char foundValue "/"
                   && Str.starts_with foundValue (normalizedMatch ++ str "/"))
                found
      else false in
    if negb isPartOfCIDR then
      let finalValue :=
        if ioc_type_eqb t DEFANGED_URL then normalizeDefangedURL normalizedMatch
        else if ioc_type_eqb t DEFANGED_IP then normalizeDefangedIP normalizedMatch
        else normalizedMatch in
      let wasDefanged :=
        existsb (fun foundValue =>
                   list_eqb foundValue normalizedMatch || list_eqb foundValue finalValue)
                found in
      if ioc_type_eqb t URL && wasDefanged then st
      else if is_ip t && wasDefanged then st
      else if negb (has found finalValue) && negb (has found normalizedMatch) then
        Scan (detectedIOCs st ++
              [IOC t finalValue
                   (if is_defanged t then Some normalizedMatch else None)
                   (make_id t finalValue (List.length (detectedIOCs st)))])
             (add (add found finalValue) normalizedMatch)
      else st
    else st
  else st.

(** The body of [detectionOrder.forEach(type => ...)]. *)
Definition on_type (text : list ascii) (st : scan_state) (t : ioc_type) : scan_state :=
  fold_left (on_match t) (Str.match_all (IOC_PATTERNS t) text) st.

Definition scan (text : list ascii) : scan_state :=
  fold_left (on_type text) detectionOrder (Scan [] []).

Definition detectIOCs (text : list ascii) : list ioc :=
  detectedIOCs (scan text).

End Detect.

(** ** The single-value validator *)

(** What evaluating [validateIOC] does: return a boolean or throw. *)
Inductive outcome : Type :=
| Returns (b : bool)
| Throws.

(** [IOC_PATTERNS[key]] for an arbitrary key: an own property of the
    registry, a property inherited from [Object.prototype] (truthy, with
    no [source]), or nothing. *)
Inductive property : Type :=
| Own (re : regexp)
| Inherited
| Missing.

Definition object_prototype_keys : list (list ascii) :=
  map str ["constructor"; "toString"; "toLocaleString"; "valueOf";
           "hasOwnProperty"; "isPrototypeOf"; "propertyIsEnumerable";
           "__proto__"; "__defineGetter__"; "__defineSetter__";
           "__lookupGetter__"; "__lookupSetter__"]%string.

Definition get_pattern (key : list ascii) : property :=
  match find (fun t => list_eqb (IOC_TYPES t) key) detectionOrder with
  | Some t => Own (IOC_PATTERNS t)
  | None => if has object_prototype_keys key then Inherited else Missing
  end.

(** [source.replace(/[gimuy]/g, '')]: applied to the pattern text. *)
Definition strip_flag_letters (src : list ascii) : list ascii :=
  Str.replace_all (lit "[gimuy]" false) [] src.

Definition validateIOC (value_ : list ascii) (type_ : list ascii) : outcome :=
  match get_pattern type_ with
  | Missing => Returns false
  | Inherited => Throws
  | Own re =>
      match Syntax.parse (str "^" ++ strip_flag_letters (source re) ++ str "$") with
      | Some pattern => Returns (Str.test false pattern value_)
      | None => Throws
      end
  end.

(** ** Declarative matching *)

Module Lang.

(** The code unit before the position reached after reading [w]. *)
Fixpoint lastp (pv : option ascii) (w : list ascii) : option ascii :=
  match w with
  | [] => pv
  | c :: w' => lastp (Some c) w'
  end.

Definition ctx := option ascii -> list ascii -> list ascii -> Prop.

Inductive Iter (R : ctx) : nat -> option nat -> ctx :=
| Iter_done mn mx pv s :
    mn = 0 \/ max_is_zero mx = true -> Iter R mn mx pv [] s
| Iter_more mn mx pv w1 w2 s :
    max_is_zero mx = false ->
    R pv w1 (w2 ++ s) ->
    (mn = 0 -> w1 <> []) ->
    Iter R (pred mn) (dec_max mx) (lastp pv w1) w2 s ->
    Iter R mn mx pv (w1 ++ w2) s.

(** [matches ci r pv w s]: [r] can consume exactly [w], when [pv] is the
    code unit before [w] and [s] the text after it. *)
Fixpoint matches (ci : bool) (r : regex) (pv : option ascii) (w s : list ascii) : Prop :=
  match r with
  | REmpty => w = []
  | RChar a => exists c, w = [c] /\ char_eq ci a c = true
  | RClass neg items => exists c, w = [c] /\ class_mem ci neg items c = true
  | RSeq r1 r2 =>
      exists w1 w2, w = w1 ++ w2 /\ matches ci r1 pv w1 (w2 ++ s)
                    /\ matches ci r2 (lastp pv w1) w2 s
  | RAlt r1 r2 => matches ci r1 pv w s \/ matches ci r2 pv w s
  | RRep r0 mn mx => Iter (matches ci r0) mn mx pv w s
  | RWordB => w = [] /\ at_boundary (Pos pv s) = true
  | RNotAhead r0 =>
      w = [] /\ ~ (exists w' s', s = w' ++ s' /\ matches ci r0 pv w' s')
  | RBol => w = [] /\ pv = None
  | REol => w = [] /\ s = []
  end.

(** The position reached from [Pos pv (w ++ s)] after reading [w]. *)
Definition after (pv : option ascii) (w s : list ascii) : pos := Pos (lastp pv w) s.

(** *** Static analyses of a pattern *)

Definition all_ascii : list ascii := map ascii_of_nat (seq 0 256).

(** The least number of iterations a quantifier can make. *)
Definition least_iter (mn : nat) (mx : option nat) : nat :=
  match mx with
  | Some x => Nat.min mn x
  | None => mn
  end.

(** A lower bound on the length of any match. *)
Fixpoint min_len (r : regex) : nat :=
  match r with
  | RChar _ | RClass _ _ => 1
  | RSeq r1 r2 => min_len r1 + min_len r2
  | RAlt r1 r2 => Nat.min (min_len r1) (min_len r2)
  | RRep r0 mn mx => least_iter mn mx * min_len r0
  | REmpty | RWordB | RNotAhead _ | RBol | REol => 0
  end.

(** Every match consumes some code unit satisfying [P]. *)
Fixpoint must_have (ci : bool) (P : ascii -> bool) (r : regex) : bool :=
  match r with
  | RChar a => forallb (fun c => implb (char_eq ci a c) (P c)) all_ascii
  | RClass neg items => forallb (fun c => implb (class_mem ci neg items c) (P c)) all_ascii
  | RSeq r1 r2 => must_have ci P r1 || must_have ci P r2
  | RAlt r1 r2 => must_have ci P r1 && must_have ci P r2
  | RRep r0 mn mx => (0 <? least_iter mn mx) && must_have ci P r0
  | REmpty | RWordB | RNotAhead _ | RBol | REol => false
  end.

End Lang.

(** ** The matcher without the empty check *)

Module Unchecked.

(** Whether a pattern may succeed without consuming anything (a safe
    over-approximation). *)
Fixpoint nullable (r : regex) : bool :=
  match r with
  | RChar _ | RClass _ _ => false
  | RSeq r1 r2 => nullable r1 && nullable r2
  | RAlt r1 r2 => nullable r1 || nullable r2
  | RRep r0 mn mx => (mn =? 0) || max_is_zero mx || nullable r0
  | REmpty | RWordB | RNotAhead _ | RBol | REol => true
  end.

(** Every quantified sub-pattern consumes something. *)
Fixpoint consuming_bodies (r : regex) : bool :=
  match r with
  | RSeq r1 r2 | RAlt r1 r2 => consuming_bodies r1 && consuming_bodies r2
  | RRep r0 _ _ => negb (nullable r0) && consuming_bodies r0
  | RNotAhead r0 => consuming_bodies r0
  | _ => true
  end.

Fixpoint rep0 (m : (pos -> option pos) -> pos -> option pos) (k : pos -> option pos)
    (fuel : nat) (mn : nat) (mx : option nat) (p : pos) {struct fuel} : option pos :=
  match fuel with
  | 0 => None
  | S fuel' =>
      if max_is_zero mx then k p
      else
        let again := m (fun p' => rep0 m k fuel' (pred mn) (dec_max mx) p') p in
        if mn =? 0 then orelse again (k p) else again
  end.

Fixpoint run0 (ci : bool) (r : regex) (k : pos -> option pos) (p : pos) : option pos :=
  match r with
  | REmpty => k p
  | RChar a =>
      match advance p with
      | Some (c, p') => if char_eq ci a c then k p' else None
      | None => None
      end
  | RClass neg items =>
      match advance p with
      | Some (c, p') => if class_mem ci neg items c then k p' else None
      | None => None
      end
  | RSeq r1 r2 => run0 ci r1 (run0 ci r2 k) p
  | RAlt r1 r2 => orelse (run0 ci r1 k p) (run0 ci r2 k p)
  | RRep r0 mn mx => rep0 (run0 ci r0) k (S (mn + List.length (rest p))) mn mx p
  | RWordB => if at_boundary p then k p else None
  | RNotAhead r0 =>
      match run0 ci r0 (fun q => Some q) p with
      | Some _ => None
      | None => k p
      end
  | RBol => match prev p with None => k p | Some _ => None end
  | REol => match rest p with [] => k p | _ :: _ => None end
  end.

End Unchecked.

(** ** Texts the properties are about *)

(** The octet sub-pattern shared by the CIDR, de-fanged IP and IPv4
    patterns. *)
Definition octet_src : list ascii := str "25[0-5]|2[0-4][0-9]|[01]?[0-9][0-9]?".

Definition octet_re : regex :=
  Eval vm_compute in Str.compile (RegExp octet_src false).

Definition octet_value (w : list ascii) : nat :=
  fold_left (fun a c => 10 * a + Syntax.digit_val c) w 0.

(** One to three decimal digits denoting 0..255. *)
Definition is_octet (w : list ascii) : bool :=
  (1 <=? List.length w) && (List.length w <=? 3) && forallb is_digit w
  && (octet_value w <=? 255).

Definition dotted_quad (o1 o2 o3 o4 : list ascii) : list ascii :=
  o1 ++ dot ++ o2 ++ dot ++ o3 ++ dot ++ o4.

(** What may follow an octet in the texts considered: nothing, or one of
    the characters [. [ ( /]. *)
Definition sep_next (s : list ascii) : bool :=
  match s with
  | [] => true
  | c :: _ => existsb (Ascii.eqb c) (str ".[(/")
  end.

Definition digit_char (d : nat) : ascii := ascii_of_nat (48 + d).

(** Decimal text of a number below 100. *)
Definition decimal (n : nat) : list ascii :=
  if n <? 10 then [digit_char n] else [digit_char (n / 10); digit_char (n mod 10)].

Definition cidr_text (o1 o2 o3 o4 : list ascii) (prefix : nat) : list ascii :=
  dotted_quad o1 o2 o3 o4 ++ str "/" ++ decimal prefix.

(** The fields of a record that do not depend on the clock. *)
Definition view (r : ioc) : ioc_type * list ascii * option (list ascii) :=
  (type r, value r, originalValue r).

Definition no_stamp : nat -> list ascii := fun _ => [].

(** *** Canonical texts *)

Definition is_opening (c : ascii) : bool := Ascii.eqb c "[" || Ascii.eqb c "(".

(** No de-fanged dot marker can occur: no opening bracket or parenthesis. *)
Definition canonical_ip (s : list ascii) : bool := negb (existsb is_opening s).

(** [pre] is a prefix of [s], letter case ignored. *)
Definition prefix_ci (pre s : list ascii) : bool :=
  Str.starts_with (map to_upper s) (map to_upper pre).

Definition defanged_scheme (s : list ascii) : bool :=
  prefix_ci (str "hxxp://") s || prefix_ci (str "hxxps://") s || prefix_ci (str "ftxp://") s.

Definition canonical_url (s : list ascii) : bool :=
  canonical_ip s && negb (defanged_scheme s).

(** The two normalizers, by the detector they serve. *)
Inductive normalizer : Type := ForIP | ForURL.

Definition normalize (n : normalizer) : list ascii -> list ascii :=
  match n with
  | ForIP => normalizeDefangedIP
  | ForURL => normalizeDefangedURL
  end.

Definition canonical (n : normalizer) : list ascii -> bool :=
  match n with
  | ForIP => canonical_ip
  | ForURL => canonical_url
  end.

(** *** What the specification asks of a validated value *)

(** [s], on its own, is a complete instance of the pattern: the pattern,
    with its own flags, matches [s] from its first to its last code unit. *)
Definition complete_instance (re : regexp) (s : list ascii) : bool :=
  Str.test (ignore_case re) (RSeq RBol (RSeq (Str.compile re) REol)) s.

(** *** The scenario of the specification *)

Definition scenario_text : list ascii :=
  str "Contact admin@example.com, C2 at hxxp://bad[.]example[.]com/payload.exe, and 8.8.8.8/32".

Definition scenario_claimed : list (ioc_type * list ascii * option (list ascii)) :=
  [(EMAIL, str "admin@example.com", None);
   (DEFANGED_URL, str "http://bad.example.com/payload.exe",
                  Some (str "hxxp://bad[.]example[.]com/payload.exe"));
   (CIDR, str "8.8.8.8/32", None)].


(** ** Further analyses of a pattern *)

Module Analysis.
Import Lang.

(** Every code unit a match consumes satisfies [P]. *)
Fixpoint all_in (ci : bool) (P : ascii -> bool) (r : regex) : bool :=
  match r with
  | RChar a => forallb (fun c => implb (char_eq ci a c) (P c)) all_ascii
  | RClass neg items => forallb (fun c => implb (class_mem ci neg items c) (P c)) all_ascii
  | RSeq r1 r2 | RAlt r1 r2 => all_in ci P r1 && all_in ci P r2
  | RRep r0 _ _ => all_in ci P r0
  | REmpty | RWordB | RNotAhead _ | RBol | REol => true
  end.

(** An upper bound on the length of any match, when there is one. *)
Fixpoint max_len (r : regex) : option nat :=
  match r with
  | RChar _ | RClass _ _ => Some 1
  | RSeq r1 r2 =>
      match max_len r1, max_len r2 with
      | Some a, Some b => Some (a + b)
      | _, _ => None
      end
  | RAlt r1 r2 =>
      match max_len r1, max_len r2 with
      | Some a, Some b => Some (Nat.max a b)
      | _, _ => None
      end
  | RRep r0 _ mx =>
      match mx, max_len r0 with
      | Some x, Some l => Some (x * l)
      | _, _ => None
      end
  | REmpty | RWordB | RNotAhead _ | RBol | REol => Some 0
  end.

(** No assertion: what the pattern matches does not depend on the text
    around the match. *)
Fixpoint ctx_free (r : regex) : bool :=
  match r with
  | REmpty | RChar _ | RClass _ _ => true
  | RSeq r1 r2 | RAlt r1 r2 => ctx_free r1 && ctx_free r2
  | RRep r0 _ _ => ctx_free r0
  | RWordB | RNotAhead _ | RBol | REol => false
  end.

Definition is_hex (c : ascii) : bool :=
  is_digit c || in_range "a" "f" c || in_range "A" "F" c.

Definition not_space (c : ascii) : bool := negb (is_space c).

(** The as-found text of a record. *)
Definition as_found (r : ioc) : list ascii :=
  match originalValue r with
  | Some o => o
  | None => value r
  end.

Definition is_hash (t : ioc_type) : bool :=
  ioc_type_eqb t MD5 || ioc_type_eqb t SHA1 || ioc_type_eqb t SHA256 || ioc_type_eqb t SHA512.

Definition hash_length (t : ioc_type) : nat :=
  match t with
  | MD5 => 32
  | SHA1 => 40
  | SHA256 => 64
  | SHA512 => 128
  | _ => 0
  end.

(** The position of a type in [detectionOrder]. *)
Definition rank (t : ioc_type) : nat :=
  match t with
  | CIDR => 0 | DEFANGED_IP => 1 | IPV4 => 2 | IPV6 => 3
  | MD5 => 4 | SHA1 => 5 | SHA256 => 6 | SHA512 => 7
  | EMAIL => 8 | DEFANGED_URL => 9 | URL => 10 | FILENAME => 11
  end.

(** The characters at which the URL patterns stop. *)
Definition url_stop (c : ascii) : bool :=
  is_space c || existsb (Ascii.eqb c) (str "<>{}|\^`") || Ascii.eqb c "034".

Definition has_scheme (s : list ascii) : bool :=
  Str.starts_with s (str "http://") || Str.starts_with s (str "https://")
  || Str.starts_with s (str "ftp://").

(** The three separators the de-fanged IP pattern accepts. *)
Definition is_marker (sp : list ascii) : Prop :=
  sp = dot \/ sp = str "[.]" \/ sp = str "(.)".

Definition marked_quad (o1 s1 o2 s2 o3 s3 o4 : list ascii) : list ascii :=
  o1 ++ s1 ++ o2 ++ s2 ++ o3 ++ s3 ++ o4.

End Analysis.

(** ** The highlighter: escaping a search value *)

Module Highlighter.

(** [s.replace(re, by)] for a global [re] and a replacement computed from
    each match. *)
Fixpoint replace_with_from (fuel : nat) (ci : bool) (r : regex)
    (by_ : list ascii -> list ascii) (p : pos) : list ascii :=
  match fuel with
  | 0 => rest p
  | S fuel' =>
      match search ci r p with
      | None => rest p
      | Some (ps, pe) =>
          between p ps ++ by_ (between ps pe) ++
          (if List.length (rest pe) =? List.length (rest ps) then
             match advance pe with
             | Some (c, p') => c :: replace_with_from fuel' ci r by_ p'
             | None => []
             end
           else replace_with_from fuel' ci r by_ pe)
      end
  end.

Definition replace_all_with (re : regexp) (by_ : list ascii -> list ascii) (s : list ascii)
  : list ascii :=
  replace_with_from (S (List.length s)) (ignore_case re) (Str.compile re) by_ (start_pos s).

(** [ioc.originalValue || ioc.value]: what [highlightIOCs] looks for on
    the page (an empty [originalValue] counts as absent). *)
Definition searchValue (r : ioc) : list ascii :=
  match originalValue r with
  | Some (c :: o) => c :: o
  | _ => value r
  end.

(** The class of [escapeRegex]: the text between the slashes of
    [/[.*+?^${}()|[\]\\]/g]. *)
Definition special_src : list ascii := str "[.*+?^${}()|[\]\\]".

(** [str.replace(/[.*+?^${}()|[\]\\]/g, '\\$&')]: each special
    character gets a backslash in front ([$&] is the matched text). *)
Definition escapeRegex (s : list ascii) : list ascii :=
  replace_all_with (RegExp special_src false) (fun matched => str "\" ++ matched) s.

End Highlighter.

(** ** The background worker: sizing the request, searching the braces *)

Module Background.

(** [Math.min(16000, Math.max(4000, iocs.length * 150 + 500))]. *)
Definition max_tokens (count : N) : N :=
  let estimatedTokens := N.max 4000 (count * 150 + 500) in
  N.min 16000 estimatedTokens.

(** [s.indexOf(c)]. *)
Fixpoint index_of (c : ascii) (s : list ascii) : option nat :=
  match s with
  | [] => None
  | x :: s' => if Ascii.eqb x c then Some 0
               else match index_of c s' with Some i => Some (S i) | None => None end
  end.

(** The loop that looks for the end of the first JSON object: [i] is the
    index of the head of [s]; the result is [jsonEnd] when the loop
    breaks. *)
Fixpoint find_end (s : list ascii) (i : nat) (inString escapeNext : bool) (braceCount : Z)
  : option nat :=
  match s with
  | [] => None
  | char :: s' =>
      if escapeNext then find_end s' (S i) inString false braceCount
      else if Ascii.eqb char "\" then find_end s' (S i) inString true braceCount
      else if Ascii.eqb char "034" then find_end s' (S i) (negb inString) false braceCount
      else if negb inString then
        if Ascii.eqb char "{" then find_end s' (S i) inString false (braceCount + 1)%Z
        else if Ascii.eqb char "}" then
          if (braceCount - 1 =? 0)%Z then Some (S i)
          else find_end s' (S i) inString false (braceCount - 1)%Z
        else find_end s' (S i) inString false braceCount
      else find_end s' (S i) inString false braceCount
  end.

(** [s.substring(a, b)] for [a <= b]. *)
Definition substring (s : list ascii) (a b : nat) : list ascii :=
  firstn (b - a) (skipn a s).

(** The brace search of [analyzeIOCsWithOpenAI], from the test
    [!jsonText.startsWith('{')] to the last [substring]: [jsonText] is
    the value the local variable holds when that test is reached, that
    is, after the answer has been trimmed and the content of a code
    fence, if there is one, has been taken out of it.  The result is the
    value of the variable when [JSON.parse] is called: what precedes the
    first brace is dropped, then the text is cut after the brace that
    closes the first one. *)
Definition brace_search (jsonText : list ascii) : list ascii :=
  let jsonText :=
    if Str.starts_with jsonText (str "{") then jsonText
    else match index_of "{" jsonText with
         | Some firstBrace => skipn firstBrace jsonText
         | None => jsonText
         end in
  match index_of "{" jsonText with
  | Some jsonStart =>
      match find_end (skipn jsonStart jsonText) jsonStart false false 0%Z with
      | Some jsonEnd =>
          if jsonStart <? jsonEnd then substring jsonText jsonStart jsonEnd else jsonText
      | None => jsonText
      end
  | None => jsonText
  end.

End Background.

(** ** What is left for a normalizer to do *)

Module Markers.

(** The six marker replacements that both normalizers end with, in the
    order of the calls. *)
Definition marker_patterns : list regexp :=
  [ lit "\[\.\]" false; lit "\(\.\)" false;
    lit "\[dot\]" true; lit "\(dot\)" true;
    lit "\[\s*\.\s*\]" false; lit "\(\s*\.\s*\)" false ].

(** The pattern matches somewhere in [s]. *)
Definition found (re : regexp) (s : list ascii) : bool :=
  Str.test (ignore_case re) (Str.compile re) s.

(** None of the marker patterns matches anywhere in [s]. *)
Definition marker_free (s : list ascii) : bool :=
  forallb (fun re => negb (found re s)) marker_patterns.

(** Nothing in [s] for the normalizer to replace: no marker and, for the
    URL normalizer, no de-fanged scheme in front. *)
Definition settled (n : normalizer) (s : list ascii) : bool :=
  marker_free s
  && match n with
     | ForIP => true
     | ForURL => negb (defanged_scheme s)
     end.

(** The marker replacements as one loop over the patterns. *)
Definition passes (res : list regexp) (s : list ascii) : list ascii :=
  fold_left (fun normalized re => Str.replace_all re dot normalized) res s.

(** The three scheme replacements that [normalizeDefangedURL] begins with. *)
Definition schemes (defangedUrl : list ascii) : list ascii :=
  let normalized := defangedUrl in
  let normalized := Str.replace_first (lit "^hxxp:\/\/" true) (str "http://") normalized in
  let normalized := Str.replace_first (lit "^hxxps:\/\/" true) (str "https://") normalized in
  let normalized := Str.replace_first (lit "^ftxp:\/\/" true) (str "ftp://") normalized in
  normalized.

End Markers.

(** * Facts about the matcher *)

Module LangFacts.
Import Lang.

Lemma lastp_nil pv : lastp pv [] = pv.
Proof. reflexivity. Qed.

Lemma lastp_cons pv c w : lastp pv (c :: w) = lastp (Some c) w.
Proof. reflexivity. Qed.

Lemma lastp_app pv w1 w2 : lastp pv (w1 ++ w2) = lastp (lastp pv w1) w2.
Proof.
  revert pv. induction w1 as [|c w1 IH]; intros pv; simpl.
  - reflexivity.
  - apply IH.
Qed.

(** Soundness of the matcher: an accepted end position is the end of a
    declarative match. *)
Definition sound_at (ci : bool) (r : regex) : Prop :=
  forall k pv t x,
    run ci r k (Pos pv t) = Some x ->
    exists w s, t = w ++ s /\ matches ci r pv w s /\ k (after pv w s) = Some x.

Definition sound_body (m : (pos -> option pos) -> pos -> option pos) (R : ctx) : Prop :=
  forall k pv t x,
    m k (Pos pv t) = Some x ->
    exists w s, t = w ++ s /\ R pv w s /\ k (after pv w s) = Some x.

Lemma rep_sound m R :
  sound_body m R ->
  forall fuel k mn mx pv t x,
    rep m k fuel mn mx (Pos pv t) = Some x ->
    exists w s, t = w ++ s /\ Iter R mn mx pv w s /\ k (after pv w s) = Some x.
Proof.
  intros Hm. induction fuel as [|fuel IH]; intros k mn mx pv t x H; simpl in H.
  - discriminate.
  - destruct (max_is_zero mx) eqn:Emx.
    + exists [], t. repeat split; auto. constructor. now right.
    + assert (Hagain :
        forall y,
          m (fun p' => if (mn =? 0) && (List.length (rest p') =? List.length (rest (Pos pv t)))
                       then None else rep m k fuel (pred mn) (dec_max mx) p') (Pos pv t) = Some y ->
          exists w s, t = w ++ s /\ Iter R mn mx pv w s /\ k (after pv w s) = Some y).
      { intros y Hy. apply Hm in Hy. destruct Hy as (w1 & s1 & -> & HR & Hk).
        destruct ((mn =? 0) && _) eqn:Echk in Hk; [discriminate|].
        apply IH in Hk. destruct Hk as (w2 & s & -> & HI & Hk).
        exists (w1 ++ w2), s. rewrite <- app_assoc. split; [reflexivity|]. split.
        - apply Iter_more; auto.
          intros -> ->. simpl in Echk. rewrite Nat.eqb_refl in Echk. discriminate.
        - unfold after in *. rewrite lastp_app. exact Hk. }
      destruct (mn =? 0) eqn:Emn.
      * unfold orelse in H.
        match type of H with (match ?a with _ => _ end) = _ => destruct a eqn:Ea end.
        -- inversion H; subst. apply Hagain. exact Ea.
        -- exists [], t. repeat split; auto. constructor. left. now apply Nat.eqb_eq.
      * apply Hagain. exact H.
Qed.

Definition complete_at (ci : bool) (r : regex) : Prop :=
  forall k pv w s x,
    matches ci r pv w s -> k (after pv w s) = Some x ->
    exists y, run ci r k (Pos pv (w ++ s)) = Some y.

Definition complete_body (m : (pos -> option pos) -> pos -> option pos) (R : ctx) : Prop :=
  forall k pv w s x,
    R pv w s -> k (after pv w s) = Some x ->
    exists y, m k (Pos pv (w ++ s)) = Some y.

Lemma rep_complete m R :
  complete_body m R ->
  forall mn mx pv w s,
    Iter R mn mx pv w s ->
    forall k fuel x,
      mn + List.length (w ++ s) < fuel ->
      k (after pv w s) = Some x ->
      exists y, rep m k fuel mn mx (Pos pv (w ++ s)) = Some y.
Proof.
  intros Hm mn mx pv w s HI.
  induction HI as [mn mx pv s Hd | mn mx pv w1 w2 s Hmx HR Hne HI IH];
    intros k fuel x Hfuel Hk.
  - destruct fuel as [|fuel]; [lia|]. simpl.
    destruct (max_is_zero mx) eqn:Emx; [eauto|].
    destruct Hd as [-> | Hd]; [|congruence]. simpl.
    unfold orelse. match goal with |- context [match ?a with _ => _ end] => destruct a end; eauto.
  - destruct fuel as [|fuel]; [lia|]. simpl. rewrite Hmx.
    assert (Hagain : exists y,
      m (fun p' => if (mn =? 0) && (List.length (rest p') =? List.length ((w1 ++ w2) ++ s))
                   then None else rep m k fuel (pred mn) (dec_max mx) p')
        (Pos pv ((w1 ++ w2) ++ s)) = Some y).
    { destruct (IH k fuel x) as [y Hy].
      - rewrite !length_app in *. destruct mn; simpl in *; [|lia].
        specialize (Hne eq_refl). destruct w1; [congruence|]. simpl in *. lia.
      - unfold after in *. rewrite <- lastp_app. exact Hk.
      - rewrite <- app_assoc. eapply Hm; [exact HR|].
        unfold after. simpl.
        destruct ((mn =? 0) && _) eqn:Echk; [|exact Hy].
        apply andb_true_iff in Echk. destruct Echk as [E1 E2].
        apply Nat.eqb_eq in E1, E2. specialize (Hne E1).
        rewrite !length_app in E2. destruct w1; [congruence|]. simpl in E2. lia. }
    destruct Hagain as [y Hy]. simpl in Hy. rewrite Hy.
    destruct (mn =? 0); simpl; eauto.
Qed.

Theorem run_correct ci r : sound_at ci r /\ complete_at ci r.
Proof.
  induction r as [|a|neg items|r1 IH1 r2 IH2|r1 IH1 r2 IH2|r0 IH mn mx| |r0 IH| |];
    (split; [intros k pv t x H; cbn [run] in H | intros k pv w s x HM Hk; cbn [matches] in HM; cbn [run]]).
  - exists [], t. simpl. auto.
  - subst. eauto.
  - unfold advance in H. simpl in H. destruct t as [|c t]; [discriminate|].
    destruct (char_eq ci a c) eqn:E; [|discriminate].
    exists [c], t. repeat split; simpl; eauto.
  - destruct HM as (c & -> & E). unfold advance. simpl. rewrite E. eauto.
  - unfold advance in H. simpl in H. destruct t as [|c t]; [discriminate|].
    destruct (class_mem ci neg items c) eqn:E; [|discriminate].
    exists [c], t. repeat split; simpl; eauto.
  - destruct HM as (c & -> & E). unfold advance. simpl. rewrite E. eauto.
  - destruct IH1 as [S1 _], IH2 as [S2 _].
    apply S1 in H. destruct H as (w1 & s1 & -> & H1 & H).
    apply S2 in H. destruct H as (w2 & s & -> & H2 & H).
    exists (w1 ++ w2), s. rewrite <- app_assoc. repeat split; auto.
    + simpl. eauto.
    + unfold after in *. now rewrite lastp_app.
  - destruct IH1 as [_ C1], IH2 as [_ C2].
    destruct HM as (w1 & w2 & -> & H1 & H2).
    unfold after in Hk. rewrite lastp_app in Hk.
    destruct (C2 k _ _ _ _ H2 Hk) as [y Hy].
    rewrite <- app_assoc. eapply C1; [exact H1|]. exact Hy.
  - destruct IH1 as [S1 _], IH2 as [S2 _].
    unfold orelse in H. destruct (run ci r1 k (Pos pv t)) eqn:E1.
    + inversion H; subst. apply S1 in E1. destruct E1 as (w & s & ? & ? & ?).
      exists w, s. simpl. auto.
    + apply S2 in H. destruct H as (w & s & ? & ? & ?). exists w, s. simpl. auto.
  - destruct IH1 as [_ C1], IH2 as [_ C2]. unfold orelse.
    destruct (run ci r1 k (Pos pv (w ++ s))) eqn:E1; [eauto|].
    destruct HM as [HM|HM].
    + destruct (C1 k _ _ _ _ HM Hk) as [y Hy]. congruence.
    + eapply C2; eauto.
  - destruct IH as [S0 _]. eapply rep_sound in H; [exact H|]. exact S0.
  - destruct IH as [_ C0]. eapply rep_complete; eauto.
  - destruct (at_boundary (Pos pv t)) eqn:E; [|discriminate].
    exists [], t. simpl. auto.
  - destruct HM as [-> HM]. simpl. rewrite HM. eauto.
  - destruct IH as [_ C0].
    destruct (run ci r0 (fun q => Some q) (Pos pv t)) eqn:E; [discriminate|].
    exists [], t. simpl. repeat split; auto.
    intros (w' & s' & -> & HM).
    destruct (C0 (fun q => Some q) _ _ _ (after pv w' s') HM eq_refl) as [y Hy]. congruence.
  - destruct IH as [S0 _]. destruct HM as [-> HM]. simpl.
    destruct (run ci r0 (fun q => Some q) (Pos pv s)) eqn:E; [|eauto].
    exfalso. apply HM. apply S0 in E. destruct E as (w' & s' & ? & ? & ?). eauto.
  - destruct pv; [discriminate|]. exists [], t. simpl. auto.
  - destruct HM as [-> ->]. simpl. eauto.
  - destruct t; [|discriminate]. exists [], []. simpl. auto.
  - destruct HM as [-> ->]. simpl. eauto.
Qed.

Lemma run_sound ci r : sound_at ci r.
Proof. apply run_correct. Qed.

Lemma run_complete ci r : complete_at ci r.
Proof. apply run_correct. Qed.

(** *** Soundness of the analyses *)

Lemma in_all_ascii c : In c all_ascii.
Proof.
  unfold all_ascii. apply in_map_iff. exists (nat_of_ascii c). split.
  - apply ascii_nat_embedding.
  - apply in_seq. pose proof (nat_ascii_bounded c). lia.
Qed.

Lemma iter_min_len (R : ctx) m mn mx pv w s :
  (forall pv w s, R pv w s -> m <= List.length w) ->
  Iter R mn mx pv w s -> least_iter mn mx * m <= List.length w.
Proof.
  intros HR HI. induction HI as [mn mx pv s Hd | mn mx pv w1 w2 s Hmx H1 Hne HI IH].
  - destruct Hd as [-> | Hd].
    + destruct mx; simpl; lia.
    + destruct mx as [[|x]|]; try discriminate. simpl. rewrite Nat.min_0_r. simpl. lia.
  - apply HR in H1. rewrite length_app.
    destruct mn as [|n]; [destruct mx; simpl; lia|].
    destruct mx as [[|x]|]; try discriminate; simpl in *; lia.
Qed.

Lemma min_len_sound ci r pv w s :
  matches ci r pv w s -> min_len r <= List.length w.
Proof.
  revert pv w s.
  induction r as [|a|neg items|r1 IH1 r2 IH2|r1 IH1 r2 IH2|r0 IH mn mx| |r0 IH| |];
    intros pv w s H; cbn [matches min_len] in *.
  - lia.
  - destruct H as (c & -> & _). simpl. lia.
  - destruct H as (c & -> & _). simpl. lia.
  - destruct H as (w1 & w2 & -> & H1 & H2). rewrite length_app.
    apply IH1 in H1. apply IH2 in H2. lia.
  - destruct H as [H|H]; [apply IH1 in H | apply IH2 in H]; lia.
  - eapply iter_min_len; [|exact H]. intros. eapply IH; eauto.
  - lia.
  - lia.
  - lia.
  - lia.
Qed.

Lemma must_have_sound ci P r pv w s :
  must_have ci P r = true -> matches ci r pv w s -> existsb P w = true.
Proof.
  revert pv w s.
  induction r as [|a|neg items|r1 IH1 r2 IH2|r1 IH1 r2 IH2|r0 IH mn mx| |r0 IH| |];
    intros pv w s Hm H; cbn [matches must_have] in *; try discriminate.
  - destruct H as (c & -> & Hc). rewrite forallb_forall in Hm.
    specialize (Hm c (in_all_ascii c)). rewrite Hc in Hm. simpl in *. now rewrite Hm.
  - destruct H as (c & -> & Hc). rewrite forallb_forall in Hm.
    specialize (Hm c (in_all_ascii c)). rewrite Hc in Hm. simpl in *. now rewrite Hm.
  - destruct H as (w1 & w2 & -> & H1 & H2). rewrite existsb_app.
    apply orb_true_iff in Hm. apply orb_true_iff. destruct Hm as [Hm|Hm]; eauto.
  - apply andb_true_iff in Hm. destruct Hm as [Hm1 Hm2]. destruct H; eauto.
  - apply andb_true_iff in Hm. destruct Hm as [Hl Hm]. apply Nat.ltb_lt in Hl.
    destruct H as [mn mx pv s Hd | mn mx pv w1 w2 s Hmx H1 Hne HI].
    + exfalso. destruct Hd as [-> | Hd].
      * destruct mx; simpl in Hl; lia.
      * destruct mx as [[|x]|]; try discriminate. simpl in Hl. rewrite Nat.min_0_r in Hl. lia.
    + rewrite existsb_app. apply orb_true_iff. left. eapply IH; eauto.
Qed.

(** *** Searching *)

Lemma match_at_sound ci r pv t q :
  match_at ci r (Pos pv t) = Some q ->
  exists w s, t = w ++ s /\ matches ci r pv w s /\ q = after pv w s.
Proof.
  intros H. apply run_sound in H. destruct H as (w & s & ? & ? & E).
  exists w, s. repeat split; auto. congruence.
Qed.

(** A subject that no part of which the pattern matches is searched in vain. *)
Lemma search_from_none ci r t :
  (forall pv w s, (exists pre, t = pre ++ w ++ s) -> ~ matches ci r pv w s) ->
  forall pv, search_from ci r pv t = None.
Proof.
  induction t as [|c t IH]; intros Hno pv; simpl.
  - destruct (match_at ci r (Pos pv [])) eqn:E; [|reflexivity].
    apply match_at_sound in E. destruct E as (w & s & Ht & HM & _).
    exfalso. eapply Hno; [|exact HM]. exists []. exact Ht.
  - destruct (match_at ci r (Pos pv (c :: t))) eqn:E.
    + apply match_at_sound in E. destruct E as (w & s & Ht & HM & _).
      exfalso. eapply Hno; [|exact HM]. exists []. exact Ht.
    + apply IH. intros pv' w s [pre Hpre]. apply Hno. exists (c :: pre). simpl. now rewrite Hpre.
Qed.

Lemma match_from_none ci r t fuel :
  (forall pv w s, (exists pre, t = pre ++ w ++ s) -> ~ matches ci r pv w s) ->
  Str.match_from fuel ci r (start_pos t) = [].
Proof.
  intros Hno. destruct fuel; simpl; [reflexivity|].
  unfold search. simpl. now rewrite search_from_none.
Qed.

Lemma existsb_part (P : ascii -> bool) pre w s :
  existsb P (pre ++ w ++ s) = false -> existsb P w = false.
Proof.
  rewrite !existsb_app. intros H.
  apply orb_false_iff in H. destruct H as [_ H].
  apply orb_false_iff in H. tauto.
Qed.

(** No match when a required kind of character is absent. *)
Lemma match_from_lacking ci P r t fuel :
  must_have ci P r = true -> existsb P t = false ->
  Str.match_from fuel ci r (start_pos t) = [].
Proof.
  intros Hm Ht. apply match_from_none. intros pv w s [pre ->] HM.
  apply existsb_part in Ht. eapply must_have_sound in HM; eauto. congruence.
Qed.

(** No match in a subject shorter than every match. *)
Lemma match_from_short ci r t fuel :
  List.length t < min_len r ->
  Str.match_from fuel ci r (start_pos t) = [].
Proof.
  intros Hlen. apply match_from_none. intros pv w s [pre ->] HM.
  apply min_len_sound in HM. rewrite !length_app in Hlen. lia.
Qed.

End LangFacts.


Module UncheckedFacts.
Import Unchecked.

Definition len (p : pos) : nat := List.length (rest p).

(** Continuations that agree on the positions a pattern can reach give
    the same result. *)
Definition agree_from (strict : bool) (p : pos) (k1 k2 : pos -> option pos) : Prop :=
  forall p', len p' <= len p -> (strict = true -> len p' < len p) -> k1 p' = k2 p'.

Definition congruent (strictness : bool) (m : (pos -> option pos) -> pos -> option pos) : Prop :=
  forall k1 k2 p, agree_from strictness p k1 k2 -> m k1 p = m k2 p.

Lemma rep_cont_ext m (b : bool) :
  congruent b m ->
  forall fuel mn mx k1 k2 p,
    agree_from false p k1 k2 ->
    rep m k1 fuel mn mx p = rep m k2 fuel mn mx p.
Proof.
  intros Hm. induction fuel as [|fuel IH]; intros mn mx k1 k2 p Hk; simpl; [reflexivity|].
  assert (Hp : k1 p = k2 p) by (apply Hk; [lia | discriminate]).
  rewrite Hp.
  assert (Hagain :
    m (fun p' => if (mn =? 0) && (List.length (rest p') =? List.length (rest p)) then None
                 else rep m k1 fuel (pred mn) (dec_max mx) p') p =
    m (fun p' => if (mn =? 0) && (List.length (rest p') =? List.length (rest p)) then None
                 else rep m k2 fuel (pred mn) (dec_max mx) p') p).
  { apply Hm. intros p' Hle _. destruct (_ && _); [reflexivity|].
    apply IH. intros p'' Hle' _. apply Hk; [unfold len in *; lia | discriminate]. }
  rewrite Hagain. reflexivity.
Qed.

Lemma run_cont_ext ci r : congruent (negb (nullable r)) (run ci r).
Proof.
  induction r as [|a|neg items|r1 IH1 r2 IH2|r1 IH1 r2 IH2|r0 IH mn mx| |r0 IH| |];
    intros k1 k2 p Hk; cbn [run nullable negb] in *.
  - apply Hk; [lia | discriminate].
  - unfold advance. destruct p as [pv [|c t]]; simpl; [reflexivity|].
    destruct (char_eq ci a c); [|reflexivity]. apply Hk; unfold len; simpl; lia.
  - unfold advance. destruct p as [pv [|c t]]; simpl; [reflexivity|].
    destruct (class_mem ci neg items c); [|reflexivity]. apply Hk; unfold len; simpl; lia.
  - apply IH1. intros p1 Hle1 Hs1. apply IH2. intros p2 Hle2 Hs2.
    apply Hk; [lia|]. intros Hs.
    destruct (nullable r1); simpl in *.
    + destruct (nullable r2); simpl in *; [discriminate|]. specialize (Hs2 eq_refl). lia.
    + specialize (Hs1 eq_refl). lia.
  - assert (E1 : run ci r1 k1 p = run ci r1 k2 p).
    { apply IH1. intros p' Hle Hs. apply Hk; [lia|]. intros Hn. apply Hs.
      destruct (nullable r1); [discriminate|reflexivity]. }
    assert (E2 : run ci r2 k1 p = run ci r2 k2 p).
    { apply IH2. intros p' Hle Hs. apply Hk; [lia|]. intros Hn. apply Hs.
      destruct (nullable r1), (nullable r2); try discriminate; reflexivity. }
    now rewrite E1, E2.
  - destruct (mn =? 0) eqn:Emn; simpl in Hk.
    + eapply rep_cont_ext; [exact IH|exact Hk].
    + cbn [rep]. rewrite Emn. destruct (max_is_zero mx) eqn:Emx; simpl in Hk.
      * apply Hk; [lia|discriminate].
      * apply IH. intros p' Hle Hs. simpl.
        eapply rep_cont_ext; [exact IH|].
        intros p'' Hle' _. apply Hk; [lia|]. intros Hn. specialize (Hs Hn). lia.
  - destruct (at_boundary p); [|reflexivity]. apply Hk; [lia|discriminate].
  - destruct (run ci r0 _ p); [reflexivity|]. apply Hk; [lia|discriminate].
  - destruct (prev p); [reflexivity|]. apply Hk; [lia|discriminate].
  - destruct (rest p); [|reflexivity]. apply Hk; [lia|discriminate].
Qed.

Lemma agree_all (b : bool) p k1 k2 : (forall q, k1 q = k2 q) -> agree_from b p k1 k2.
Proof. intros H q _ _. apply H. Qed.

Theorem run_unchecked ci r :
  consuming_bodies r = true -> forall k p, run ci r k p = run0 ci r k p.
Proof.
  induction r as [|a|neg items|r1 IH1 r2 IH2|r1 IH1 r2 IH2|r0 IH mn mx| |r0 IH| |];
    intros Hwf k p; cbn [run run0 consuming_bodies] in *; try reflexivity.
  - apply andb_true_iff in Hwf. destruct Hwf as [H1 H2].
    rewrite <- IH1 by exact H1.
    apply run_cont_ext. apply agree_all. intros q. now apply IH2.
  - apply andb_true_iff in Hwf. destruct Hwf as [H1 H2].
    now rewrite IH1, IH2.
  - apply andb_true_iff in Hwf. destruct Hwf as [Hn H0].
    apply negb_true_iff in Hn.
    generalize (S (mn + List.length (rest p))) as fuel. intros fuel.
    revert mn mx p. induction fuel as [|fuel IHf]; intros mn mx p; simpl; [reflexivity|].
    assert (E :
      run ci r0 (fun p' => if (mn =? 0) && (List.length (rest p') =? List.length (rest p))
                           then None else rep (run ci r0) k fuel (pred mn) (dec_max mx) p') p =
      run0 ci r0 (fun p' => rep0 (run0 ci r0) k fuel (pred mn) (dec_max mx) p') p).
    { rewrite <- IH by exact H0. apply run_cont_ext. rewrite Hn. simpl.
      intros p' Hle Hs. specialize (Hs eq_refl). unfold len in *.
      replace (List.length (rest p') =? List.length (rest p)) with false
        by (symmetry; apply Nat.eqb_neq; lia).
      rewrite andb_false_r. apply IHf. }
    rewrite E. reflexivity.
  - rewrite IH by exact Hwf. reflexivity.
Qed.

End UncheckedFacts.


(** * Dotted quads under the address patterns *)

Module Quad.
Import Lang LangFacts Unchecked UncheckedFacts.

Lemma digit_cases c : is_digit c = true -> In c (str "0123456789").
Proof.
  destruct c as [[] [] [] [] [] [] [] []]; intros H; try discriminate H; simpl; tauto.
Qed.

Ltac digit_split c H :=
  apply digit_cases in H; simpl in H;
  repeat (destruct H as [H|H]; [subst c|]); [..|contradiction].

Lemma sep_cases s : sep_next s = true ->
  s = [] \/ exists c s', s = c :: s' /\ In c (str ".[(/").
Proof.
  destruct s as [|c s]; [auto|]. simpl. intros H. right. exists c, s. split; auto.
  repeat (apply orb_true_iff in H; destruct H as [H|H];
          [apply Ascii.eqb_eq in H; subst; simpl; tauto|]).
  discriminate.
Qed.

Ltac octet_case Hs Hk :=
  let c := fresh "c" in let s' := fresh "s" in let Hc := fresh "Hc" in
  destruct Hs as [-> | (c & s' & -> & Hc)];
  [ | simpl in Hc; repeat (destruct Hc as [Hc|Hc]; [subst c|]); [..|contradiction]];
  unfold after in Hk; simpl in Hk; vm_compute; rewrite Hk; reflexivity.

(** On an octet followed by a separator, the first end position the
    octet pattern offers is the end of the octet. *)
Lemma octet_run w : is_octet w = true ->
  forall k pv s x,
    sep_next s = true ->
    k (after pv w s) = Some x ->
    run false octet_re k (Pos pv (w ++ s)) = Some x.
Proof.
  intros Hw k pv s x Hs Hk.
  rewrite run_unchecked by reflexivity.
  apply sep_cases in Hs.
  unfold is_octet in Hw.
  apply andb_true_iff in Hw. destruct Hw as [Hw Hv].
  apply andb_true_iff in Hw. destruct Hw as [Hl Hd].
  destruct w as [|c1 [|c2 [|c3 [|c4 w]]]]; simpl in Hd.
  - discriminate Hl.
  - rewrite andb_true_r in Hd. digit_split c1 Hd; octet_case Hs Hk.
  - rewrite andb_true_r in Hd. apply andb_true_iff in Hd. destruct Hd as [H1 H2].
    digit_split c1 H1; digit_split c2 H2; octet_case Hs Hk.
  - rewrite andb_true_r in Hd. apply andb_true_iff in Hd. destruct Hd as [H1 Hd].
    apply andb_true_iff in Hd. destruct Hd as [H2 H3].
    digit_split c1 H1; digit_split c2 H2; digit_split c3 H3;
      try discriminate Hv; octet_case Hs Hk.
  - discriminate Hl.
Qed.

End Quad.


Module QuadRun.
Import Lang LangFacts Unchecked UncheckedFacts Quad.

Lemma digit_word c : is_digit c = true -> is_word c = true.
Proof. unfold is_word. intros ->. now rewrite !orb_true_r. Qed.

Lemma octet_digits w : is_octet w = true -> forallb is_digit w = true.
Proof.
  unfold is_octet. intros H. apply andb_true_iff in H. destruct H as [H _].
  apply andb_true_iff in H. tauto.
Qed.

Lemma octet_length w : is_octet w = true -> 1 <= List.length w <= 3.
Proof.
  unfold is_octet. intros H. apply andb_true_iff in H. destruct H as [H _].
  apply andb_true_iff in H. destruct H as [H _].
  apply andb_true_iff in H. destruct H as [H1 H2].
  apply Nat.leb_le in H1, H2. lia.
Qed.

Lemma octet_head w : is_octet w = true ->
  exists c w', w = c :: w' /\ is_digit c = true.
Proof.
  intros H. pose proof (@octet_length w H) as Hl. apply octet_digits in H.
  destruct w as [|c w']; simpl in *; [lia|].
  apply andb_true_iff in H. exists c, w'. tauto.
Qed.

Lemma lastp_digits pv w :
  w <> [] -> forallb is_digit w = true ->
  exists d, lastp pv w = Some d /\ is_digit d = true.
Proof.
  revert pv. induction w as [|c w IH]; intros pv Hne Hd; [congruence|].
  simpl in Hd. apply andb_true_iff in Hd. destruct Hd as [Hc Hd].
  destruct w as [|c' w'].
  - exists c. auto.
  - simpl. apply (IH (Some c)); [discriminate|exact Hd].
Qed.

Lemma octet_last pv w : is_octet w = true ->
  exists d, lastp pv w = Some d /\ is_digit d = true.
Proof.
  intros H. apply lastp_digits; [|now apply octet_digits].
  apply octet_head in H. destruct H as (c & w' & -> & _). discriminate.
Qed.

Lemma boundary_before_digit c t : is_digit c = true -> at_boundary (Pos None (c :: t)) = true.
Proof.
  intros H. unfold at_boundary, word_before, word_after. cbn [prev rest].
  now rewrite (@digit_word c H).
Qed.

Lemma boundary_after_digit d t :
  is_digit d = true -> word_after (Pos (Some d) t) = false ->
  at_boundary (Pos (Some d) t) = true.
Proof.
  intros H Ht. unfold at_boundary, word_before. cbn [prev]. rewrite Ht.
  now rewrite (@digit_word d H).
Qed.

(** The shape shared by the three IPv4-based patterns. *)
Definition quad_re (sep tail : regex) : regex :=
  RSeq RWordB (RSeq (RRep (RSeq octet_re sep) 3 (Some 3)) (RSeq octet_re tail)).

(** [sp] is a separator text that the separator pattern reads first. *)
Definition reads (sep : regex) (sp : list ascii) : Prop :=
  (forall rest, sep_next (sp ++ rest) = true) /\
  forall k pv rest x,
    k (after pv sp rest) = Some x -> run false sep k (Pos pv (sp ++ rest)) = Some x.

Lemma group_run sep o sp k pv rest x :
  is_octet o = true -> reads sep sp ->
  k (after (lastp pv o) sp rest) = Some x ->
  run false (RSeq octet_re sep) k (Pos pv (o ++ sp ++ rest)) = Some x.
Proof.
  intros Ho [Hn Hsp] Hk. cbn [run].
  apply octet_run; [exact Ho | apply Hn |].
  unfold after at 1. apply Hsp. exact Hk.
Qed.

Lemma quad_run sep tail o1 o2 o3 o4 s1 s2 s3 tl K x :
  is_octet o1 = true -> is_octet o2 = true -> is_octet o3 = true -> is_octet o4 = true ->
  reads sep s1 -> reads sep s2 -> reads sep s3 ->
  sep_next tl = true ->
  (forall d, is_digit d = true -> lastp None (o4 ++ tl) = lastp (Some d) tl ->
             run false tail K (Pos (Some d) tl) = Some x) ->
  run false (quad_re sep tail) K
      (Pos None (o1 ++ s1 ++ o2 ++ s2 ++ o3 ++ s3 ++ o4 ++ tl)) = Some x.
Proof.
  intros H1 H2 H3 H4 R1 R2 R3 Htl Htail.
  unfold quad_re. cbn [run].
  destruct (@octet_head o1 H1) as (c & w' & E1 & Hc).
  replace (at_boundary (Pos None (o1 ++ s1 ++ o2 ++ s2 ++ o3 ++ s3 ++ o4 ++ tl))) with true
    by (rewrite E1; symmetry; now apply boundary_before_digit).
  cbn [rest]. cbn [rep max_is_zero Nat.eqb andb pred dec_max Nat.add].
  apply group_run; auto. unfold after.
  cbn [rep max_is_zero Nat.eqb andb pred dec_max Nat.add].
  apply group_run; auto. unfold after.
  cbn [rep max_is_zero Nat.eqb andb pred dec_max Nat.add].
  apply group_run; auto. unfold after.
  cbn [rep max_is_zero Nat.eqb andb pred dec_max Nat.add run].
  apply octet_run; auto. unfold after.
  match goal with |- run false tail K (Pos (lastp ?pv o4) tl) = _ =>
    destruct (@octet_last pv o4 H4) as (d' & Hd' & Hdig'); rewrite Hd'; apply Htail; auto;
    rewrite lastp_app; f_equal;
    destruct (@octet_last None o4 H4) as (d2 & Hd2 & _);
    destruct (@octet_head o4 H4) as (c4 & w4 & -> & _); simpl in *; congruence
  end.
Qed.

(** *** The three patterns *)

Definition defanged_sep : regex :=
  RAlt (RChar ".")
       (RAlt (RSeq (RChar "[") (RSeq (RChar ".") (RChar "]")))
             (RSeq (RChar "(") (RSeq (RChar ".") (RChar ")")))).

Definition prefix_re : regex :=
  Eval vm_compute in Str.compile (RegExp (str "[0-9]|[12][0-9]|3[0-2]") false).

Lemma defanged_ip_shape :
  Str.compile (IOC_PATTERNS DEFANGED_IP) = quad_re defanged_sep RWordB.
Proof. reflexivity. Qed.

Lemma ipv4_shape :
  Str.compile (IOC_PATTERNS IPV4) =
  quad_re (RChar ".") (RSeq (RNotAhead (RChar "/")) RWordB).
Proof. reflexivity. Qed.

Lemma cidr_shape :
  exists others,
    Str.compile (IOC_PATTERNS CIDR) =
    RAlt (quad_re (RChar ".") (RSeq (RChar "/") (RSeq prefix_re RWordB))) others.
Proof. eexists. reflexivity. Qed.

Lemma reads_dot_plain : reads (RChar ".") dot.
Proof.
  split; [reflexivity|]. intros k pv rest x Hk. unfold after in Hk. simpl in *. exact Hk.
Qed.

Lemma reads_dot : reads defanged_sep dot.
Proof.
  split; [reflexivity|]. intros k pv rest x Hk. unfold after in Hk. simpl in *.
  now rewrite Hk.
Qed.

Lemma reads_bracket : reads defanged_sep (str "[.]").
Proof.
  split; [reflexivity|]. intros k pv rest x Hk. unfold after in Hk. simpl in *.
  now rewrite Hk.
Qed.

Lemma reads_paren : reads defanged_sep (str "(.)").
Proof.
  split; [reflexivity|]. intros k pv rest x Hk. unfold after in Hk. simpl in *.
  now rewrite Hk.
Qed.

End QuadRun.


(** * String operations *)

Module StrFacts.
Import Lang LangFacts.

Lemma list_eqb_eq a b : list_eqb a b = true <-> a = b.
Proof.
  revert b. induction a as [|x a IH]; intros [|y b]; simpl; split; intros H;
    try reflexivity; try discriminate.
  - apply andb_true_iff in H. destruct H as [H1 H2].
    apply Ascii.eqb_eq in H1. apply IH in H2. congruence.
  - inversion H; subst. rewrite Ascii.eqb_refl. simpl. now apply IH.
Qed.

Lemma has_In s v : has s v = true <-> In v s.
Proof.
  unfold has. rewrite existsb_exists. split.
  - intros (x & Hx & E). apply list_eqb_eq in E. now subst.
  - intros H. exists v. split; [exact H|]. now apply list_eqb_eq.
Qed.

Lemma In_add s v u : In u (add s v) <-> In u s \/ u = v.
Proof.
  unfold add. destruct (has s v) eqn:E.
  - apply has_In in E. split; [auto|]. intros [H| ->]; auto.
  - rewrite in_app_iff. simpl. split; intros [H|H]; auto.
    + destruct H as [H|[]]; auto.
Qed.

Lemma match_at_nil ci r pv : 0 < min_len r -> match_at ci r (Pos pv []) = None.
Proof.
  intros Hm. destruct (match_at ci r (Pos pv [])) eqn:E; [|reflexivity].
  apply match_at_sound in E. destruct E as (w & s & Ht & HM & _).
  apply min_len_sound in HM. destruct w; [simpl in HM; lia | discriminate].
Qed.

(** A pattern that matches the whole subject from its start, and cannot
    match the empty text, has the subject as its only match. *)
Lemma match_from_whole ci r t pv fuel :
  t <> [] -> 0 < min_len r ->
  match_at ci r (start_pos t) = Some (Pos pv []) ->
  Str.match_from (S (S fuel)) ci r (start_pos t) = [t].
Proof.
  intros Hne Hm H. cbn [Str.match_from]. unfold search at 1. cbn [prev rest start_pos].
  destruct t as [|c t]; [congruence|].
  unfold start_pos in H. cbn [search_from]. rewrite H. cbn [rest List.length Nat.eqb].
  unfold search. cbn [prev rest search_from]. rewrite match_at_nil by exact Hm.
  unfold between. cbn [rest List.length]. rewrite Nat.sub_0_r.
  change (S (List.length t)) with (List.length (c :: t)). now rewrite firstn_all.
Qed.

Lemma replace_from_none ci r by_ t fuel :
  (forall pv w s, (exists pre, t = pre ++ w ++ s) -> ~ matches ci r pv w s) ->
  Str.replace_from fuel ci r by_ (start_pos t) = t.
Proof.
  intros Hno. destruct fuel; simpl; [reflexivity|].
  unfold search. simpl. now rewrite search_from_none.
Qed.

Lemma replace_all_lacking re P by_ t :
  must_have (ignore_case re) P (Str.compile re) = true -> existsb P t = false ->
  Str.replace_all re by_ t = t.
Proof.
  intros Hm Ht. unfold Str.replace_all. apply replace_from_none.
  intros pv w s [pre ->] HM.
  apply existsb_part in Ht. eapply must_have_sound in HM; eauto. congruence.
Qed.

Lemma trim_start_id c t : is_space c = false -> Str.trim_start (c :: t) = c :: t.
Proof. intros H. simpl. now rewrite H. Qed.

(** A text that neither begins nor ends with white space is its own trim. *)
Lemma trim_id c t d :
  is_space c = false -> is_space d = false -> Str.trim ((c :: t) ++ [d]) = (c :: t) ++ [d].
Proof.
  intros Hc Hd. unfold Str.trim. cbn [app Str.trim_start]. rewrite Hc.
  assert (E : rev (c :: t ++ [d]) = d :: rev (c :: t)).
  { change (c :: t ++ [d]) with ((c :: t) ++ [d]). rewrite rev_app_distr. reflexivity. }
  rewrite E. cbn [Str.trim_start]. rewrite Hd. rewrite <- E. apply rev_involutive.
Qed.

End StrFacts.


(** * The normalizers on canonical texts *)

Module NormFacts.
Import Lang LangFacts StrFacts.

Lemma normalizeDefangedIP_canonical x :
  canonical_ip x = true -> normalizeDefangedIP x = x.
Proof.
  unfold canonical_ip. intros H. apply negb_true_iff in H.
  unfold normalizeDefangedIP.
  assert (Hid : forall re, must_have (ignore_case re) is_opening (Str.compile re) = true ->
                        Str.replace_all re dot x = x).
  { intros re Hre. now apply (@replace_all_lacking re is_opening). }
  rewrite !Hid by (vm_compute; reflexivity). reflexivity.
Qed.

(** A pattern that spells out a fixed text. *)
Fixpoint spelled (cs : list ascii) : regex :=
  match cs with
  | [] => REmpty
  | [c] => RChar c
  | c :: cs' => RSeq (RChar c) (spelled cs')
  end.

Lemma spelled_matches cs pv w s :
  matches true (spelled cs) pv w s -> map to_upper w = map to_upper cs.
Proof.
  revert pv w. induction cs as [|c cs IH]; intros pv w H.
  - simpl in H. now subst.
  - destruct cs as [|c' cs'].
    + simpl in H. destruct H as (a & -> & E). unfold char_eq in E.
      apply Ascii.eqb_eq in E. simpl. now rewrite E.
    + cbn [spelled matches] in H. destruct H as (w1 & w2 & -> & (a & -> & E) & H2).
      apply IH in H2. unfold char_eq in E. apply Ascii.eqb_eq in E.
      simpl in *. now rewrite E, H2.
Qed.

Lemma starts_with_app a b : Str.starts_with (a ++ b) a = true.
Proof. induction a as [|x a IH]; simpl; [now destruct b|]. now rewrite Ascii.eqb_refl. Qed.

Lemma search_bol_later ci r c t : search_from ci (RSeq RBol r) (Some c) t = None.
Proof.
  revert c. induction t as [|d t IH]; intros c; simpl; [reflexivity|]. apply IH.
Qed.

(** An anchored scheme pattern finds nothing in a text that does not
    begin with that scheme. *)
Lemma replace_first_scheme re cs by_ t :
  ignore_case re = true -> Str.compile re = RSeq RBol (spelled cs) ->
  prefix_ci cs t = false ->
  Str.replace_first re by_ t = t.
Proof.
  intros Hci Hre Hp. unfold Str.replace_first. rewrite Hci, Hre.
  unfold search, start_pos. cbn [prev rest].
  assert (E : match_at true (RSeq RBol (spelled cs)) (Pos None t) = None).
  { destruct (match_at true (RSeq RBol (spelled cs)) (Pos None t)) eqn:E; [|reflexivity].
    apply match_at_sound in E. destruct E as (w & s & -> & HM & _).
    cbn [matches] in HM. destruct HM as (w1 & w2 & -> & [-> _] & HM).
    apply spelled_matches in HM. unfold prefix_ci in Hp.
    simpl in Hp. rewrite map_app, HM, starts_with_app in Hp. discriminate. }
  destruct t as [|c t]; simpl; rewrite E; [reflexivity|].
  now rewrite search_bol_later.
Qed.

Lemma normalizeDefangedURL_canonical x :
  canonical_url x = true -> normalizeDefangedURL x = x.
Proof.
  unfold canonical_url, defanged_scheme. intros H.
  apply andb_true_iff in H. destruct H as [Hc Hs].
  apply negb_true_iff in Hs.
  apply orb_false_iff in Hs. destruct Hs as [Hs H3].
  apply orb_false_iff in Hs. destruct Hs as [H1 H2].
  unfold normalizeDefangedURL.
  rewrite (@replace_first_scheme (lit "^hxxp:\/\/" true) (str "hxxp://") (str "http://") x)
    by (exact H1 || reflexivity).
  rewrite (@replace_first_scheme (lit "^hxxps:\/\/" true) (str "hxxps://") (str "https://") x)
    by (exact H2 || reflexivity).
  rewrite (@replace_first_scheme (lit "^ftxp:\/\/" true) (str "ftxp://") (str "ftp://") x)
    by (exact H3 || reflexivity).
  apply normalizeDefangedIP_canonical. exact Hc.
Qed.

End NormFacts.


(** * The scan loop *)

Module ScanFacts.
Import StrFacts.

(** The test [foundValue.includes('/') && foundValue.startsWith(m + '/')]. *)
Definition contains_cidr_of (found : list (list ascii)) (m : list ascii) : bool :=
  existsb (fun foundValue =>
             Str.includes_char foundValue "/"
             && Str.starts_with foundValue (m ++ str "/"))
          found.

Definition final_value (t : ioc_type) (normalizedMatch : list ascii) : list ascii :=
  if ioc_type_eqb t DEFANGED_URL then normalizeDefangedURL normalizedMatch
  else if ioc_type_eqb t DEFANGED_IP then normalizeDefangedIP normalizedMatch
  else normalizedMatch.

Section Loop.
Variable stamp : nat -> list ascii.

Definition push (t : ioc_type) (st : scan_state) (normalizedMatch : list ascii) : scan_state :=
  let finalValue := final_value t normalizedMatch in
  Scan (detectedIOCs st ++
        [IOC t finalValue (if is_defanged t then Some normalizedMatch else None)
             (make_id stamp t finalValue (List.length (detectedIOCs st)))])
       (add (add (foundValues st) finalValue) normalizedMatch).

(** What one call of the match callback can do to the state: nothing, or
    push one record and claim its two forms. *)
Inductive match_effect (t : ioc_type) (st : scan_state) (m : list ascii) : scan_state -> Prop :=
| effect_skip : match_effect t st m st
| effect_push :
    2 < List.length (Str.trim m) ->
    has (foundValues st) (final_value t (Str.trim m)) = false ->
    has (foundValues st) (Str.trim m) = false ->
    (is_ip t = true -> contains_cidr_of (foundValues st) (Str.trim m) = false) ->
    match_effect t st m (push t st (Str.trim m)).

Lemma on_match_effect t st m : match_effect t st m (on_match stamp t st m).
Proof.
  unfold on_match. cbv zeta.
  destruct (2 <? List.length (Str.trim m)) eqn:Elen; [|constructor]. cbn [andb].
  destruct (negb (has (foundValues st) (Str.trim m))) eqn:Ehas; [|constructor].
  match goal with |- context [negb (if is_ip t then ?e else false)] =>
    change e with (contains_cidr_of (foundValues st) (Str.trim m));
    destruct (negb (if is_ip t then contains_cidr_of (foundValues st) (Str.trim m) else false))
      eqn:Ecidr end; [|constructor].
  change (if ioc_type_eqb t DEFANGED_URL then normalizeDefangedURL (Str.trim m)
          else if ioc_type_eqb t DEFANGED_IP then normalizeDefangedIP (Str.trim m)
          else Str.trim m) with (final_value t (Str.trim m)).
  destruct (ioc_type_eqb t URL && _); [constructor|].
  destruct (is_ip t && _); [constructor|].
  destruct (negb (has (foundValues st) (final_value t (Str.trim m)))) eqn:Efin; [|constructor].
  cbn [andb]. apply negb_true_iff in Ehas, Efin. apply Nat.ltb_lt in Elen.
  apply effect_push; auto.
  intros Hip. rewrite Hip in Ecidr. now apply negb_true_iff in Ecidr.
Qed.

(** A property of the state that every effect preserves holds after any
    part of the scan. *)
Section Invariant.
Variable text : list ascii.
Variable I : scan_state -> Prop.
Hypothesis I_step :
  forall t st m st',
    In m (Str.match_all (IOC_PATTERNS t) text) ->
    I st -> match_effect t st m st' -> I st'.

Lemma matches_invariant t ms st :
  incl ms (Str.match_all (IOC_PATTERNS t) text) ->
  I st -> I (fold_left (on_match stamp t) ms st).
Proof.
  revert st. induction ms as [|m ms IH]; intros st Hin Hst; simpl; [exact Hst|].
  apply IH; [intros x Hx; apply Hin; now right|].
  eapply I_step; [apply Hin; now left | exact Hst | apply on_match_effect].
Qed.

Lemma types_invariant ts st : I st -> I (fold_left (on_type stamp text) ts st).
Proof.
  revert st. induction ts as [|t ts IH]; intros st Hst; simpl; [exact Hst|].
  apply IH. unfold on_type. apply matches_invariant; [apply incl_refl | exact Hst].
Qed.

Lemma scan_invariant : I (Scan [] []) -> I (scan stamp text).
Proof. intros H0. unfold scan. now apply types_invariant. Qed.

End Invariant.

(** Every value emitted is claimed, and no value is emitted twice. *)
Definition values_claimed (st : scan_state) : Prop :=
  NoDup (map value (detectedIOCs st)) /\
  forall r, In r (detectedIOCs st) -> In (value r) (foundValues st).

Lemma values_claimed_step t st m st' :
  values_claimed st -> match_effect t st m st' -> values_claimed st'.
Proof.
  intros [Hnd Hcl] Heff. destruct Heff as [|Hlen Hf1 Hf2 _]; [split; assumption|].
  unfold push. split; cbn [detectedIOCs foundValues].
  - rewrite map_app. cbn [map value]. apply NoDup_app; [exact Hnd | repeat constructor; simpl; tauto |].
    intros v Hv [E|[]]. subst v. apply in_map_iff in Hv. destruct Hv as (r & E & Hr).
    apply Hcl in Hr. apply has_In in Hr. rewrite E in Hr. congruence.
  - intros r Hr. apply in_app_iff in Hr. rewrite !In_add.
    destruct Hr as [Hr|[E|[]]]; [auto|]. subst r. cbn [value]. auto.
Qed.

Lemma values_claimed_scan text : values_claimed (scan stamp text).
Proof.
  apply scan_invariant.
  - intros t st m st' _. apply values_claimed_step.
  - split; simpl; [constructor | tauto].
Qed.

(** A match whose trimmed text is already claimed changes nothing. *)
Lemma on_match_seen t st m :
  has (foundValues st) (Str.trim m) = true -> on_match stamp t st m = st.
Proof.
  intros H. unfold on_match. cbv zeta. rewrite H. cbn [negb]. now rewrite andb_false_r.
Qed.

(** A match of a type other than IPv4, IPv6 and URL, long enough and
    with neither form claimed yet, is pushed. *)
Lemma on_match_fresh t st m :
  is_ip t = false -> ioc_type_eqb t URL = false ->
  2 < List.length (Str.trim m) ->
  has (foundValues st) (Str.trim m) = false ->
  has (foundValues st) (final_value t (Str.trim m)) = false ->
  on_match stamp t st m = push t st (Str.trim m).
Proof.
  intros Hip Hurl Hlen Hm Hf. unfold on_match. cbv zeta.
  apply Nat.ltb_lt in Hlen. rewrite Hlen, Hm, Hip, Hurl. cbn [negb andb].
  change (if ioc_type_eqb t DEFANGED_URL then normalizeDefangedURL (Str.trim m)
          else if ioc_type_eqb t DEFANGED_IP then normalizeDefangedIP (Str.trim m)
          else Str.trim m) with (final_value t (Str.trim m)).
  rewrite Hf. reflexivity.
Qed.

Lemma contains_cidr_of_claimed found m sfx :
  In (m ++ str "/" ++ sfx) found -> contains_cidr_of found m = true.
Proof.
  intros Hin. apply existsb_exists. exists (m ++ str "/" ++ sfx). split; [exact Hin|].
  apply andb_true_iff. split.
  - unfold Str.includes_char. rewrite existsb_app. apply orb_true_iff. right. reflexivity.
  - rewrite app_assoc. generalize (m ++ str "/") as a.
    induction a as [|x a IH]; simpl; [now destruct sfx|]. now rewrite Ascii.eqb_refl.
Qed.

(** An IPv4 or IPv6 match is dropped when a claimed value is that match
    followed by a slash and anything else. *)
Lemma on_match_inside_cidr t st m sfx :
  is_ip t = true ->
  In (Str.trim m ++ str "/" ++ sfx) (foundValues st) ->
  on_match stamp t st m = st.
Proof.
  intros Hip Hin. unfold on_match. cbv zeta. rewrite Hip.
  destruct ((2 <? List.length (Str.trim m)) && negb (has (foundValues st) (Str.trim m)));
    [|reflexivity].
  match goal with |- (if negb ?e then _ else _) = _ =>
    change e with (contains_cidr_of (foundValues st) (Str.trim m)) end.
  now rewrite (@contains_cidr_of_claimed _ _ sfx Hin).
Qed.

(** Records, once pushed, stay. *)
Lemma effect_keeps t st m st' r :
  match_effect t st m st' -> In r (detectedIOCs st) -> In r (detectedIOCs st').
Proof.
  intros Heff Hr. destruct Heff; [exact Hr|]. unfold push. cbn [detectedIOCs].
  apply in_app_iff. now left.
Qed.

Lemma effect_keeps_found t st m st' v :
  match_effect t st m st' -> In v (foundValues st) -> In v (foundValues st').
Proof.
  intros Heff Hv. destruct Heff; [exact Hv|]. unfold push. cbn [foundValues].
  rewrite !In_add. auto.
Qed.

(** Each record comes from a match of the pattern of its type: the
    trimmed match is kept as [originalValue] by the de-fanged types, and
    the value is its normal form (the match itself for the other types). *)
Definition from_match (text : list ascii) (r : ioc) : Prop :=
  exists m,
    In m (Str.match_all (IOC_PATTERNS (type r)) text) /\
    value r = final_value (type r) (Str.trim m) /\
    originalValue r = (if is_defanged (type r) then Some (Str.trim m) else None).

Lemma from_match_scan text r :
  In r (detectedIOCs (scan stamp text)) -> from_match text r.
Proof.
  revert r.
  apply (@scan_invariant text (fun st => forall r, In r (detectedIOCs st) -> from_match text r)).
  - intros t st m st' Hm Hst Heff. destruct Heff as [|Hlen Hf1 Hf2 _]; [exact Hst|].
    intros r Hr. unfold push in Hr. cbn [detectedIOCs] in Hr.
    apply in_app_iff in Hr. destruct Hr as [Hr|[E|[]]]; [now apply Hst|].
    subst r. exists m. cbn [type value originalValue]. auto.
  - intros r [].
Qed.

End Loop.

End ScanFacts.


(** * Dotted quads through the scan *)

Module QuadScan.
Import Lang LangFacts StrFacts NormFacts ScanFacts Quad QuadRun.

(** The code units of a dotted quad. *)
Definition plain (c : ascii) : bool := is_digit c || Ascii.eqb c ".".

(** Anything else. *)
Definition other (c : ascii) : bool := negb (plain c).

Lemma octet_plain w : is_octet w = true -> forallb plain w = true.
Proof.
  intros H. apply octet_digits in H. rewrite forallb_forall in *.
  intros c Hc. unfold plain. now rewrite (H c Hc).
Qed.

Lemma dotted_quad_plain o1 o2 o3 o4 :
  is_octet o1 = true -> is_octet o2 = true -> is_octet o3 = true -> is_octet o4 = true ->
  forallb plain (dotted_quad o1 o2 o3 o4) = true.
Proof.
  intros H1 H2 H3 H4. unfold dotted_quad.
  rewrite !forallb_app, (@octet_plain o1 H1), (@octet_plain o2 H2),
    (@octet_plain o3 H3), (@octet_plain o4 H4). reflexivity.
Qed.

(** A kind of character that excludes the plain ones is absent from a
    plain text. *)
Lemma absent_from_plain (P : ascii -> bool) t :
  forallb (fun c => implb (plain c) (negb (P c))) all_ascii = true ->
  forallb plain t = true -> existsb P t = false.
Proof.
  intros HP Ht. rewrite forallb_forall in HP, Ht.
  destruct (existsb P t) eqn:E; [|reflexivity].
  apply existsb_exists in E. destruct E as (c & Hc & HPc).
  specialize (HP c (in_all_ascii c)). rewrite (Ht c Hc), HPc in HP. discriminate.
Qed.

Lemma existsb_rev (P : ascii -> bool) t : existsb P (rev t) = existsb P t.
Proof.
  destruct (existsb P t) eqn:E.
  - apply existsb_exists in E. destruct E as (c & Hc & HPc).
    apply existsb_exists. exists c. split; [now apply in_rev in Hc|exact HPc].
  - destruct (existsb P (rev t)) eqn:E'; [|reflexivity].
    apply existsb_exists in E'. destruct E' as (c & Hc & HPc).
    apply in_rev in Hc. assert (existsb P t = true) by (apply existsb_exists; eauto).
    congruence.
Qed.

Lemma trim_start_no_space t : existsb is_space t = false -> Str.trim_start t = t.
Proof.
  destruct t as [|c t]; simpl; [reflexivity|]. intros H.
  apply orb_false_iff in H. destruct H as [-> _]. reflexivity.
Qed.

Lemma trim_no_space t : existsb is_space t = false -> Str.trim t = t.
Proof.
  intros H. unfold Str.trim. rewrite (@trim_start_no_space t H).
  rewrite trim_start_no_space by now rewrite existsb_rev.
  apply rev_involutive.
Qed.

Lemma trim_plain t : forallb plain t = true -> Str.trim t = t.
Proof.
  intros H. apply trim_no_space. apply absent_from_plain; [vm_compute; reflexivity | exact H].
Qed.

Lemma normalizeDefangedIP_plain t :
  forallb plain t = true -> normalizeDefangedIP t = t.
Proof.
  intros H. apply normalizeDefangedIP_canonical. unfold canonical_ip.
  rewrite absent_from_plain; [reflexivity | vm_compute; reflexivity | exact H].
Qed.

Lemma dotted_quad_length o1 o2 o3 o4 :
  is_octet o1 = true -> is_octet o2 = true -> is_octet o3 = true -> is_octet o4 = true ->
  7 <= List.length (dotted_quad o1 o2 o3 o4) <= 15.
Proof.
  intros H1 H2 H3 H4. unfold dotted_quad. rewrite !length_app.
  apply octet_length in H1, H2, H3, H4. simpl. lia.
Qed.

Lemma list_eqb_refl a : list_eqb a a = true.
Proof. now apply list_eqb_eq. Qed.

(** *** What the address patterns find in a four-octet text *)

Definition ends_at_text (tail : regex) : Prop :=
  forall d, is_digit d = true ->
    run false tail (fun q => Some q) (Pos (Some d) []) = Some (Pos (Some d) []).

Lemma word_boundary_ends : ends_at_text RWordB.
Proof.
  intros d Hd. cbn [run]. rewrite boundary_after_digit; auto.
Qed.

Lemma no_slash_ends : ends_at_text (RSeq (RNotAhead (RChar "/")) RWordB).
Proof.
  intros d Hd. cbn [run advance rest]. rewrite boundary_after_digit; auto.
Qed.

Lemma quad_match_at sep tail o1 o2 o3 o4 s1 s2 s3 :
  is_octet o1 = true -> is_octet o2 = true -> is_octet o3 = true -> is_octet o4 = true ->
  reads sep s1 -> reads sep s2 -> reads sep s3 -> ends_at_text tail ->
  match_at false (quad_re sep tail) (start_pos (o1 ++ s1 ++ o2 ++ s2 ++ o3 ++ s3 ++ o4))
  = Some (Pos (lastp None o4) []).
Proof.
  intros H1 H2 H3 H4 R1 R2 R3 Hend. unfold match_at, start_pos.
  rewrite <- (app_nil_r o4) at 1.
  apply quad_run; auto.
  intros d Hd Hl. rewrite app_nil_r in Hl. cbn [lastp] in Hl. rewrite Hl. now apply Hend.
Qed.

Lemma quad_match_all re sep tail o1 o2 o3 o4 s1 s2 s3 :
  ignore_case re = false -> Str.compile re = quad_re sep tail ->
  0 < min_len (quad_re sep tail) ->
  is_octet o1 = true -> is_octet o2 = true -> is_octet o3 = true -> is_octet o4 = true ->
  reads sep s1 -> reads sep s2 -> reads sep s3 -> ends_at_text tail ->
  Str.match_all re (o1 ++ s1 ++ o2 ++ s2 ++ o3 ++ s3 ++ o4)
  = [o1 ++ s1 ++ o2 ++ s2 ++ o3 ++ s3 ++ o4].
Proof.
  intros Hci Hre Hmin H1 H2 H3 H4 R1 R2 R3 Hend. unfold Str.match_all. rewrite Hci, Hre.
  destruct (@octet_head o1 H1) as (c & w & E & _).
  assert (Hne : o1 ++ s1 ++ o2 ++ s2 ++ o3 ++ s3 ++ o4 <> []) by (rewrite E; discriminate).
  destruct (List.length (o1 ++ s1 ++ o2 ++ s2 ++ o3 ++ s3 ++ o4)) as [|n] eqn:El.
  - apply length_zero_iff_nil in El. contradiction.
  - eapply match_from_whole; [exact Hne | exact Hmin |]. now apply quad_match_at.
Qed.

Section Plain.
Variables o1 o2 o3 o4 : list ascii.
Hypothesis H1 : is_octet o1 = true.
Hypothesis H2 : is_octet o2 = true.
Hypothesis H3 : is_octet o3 = true.
Hypothesis H4 : is_octet o4 = true.

Let T := dotted_quad o1 o2 o3 o4.

Lemma plain_T : forallb plain T = true.
Proof. now apply dotted_quad_plain. Qed.

Lemma defanged_ip_on_plain : Str.match_all (IOC_PATTERNS DEFANGED_IP) T = [T].
Proof.
  unfold T, dotted_quad.
  apply (@quad_match_all _ defanged_sep RWordB); auto using reads_dot, word_boundary_ends.
  vm_compute. lia.
Qed.

Lemma ipv4_on_plain : Str.match_all (IOC_PATTERNS IPV4) T = [T].
Proof.
  unfold T, dotted_quad.
  apply (@quad_match_all _ (RChar ".") (RSeq (RNotAhead (RChar "/")) RWordB));
    auto using reads_dot_plain, no_slash_ends.
  vm_compute. lia.
Qed.

(** The patterns that need a character no dotted quad has. *)
Lemma nothing_on_plain t :
  must_have (ignore_case (IOC_PATTERNS t)) other (Str.compile (IOC_PATTERNS t)) = true ->
  Str.match_all (IOC_PATTERNS t) T = [].
Proof.
  intros Hm. unfold Str.match_all. eapply match_from_lacking; [exact Hm|].
  apply absent_from_plain; [vm_compute; reflexivity | apply plain_T].
Qed.

(** The hash patterns need more text than a dotted quad has. *)
Lemma no_hash_on_plain t :
  15 < min_len (Str.compile (IOC_PATTERNS t)) ->
  Str.match_all (IOC_PATTERNS t) T = [].
Proof.
  intros Hm. unfold Str.match_all. apply match_from_short.
  pose proof (@dotted_quad_length o1 o2 o3 o4 H1 H2 H3 H4) as Hl. fold T in Hl. lia.
Qed.

End Plain.

(** *** A dotted quad with a prefix length *)

Definition cidr_tail : regex := RSeq (RChar "/") (RSeq prefix_re RWordB).

Lemma cidr_shape_tail :
  exists others,
    Str.compile (IOC_PATTERNS CIDR) = RAlt (quad_re (RChar ".") cidr_tail) others.
Proof. eexists. reflexivity. Qed.

(** A property that holds of the text of each prefix length 0..32. *)
Lemma prefix_texts (P : list ascii -> bool) n :
  n <= 32 -> forallb P (map decimal (seq 0 33)) = true -> P (decimal n) = true.
Proof.
  intros Hn HP. rewrite forallb_forall in HP. apply HP.
  apply in_map. apply in_seq. lia.
Qed.

Lemma cidr_tail_run d n :
  n <= 32 ->
  run false cidr_tail (fun q => Some q) (Pos (Some d) (str "/" ++ decimal n))
  = Some (Pos (lastp (Some d) (str "/" ++ decimal n)) []).
Proof.
  intros Hn.
  do 33 (destruct n as [|n]; [vm_compute; reflexivity|]). lia.
Qed.

Section Cidr.
Variables o1 o2 o3 o4 : list ascii.
Variable n : nat.
Hypothesis H1 : is_octet o1 = true.
Hypothesis H2 : is_octet o2 = true.
Hypothesis H3 : is_octet o3 = true.
Hypothesis H4 : is_octet o4 = true.
Hypothesis Hn : n <= 32.

Let Q := dotted_quad o1 o2 o3 o4.
Let T := cidr_text o1 o2 o3 o4 n.

Lemma cidr_text_split : T = o1 ++ dot ++ o2 ++ dot ++ o3 ++ dot ++ o4 ++ str "/" ++ decimal n.
Proof. unfold T, cidr_text, dotted_quad. now rewrite <- !app_assoc. Qed.

Lemma cidr_match_at :
  exists pv, match_at false (Str.compile (IOC_PATTERNS CIDR)) (start_pos T) = Some (Pos pv []).
Proof.
  destruct cidr_shape_tail as [others ->].
  exists (lastp None (o4 ++ str "/" ++ decimal n)).
  unfold match_at. cbn [run]. rewrite cidr_text_split. unfold start_pos.
  rewrite (@quad_run (RChar ".") cidr_tail o1 o2 o3 o4 dot dot dot (str "/" ++ decimal n)
             (fun q => Some q) (Pos (lastp None (o4 ++ str "/" ++ decimal n)) []));
    auto using reads_dot_plain.
  intros d Hd Hl. rewrite Hl. now apply cidr_tail_run.
Qed.

Lemma cidr_on_cidr_text : Str.match_all (IOC_PATTERNS CIDR) T = [T].
Proof.
  destruct cidr_match_at as [pv Hm]. unfold Str.match_all.
  assert (Hne : T <> []).
  { rewrite cidr_text_split. destruct (@octet_head o1 H1) as (c & w & -> & _). discriminate. }
  destruct (List.length T) as [|k] eqn:El.
  - apply length_zero_iff_nil in El. contradiction.
  - eapply match_from_whole; [exact Hne | vm_compute; lia | exact Hm].
Qed.

Lemma cidr_text_no_space : existsb is_space T = false.
Proof.
  unfold T, cidr_text. rewrite !existsb_app.
  rewrite (@absent_from_plain is_space (dotted_quad o1 o2 o3 o4));
    [| vm_compute; reflexivity | now apply dotted_quad_plain ].
  cbn [str list_ascii_of_string existsb orb].
  replace (is_space "/") with false by reflexivity. cbn [orb].
  apply negb_true_iff.
  apply (@prefix_texts (fun t => negb (existsb is_space t)) n Hn). vm_compute. reflexivity.
Qed.

Lemma cidr_text_length : 2 < List.length T.
Proof.
  unfold T, cidr_text. rewrite length_app.
  pose proof (@dotted_quad_length o1 o2 o3 o4 H1 H2 H3 H4). lia.
Qed.

End Cidr.

End QuadScan.


(** * What a match looks like *)

Module MatchFacts.
Import Lang LangFacts StrFacts Analysis.

Lemma iter_all_in (R : ctx) (P : ascii -> bool) mn mx pv w s :
  (forall pv w s, R pv w s -> forallb P w = true) ->
  Iter R mn mx pv w s -> forallb P w = true.
Proof.
  intros HR HI. induction HI as [mn mx pv s Hd | mn mx pv w1 w2 s Hmx H1 Hne HI IH].
  - reflexivity.
  - rewrite forallb_app, IH. now rewrite (HR _ _ _ H1).
Qed.

Lemma all_in_sound ci P r pv w s :
  all_in ci P r = true -> matches ci r pv w s -> forallb P w = true.
Proof.
  revert pv w s.
  induction r as [|a|neg items|r1 IH1 r2 IH2|r1 IH1 r2 IH2|r0 IH mn mx| |r0 IH| |];
    intros pv w s Ha H; cbn [matches all_in] in *.
  - now subst.
  - destruct H as (c & -> & Hc). rewrite forallb_forall in Ha.
    specialize (Ha c (in_all_ascii c)). rewrite Hc in Ha. simpl in *. now rewrite Ha.
  - destruct H as (c & -> & Hc). rewrite forallb_forall in Ha.
    specialize (Ha c (in_all_ascii c)). rewrite Hc in Ha. simpl in *. now rewrite Ha.
  - apply andb_true_iff in Ha. destruct Ha as [Ha1 Ha2].
    destruct H as (w1 & w2 & -> & H1 & H2). rewrite forallb_app.
    now rewrite (IH1 _ _ _ Ha1 H1), (IH2 _ _ _ Ha2 H2).
  - apply andb_true_iff in Ha. destruct Ha as [Ha1 Ha2]. destruct H; eauto.
  - eapply iter_all_in; [|exact H]. intros. eapply IH; eauto.
  - now destruct H as [-> _].
  - now destruct H as [-> _].
  - now destruct H as [-> _].
  - now destruct H as [-> _].
Qed.

Lemma iter_max_len (R : ctx) l mn x pv w s :
  (forall pv w s, R pv w s -> List.length w <= l) ->
  Iter R mn (Some x) pv w s -> List.length w <= x * l.
Proof.
  intros HR HI. remember (Some x) as mx eqn:Emx. revert x Emx.
  induction HI as [mn mx pv s Hd | mn mx pv w1 w2 s Hmx H1 Hne HI IH]; intros x Emx.
  - simpl. lia.
  - subst mx. destruct x as [|x]; [discriminate|].
    rewrite length_app. apply HR in H1. specialize (IH x eq_refl). simpl. lia.
Qed.

Lemma max_len_sound ci r n pv w s :
  max_len r = Some n -> matches ci r pv w s -> List.length w <= n.
Proof.
  revert n pv w s.
  induction r as [|a|neg items|r1 IH1 r2 IH2|r1 IH1 r2 IH2|r0 IH mn mx| |r0 IH| |];
    intros n pv w s Hn H; cbn [matches max_len] in *.
  - subst. simpl. lia.
  - destruct H as (c & -> & _). inversion Hn. simpl. lia.
  - destruct H as (c & -> & _). inversion Hn. simpl. lia.
  - destruct (max_len r1) as [a|]; [|discriminate].
    destruct (max_len r2) as [b|]; [|discriminate]. inversion Hn; subst.
    destruct H as (w1 & w2 & -> & H1 & H2). rewrite length_app.
    specialize (IH1 a _ _ _ eq_refl H1). specialize (IH2 b _ _ _ eq_refl H2). lia.
  - destruct (max_len r1) as [a|]; [|discriminate].
    destruct (max_len r2) as [b|]; [|discriminate]. inversion Hn; subst.
    destruct H as [H|H].
    + specialize (IH1 a _ _ _ eq_refl H). lia.
    + specialize (IH2 b _ _ _ eq_refl H). lia.
  - destruct mx as [x|]; [|discriminate].
    destruct (max_len r0) as [l|]; [|discriminate]. inversion Hn; subst.
    eapply iter_max_len; [|exact H]. intros. eapply IH; eauto.
  - destruct H as [-> _]. simpl. lia.
  - destruct H as [-> _]. simpl. lia.
  - destruct H as [-> _]. simpl. lia.
  - destruct H as [-> _]. simpl. lia.
Qed.

(** A pattern without assertions matches the same text in any context. *)
Lemma ctx_free_indep ci r :
  ctx_free r = true ->
  forall pv w s pv' s', matches ci r pv w s -> matches ci r pv' w s'.
Proof.
  induction r as [|a|neg items|r1 IH1 r2 IH2|r1 IH1 r2 IH2|r0 IH mn mx| |r0 IH| |];
    intros Hc pv w s pv' s' H; cbn [matches ctx_free] in *; try discriminate; auto.
  - apply andb_true_iff in Hc. destruct Hc as [Hc1 Hc2].
    destruct H as (w1 & w2 & -> & H1 & H2). exists w1, w2. split; [reflexivity|].
    split; [eapply IH1; eauto | eapply IH2; eauto].
  - apply andb_true_iff in Hc. destruct Hc as [Hc1 Hc2].
    destruct H as [H|H]; [left; eapply IH1 | right; eapply IH2]; eauto.
  - revert pv' s'.
    induction H as [mn mx pv s Hd | mn mx pv w1 w2 s Hmx H1 Hne HI IHI]; intros pv' s'.
    + now constructor.
    + apply Iter_more; auto. eapply IH; eauto.
Qed.

(** *** From the list of matches back to a match *)

Lemma firstn_consumed (w s : list ascii) :
  firstn (List.length (w ++ s) - List.length s) (w ++ s) = w.
Proof.
  rewrite length_app. replace (List.length w + List.length s - List.length s)
    with (List.length w + 0) by lia.
  rewrite firstn_app_2. simpl. apply app_nil_r.
Qed.

Lemma search_from_sound ci r pv t ps pe :
  search_from ci r pv t = Some (ps, pe) ->
  exists w, rest ps = w ++ rest pe /\ matches ci r (prev ps) w (rest pe)
            /\ pe = after (prev ps) w (rest pe)
            /\ List.length (rest ps) <= List.length t.
Proof.
  revert pv. induction t as [|c t IH]; intros pv H; simpl in H.
  - destruct (match_at ci r (Pos pv [])) eqn:E; [|discriminate].
    inversion H; subst. apply match_at_sound in E. destruct E as (w & s & Ht & HM & ->).
    exists w. cbn [rest prev after]. auto.
  - destruct (match_at ci r (Pos pv (c :: t))) eqn:E.
    + inversion H; subst. apply match_at_sound in E. destruct E as (w & s & Ht & HM & ->).
      exists w. cbn [rest prev after]. auto.
    + apply IH in H. destruct H as (w & ? & ? & ? & ?). exists w. simpl. auto.
Qed.

Lemma match_from_sound ci r fuel p m :
  In m (Str.match_from fuel ci r p) -> exists pv s, matches ci r pv m s.
Proof.
  revert p. induction fuel as [|fuel IH]; intros p H; simpl in H; [contradiction|].
  destruct (search ci r p) as [[ps pe]|] eqn:E; [|contradiction].
  unfold search in E. apply search_from_sound in E.
  destruct E as (w & Hps & HM & _ & _).
  assert (Hb : between ps pe = w).
  { unfold between. rewrite Hps. apply firstn_consumed. }
  rewrite Hb in H.
  destruct (List.length (rest pe) =? List.length (rest ps)).
  - destruct (advance pe) as [[c p']|].
    + destruct H as [<-|H]; eauto.
    + destruct H as [<-|[]]; eauto.
  - destruct H as [<-|H]; eauto.
Qed.

Lemma match_all_sound re text m :
  In m (Str.match_all re text) ->
  exists pv s, matches (ignore_case re) (Str.compile re) pv m s.
Proof. apply match_from_sound. Qed.

(** *** Matches are parts of the subject *)

Lemma search_from_suffix ci r pv t ps pe :
  search_from ci r pv t = Some (ps, pe) -> exists pre, t = pre ++ rest ps.
Proof.
  revert pv. induction t as [|c t IH]; intros pv H; simpl in H.
  - destruct (match_at ci r (Pos pv [])); [|discriminate]. inversion H; subst. now exists [].
  - destruct (match_at ci r (Pos pv (c :: t))).
    + inversion H; subst. now exists [].
    + apply IH in H. destruct H as [pre ->]. now exists (c :: pre).
Qed.

Lemma match_from_part ci r fuel p m :
  In m (Str.match_from fuel ci r p) -> exists pre post, rest p = pre ++ m ++ post.
Proof.
  revert p. induction fuel as [|fuel IH]; intros p H; simpl in H; [contradiction|].
  destruct (search ci r p) as [[ps pe]|] eqn:E; [|contradiction].
  unfold search in E. pose proof (search_from_suffix _ _ _ _ E) as [pre Hpre].
  apply search_from_sound in E. destruct E as (w & Hps & _ & _ & _).
  assert (Hb : between ps pe = w).
  { unfold between. rewrite Hps. apply firstn_consumed. }
  rewrite Hb in H.
  assert (Hhere : exists pre0 post0, rest p = pre0 ++ w ++ post0).
  { exists pre, (rest pe). now rewrite Hpre, Hps. }
  assert (Hlater : forall p', (exists x, rest pe = x ++ rest p') ->
            In m (Str.match_from fuel ci r p') -> exists pre0 post0, rest p = pre0 ++ m ++ post0).
  { intros p' [x Hx] Hin. apply IH in Hin. destruct Hin as (a & b & Hab).
    exists (pre ++ w ++ x ++ a), b. rewrite Hpre, Hps, Hx, Hab.
    now rewrite <- !app_assoc. }
  destruct (List.length (rest pe) =? List.length (rest ps)).
  - destruct (advance pe) as [[c p']|] eqn:Ea.
    + destruct H as [<-|H]; [exact Hhere|].
      apply (Hlater p'); [|exact H]. unfold advance in Ea.
      destruct (rest pe) as [|c0 s0]; [discriminate|]. inversion Ea; subst. now exists [c].
    + destruct H as [<-|[]]. exact Hhere.
  - destruct H as [<-|H]; [exact Hhere|]. apply (Hlater pe); [now exists []|exact H].
Qed.

Lemma match_all_part re text m :
  In m (Str.match_all re text) -> exists pre post, text = pre ++ m ++ post.
Proof. intros H. apply match_from_part in H. exact H. Qed.

End MatchFacts.


(** * Records and the matches they come from *)

Module RecordFacts.
Import Lang LangFacts StrFacts ScanFacts Analysis MatchFacts.

Lemma no_space_existsb t : forallb not_space t = true -> existsb is_space t = false.
Proof.
  intros H. destruct (existsb is_space t) eqn:E; [|reflexivity].
  apply existsb_exists in E. destruct E as (c & Hc & Hs).
  rewrite forallb_forall in H. specialize (H c Hc). unfold not_space in H.
  rewrite Hs in H. discriminate.
Qed.

Lemma trim_start_spaceless t : existsb is_space t = false -> Str.trim_start t = t.
Proof.
  destruct t as [|c t]; simpl; [reflexivity|]. intros H.
  apply orb_false_iff in H. destruct H as [-> _]. reflexivity.
Qed.

Lemma existsb_rev_space t : existsb is_space (rev t) = existsb is_space t.
Proof.
  destruct (existsb is_space t) eqn:E.
  - apply existsb_exists in E. destruct E as (c & Hc & HPc).
    apply existsb_exists. exists c. split; [now apply in_rev in Hc|exact HPc].
  - destruct (existsb is_space (rev t)) eqn:E'; [|reflexivity].
    apply existsb_exists in E'. destruct E' as (c & Hc & HPc).
    apply in_rev in Hc. assert (existsb is_space t = true) by (apply existsb_exists; eauto).
    congruence.
Qed.

Lemma trim_spaceless t : forallb not_space t = true -> Str.trim t = t.
Proof.
  intros H. apply no_space_existsb in H. unfold Str.trim.
  rewrite (@trim_start_spaceless t H).
  rewrite trim_start_spaceless by now rewrite existsb_rev_space.
  apply rev_involutive.
Qed.

(** No pattern of the registry consumes white space. *)
Lemma patterns_spaceless t :
  all_in (ignore_case (IOC_PATTERNS t)) not_space (Str.compile (IOC_PATTERNS t)) = true.
Proof. destruct t; vm_compute; reflexivity. Qed.

Lemma match_spaceless t text m :
  In m (Str.match_all (IOC_PATTERNS t) text) -> forallb not_space m = true.
Proof.
  intros H. apply match_all_sound in H. destruct H as (pv & s & H).
  eapply all_in_sound; [apply patterns_spaceless | exact H].
Qed.

Section Records.
Variable stamp : nat -> list ascii.

(** The as-found text of a record is a match of the record's pattern,
    longer than two code units. *)
Definition found_as_matched (text : list ascii) (r : ioc) : Prop :=
  In (as_found r) (Str.match_all (IOC_PATTERNS (type r)) text)
  /\ 2 < List.length (as_found r)
  /\ value r = final_value (type r) (as_found r).

Lemma found_as_matched_scan text r :
  In r (detectedIOCs (scan stamp text)) -> found_as_matched text r.
Proof.
  revert r.
  apply (@scan_invariant stamp text
           (fun st => forall r, In r (detectedIOCs st) -> found_as_matched text r)).
  - intros t st m st' Hm Hst Heff. destruct Heff as [|Hlen Hf1 Hf2 _]; [exact Hst|].
    intros r Hr. unfold push in Hr. cbn [detectedIOCs] in Hr.
    apply in_app_iff in Hr. destruct Hr as [Hr|[E|[]]]; [now apply Hst|].
    subst r. unfold found_as_matched, as_found. cbn [type value originalValue].
    pose proof (@match_spaceless t text m Hm) as Hsp.
    rewrite (@trim_spaceless m Hsp) in *.
    assert (Has : (match (if is_defanged t then Some m else None) with
                   | Some o => o | None => final_value t m end) = m).
    { destruct (is_defanged t) eqn:Ed; [reflexivity|].
      unfold final_value. destruct t; try discriminate Ed; reflexivity. }
    rewrite Has. auto.
  - intros r [].
Qed.

End Records.

(** *** Hash records *)

Definition hex_class : regex :=
  RClass false [CRange "a" "f"; CRange "A" "F"; CRange "0" "9"].

Definition hash_re (n : nat) : regex :=
  RSeq RWordB (RSeq (RRep hex_class n (Some n)) RWordB).

(** The pattern that [validateIOC] builds for a hash type. *)
Definition anchored_hash_re (n : nat) : regex :=
  RSeq RBol (RSeq RWordB (RSeq (RRep hex_class n (Some n)) (RSeq RWordB REol))).

Lemma hash_shape t :
  is_hash t = true -> Str.compile (IOC_PATTERNS t) = hash_re (hash_length t).
Proof. destruct t; intros H; try discriminate H; reflexivity. Qed.

Lemma validateIOC_hash t v :
  is_hash t = true ->
  validateIOC v (IOC_TYPES t) = Returns (Str.test false (anchored_hash_re (hash_length t)) v).
Proof.
  intros H. unfold validateIOC.
  destruct t; try discriminate H.
  - replace (get_pattern (IOC_TYPES MD5)) with (Own (IOC_PATTERNS MD5))
      by (vm_compute; reflexivity).
    replace (Syntax.parse (str "^" ++ strip_flag_letters (source (IOC_PATTERNS MD5)) ++ str "$"))
      with (Some (anchored_hash_re (hash_length MD5))) by (vm_compute; reflexivity).
    reflexivity.
  - replace (get_pattern (IOC_TYPES SHA1)) with (Own (IOC_PATTERNS SHA1))
      by (vm_compute; reflexivity).
    replace (Syntax.parse (str "^" ++ strip_flag_letters (source (IOC_PATTERNS SHA1)) ++ str "$"))
      with (Some (anchored_hash_re (hash_length SHA1))) by (vm_compute; reflexivity).
    reflexivity.
  - replace (get_pattern (IOC_TYPES SHA256)) with (Own (IOC_PATTERNS SHA256))
      by (vm_compute; reflexivity).
    replace (Syntax.parse (str "^" ++ strip_flag_letters (source (IOC_PATTERNS SHA256)) ++ str "$"))
      with (Some (anchored_hash_re (hash_length SHA256))) by (vm_compute; reflexivity).
    reflexivity.
  - replace (get_pattern (IOC_TYPES SHA512)) with (Own (IOC_PATTERNS SHA512))
      by (vm_compute; reflexivity).
    replace (Syntax.parse (str "^" ++ strip_flag_letters (source (IOC_PATTERNS SHA512)) ++ str "$"))
      with (Some (anchored_hash_re (hash_length SHA512))) by (vm_compute; reflexivity).
    reflexivity.
Qed.

Lemma hex_is_word c : is_hex c = true -> is_word c = true.
Proof.
  intros H.
  assert (Hall : forallb (fun c => implb (is_hex c) (is_word c)) all_ascii = true)
    by (vm_compute; reflexivity).
  rewrite forallb_forall in Hall. specialize (Hall c (in_all_ascii c)).
  rewrite H in Hall. exact Hall.
Qed.

Lemma lastp_forallb (P : ascii -> bool) pv w :
  w <> [] -> forallb P w = true -> exists d, lastp pv w = Some d /\ P d = true.
Proof.
  revert pv. induction w as [|c w IH]; intros pv Hne Hd; [congruence|].
  simpl in Hd. apply andb_true_iff in Hd. destruct Hd as [Hc Hd].
  destruct w as [|c' w'].
  - exists c. auto.
  - simpl. apply (IH (Some c)); [discriminate|exact Hd].
Qed.

(** What a match of a hash pattern is: [n] hexadecimal digits. *)
Lemma hash_match n pv m s :
  0 < n -> matches false (hash_re n) pv m s ->
  List.length m = n /\ forallb is_hex m = true
  /\ matches false (RRep hex_class n (Some n)) None m [].
Proof.
  intros Hn H.
  assert (Hmin : min_len (hash_re n) = n).
  { cbn [min_len hash_re hex_class least_iter]. rewrite Nat.min_id. lia. }
  assert (Hmax : max_len (hash_re n) = Some n).
  { cbn [max_len hash_re hex_class]. f_equal. lia. }
  pose proof (@min_len_sound false (hash_re n) pv m s H) as H1. rewrite Hmin in H1.
  pose proof (@max_len_sound false (hash_re n) n pv m s Hmax H) as H2.
  split; [lia|]. split.
  - eapply all_in_sound; [|exact H]. vm_compute. reflexivity.
  - cbn [matches hash_re] in H.
    destruct H as (w1 & w2 & -> & [-> _] & (w3 & w4 & -> & H3 & [-> _])).
    cbn [app]. rewrite app_nil_r.
    eapply ctx_free_indep; [reflexivity | exact H3].
Qed.

(** A text of [n] hexadecimal digits passes the pattern that
    [validateIOC] builds. *)
Lemma anchored_hash_test n m :
  m <> [] -> forallb is_hex m = true ->
  matches false (RRep hex_class n (Some n)) None m [] ->
  Str.test false (anchored_hash_re n) m = true.
Proof.
  intros Hne Hhex HM.
  assert (Hall : matches false (anchored_hash_re n) None m []).
  { cbn [matches anchored_hash_re].
    exists [], m. split; [reflexivity|]. split; [split; reflexivity|].
    exists [], m. split; [reflexivity|]. split.
    - split; [reflexivity|]. cbn [lastp app]. rewrite app_nil_r.
      destruct m as [|c m]; [congruence|]. simpl in Hhex.
      apply andb_true_iff in Hhex. destruct Hhex as [Hc _].
      unfold at_boundary, word_before, word_after. cbn [prev rest].
      now rewrite (@hex_is_word c Hc).
    - exists m, []. split; [now rewrite app_nil_r|]. split; [exact HM|].
      exists [], []. split; [reflexivity|]. split; [|split; reflexivity].
      split; [reflexivity|].
      destruct (@lastp_forallb is_hex None m Hne Hhex) as (d & Hd & Hdh).
      cbn [lastp app]. rewrite Hd.
      unfold at_boundary, word_before, word_after. cbn [prev rest].
      now rewrite (@hex_is_word d Hdh). }
  destruct (@run_complete false (anchored_hash_re n) (fun q => Some q) None m []
              (after None m []) Hall eq_refl) as [y Hy].
  rewrite app_nil_r in Hy.
  unfold Str.test, search, start_pos. cbn [prev rest].
  destruct m as [|c m]; [congruence|]. cbn [search_from]. unfold match_at. now rewrite Hy.
Qed.

(** *** URL records *)

Definition url_scheme : regex :=
  RAlt (RSeq (RChar "h") (RSeq (RChar "t") (RSeq (RChar "t") (RSeq (RChar "p")
                (RRep (RChar "s") 0 (Some 1))))))
       (RSeq (RChar "f") (RSeq (RChar "t") (RChar "p"))).

Lemma url_shape :
  exists tail_, Str.compile (IOC_PATTERNS URL) =
    RSeq RWordB (RSeq url_scheme (RSeq (RChar ":") (RSeq (RChar "/") (RSeq (RChar "/") tail_)))).
Proof. eexists. reflexivity. Qed.

Lemma char_matches a w : (exists c, w = [c] /\ char_eq false a c = true) -> w = [a].
Proof.
  intros (c & -> & H). unfold char_eq in H. apply Ascii.eqb_eq in H. now subst.
Qed.

Lemma optional_char_matches a pv w s :
  matches false (RRep (RChar a) 0 (Some 1)) pv w s -> w = [] \/ w = [a].
Proof.
  cbn [matches]. intros H.
  inversion H as [? ? ? ? _ | mn mx pv0 w1 w2 s0 _ H1 _ H2]; subst; [now left|].
  apply char_matches in H1. subst. right.
  inversion H2 as [? ? ? ? _ | mn mx pv0 w3 w4 s0 Hmx _ _ _]; subst; [reflexivity|].
  simpl in Hmx. discriminate Hmx.
Qed.

Lemma url_scheme_matches pv w s :
  matches false url_scheme pv w s -> w = str "http" \/ w = str "https" \/ w = str "ftp".
Proof.
  unfold url_scheme. cbn [matches].
  intros [(w1 & w2 & -> & H1 & w3 & w4 & -> & H3 & w5 & w6 & -> & H5 & w7 & w8 & -> & H7 & H8)
         |(w1 & w2 & -> & H1 & w3 & w4 & -> & H3 & H4)].
  - apply char_matches in H1, H3, H5, H7. subst.
    change (Iter (matches false (RChar "s")) 0 (Some 1)
              (lastp (lastp (lastp (lastp pv ["h"%char]) ["t"%char]) ["t"%char]) ["p"%char]) w8 s)
      with (matches false (RRep (RChar "s") 0 (Some 1))
              (lastp (lastp (lastp (lastp pv ["h"%char]) ["t"%char]) ["t"%char]) ["p"%char]) w8 s)
      in H8.
    apply optional_char_matches in H8. destruct H8 as [-> | ->]; auto.
  - apply char_matches in H1, H3. apply char_matches in H4. subst. auto.
Qed.

Lemma url_match_scheme pv m s :
  matches false (Str.compile (IOC_PATTERNS URL)) pv m s -> has_scheme m = true.
Proof.
  destruct url_shape as [tail_ ->]. cbn [matches].
  intros (w1 & w2 & -> & [-> _] & w3 & w4 & -> & Hs & w5 & w6 & -> & H5
          & w7 & w8 & -> & H7 & w9 & w10 & -> & H9 & _).
  apply char_matches in H5, H7, H9. subst.
  apply url_scheme_matches in Hs. unfold has_scheme.
  destruct Hs as [-> | [-> | ->]]; cbn [app str list_ascii_of_string Str.starts_with];
    rewrite ?Ascii.eqb_refl; cbn [andb orb]; destruct w10; reflexivity.
Qed.

End RecordFacts.


(** * Order of the output and the clock *)

Module OrderFacts.
Import StrFacts ScanFacts Analysis.

Definition rank_of (r : ioc) : nat := rank (type r).

(** The records are sorted by rank and none ranks above [b]. *)
Definition sorted_up_to (b : nat) (st : scan_state) : Prop :=
  StronglySorted le (map rank_of (detectedIOCs st))
  /\ Forall (fun r => rank_of r <= b) (detectedIOCs st).

Lemma sorted_snoc (l : list nat) x :
  StronglySorted le l -> Forall (fun y => y <= x) l -> StronglySorted le (l ++ [x]).
Proof.
  induction 1 as [|a l Hs IH Ha]; intros Hall; simpl.
  - repeat constructor.
  - inversion Hall; subst. constructor; [now apply IH|].
    apply Forall_app. split; [exact Ha | now repeat constructor].
Qed.

Section Order.
Variable stamp : nat -> list ascii.

Lemma sorted_effect t st m st' :
  sorted_up_to (rank t) st -> match_effect stamp t st m st' -> sorted_up_to (rank t) st'.
Proof.
  intros [Hs Hb] Heff. destruct Heff as [|_ _ _ _]; [split; assumption|].
  unfold push, sorted_up_to. cbn [detectedIOCs]. split.
  - rewrite map_app. cbn [map]. apply sorted_snoc; [exact Hs|].
    apply Forall_map. unfold rank_of at 2. cbn [type]. exact Hb.
  - apply Forall_app. split; [exact Hb|]. repeat constructor.
Qed.

Lemma sorted_matches t ms st :
  sorted_up_to (rank t) st -> sorted_up_to (rank t) (fold_left (on_match stamp t) ms st).
Proof.
  revert st. induction ms as [|m ms IH]; intros st H; simpl; [exact H|].
  apply IH. eapply sorted_effect; [exact H | apply on_match_effect].
Qed.

Lemma sorted_weaken b b' st : b <= b' -> sorted_up_to b st -> sorted_up_to b' st.
Proof.
  intros Hb [Hs Hf]. split; [exact Hs|].
  eapply Forall_impl; [|exact Hf]. simpl. intros. lia.
Qed.

Lemma sorted_types text ts b st :
  StronglySorted le (b :: map rank ts) -> sorted_up_to b st ->
  exists b', sorted_up_to b' (fold_left (on_type stamp text) ts st).
Proof.
  revert b st. induction ts as [|t ts IH]; intros b st Hts H; simpl.
  - eauto.
  - inversion Hts as [|? ? Hs Hall]; subst. cbn [map] in *.
    inversion Hall; subst.
    apply (IH (rank t)); [exact Hs|].
    unfold on_type. apply sorted_matches. eapply sorted_weaken; eauto.
Qed.

End Order.

(** *** Two runs with different clocks *)

Definition same_view (st1 st2 : scan_state) : Prop :=
  foundValues st1 = foundValues st2
  /\ map view (detectedIOCs st1) = map view (detectedIOCs st2).

Section Clock.
Variables stamp1 stamp2 : nat -> list ascii.

Lemma same_view_match t m st1 st2 :
  same_view st1 st2 -> same_view (on_match stamp1 t st1 m) (on_match stamp2 t st2 m).
Proof.
  intros [Hf Hv]. unfold on_match. cbv zeta. rewrite <- Hf.
  destruct (_ && negb (has (foundValues st1) (Str.trim m))); [|split; assumption].
  destruct (negb _); [|split; assumption].
  destruct (ioc_type_eqb t URL && _); [split; assumption|].
  destruct (is_ip t && _); [split; assumption|].
  destruct (negb (has (foundValues st1) _) && _); [|split; assumption].
  split; cbn [foundValues detectedIOCs]; [reflexivity|].
  rewrite !map_app, Hv. reflexivity.
Qed.

Lemma same_view_matches t ms st1 st2 :
  same_view st1 st2 ->
  same_view (fold_left (on_match stamp1 t) ms st1) (fold_left (on_match stamp2 t) ms st2).
Proof.
  revert st1 st2. induction ms as [|m ms IH]; intros st1 st2 H; simpl; [exact H|].
  apply IH. now apply same_view_match.
Qed.

Lemma same_view_types text ts st1 st2 :
  same_view st1 st2 ->
  same_view (fold_left (on_type stamp1 text) ts st1) (fold_left (on_type stamp2 text) ts st2).
Proof.
  revert st1 st2. induction ts as [|t ts IH]; intros st1 st2 H; simpl; [exact H|].
  apply IH. unfold on_type. now apply same_view_matches.
Qed.

End Clock.

End OrderFacts.


(** * The background worker *)

Module BackgroundFacts.
Import Background.

Lemma index_of_split c s i :
  index_of c s = Some i ->
  exists pre post, s = pre ++ c :: post /\ List.length pre = i
                   /\ existsb (fun x => Ascii.eqb x c) pre = false.
Proof.
  revert i. induction s as [|x s IH]; intros i H; simpl in H; [discriminate|].
  destruct (Ascii.eqb x c) eqn:E.
  - inversion H; subst. apply Ascii.eqb_eq in E. subst. exists [], s. auto.
  - destruct (index_of c s) as [j|]; [|discriminate]. inversion H; subst.
    destruct (IH j eq_refl) as (pre & post & -> & Hl & Hn).
    exists (x :: pre), post. simpl. rewrite E, Hn, Hl. auto.
Qed.

Lemma index_of_none c s :
  index_of c s = None -> existsb (fun x => Ascii.eqb x c) s = false.
Proof.
  induction s as [|x s IH]; simpl; [reflexivity|].
  destruct (Ascii.eqb x c); [discriminate|].
  destruct (index_of c s); [discriminate|]. auto.
Qed.

Lemma skipn_after_prefix (pre t : list ascii) : skipn (List.length pre) (pre ++ t) = t.
Proof. induction pre; simpl; auto. Qed.

(** Where the loop stops, and on what. *)
Lemma find_end_spec s i a b n e :
  find_end s i a b n = Some e ->
  exists w post, s = w ++ "}"%char :: post /\ e = i + S (List.length w)
                 /\ find_end (w ++ ["}"%char]) i a b n = Some e.
Proof.
  revert i a b n. induction s as [|c s IH]; intros i a b n H; [discriminate|].
  cbn [find_end] in H.
  assert (Hrec : forall a' b' n',
            find_end s (S i) a' b' n' = Some e ->
            find_end (c :: s) i a b n = find_end s (S i) a' b' n' ->
            (forall t, find_end (c :: t) i a b n = find_end t (S i) a' b' n') ->
            exists w post, c :: s = w ++ "}"%char :: post /\ e = i + S (List.length w)
                           /\ find_end (w ++ ["}"%char]) i a b n = Some e).
  { intros a' b' n' H' _ Hstep. apply IH in H'. destruct H' as (w & post & -> & -> & Hw).
    exists (c :: w), post. split; [reflexivity|]. split; [simpl; lia|].
    cbn [app]. rewrite Hstep. exact Hw. }
  destruct b.
  - eapply Hrec; [exact H | reflexivity | reflexivity].
  - destruct (Ascii.eqb c "\") eqn:E1.
    + eapply Hrec; [exact H | cbn [find_end]; now rewrite E1 | intros; cbn [find_end]; now rewrite E1].
    + destruct (Ascii.eqb c "034") eqn:E2.
      * eapply Hrec; [exact H | cbn [find_end]; now rewrite E1, E2
                      | intros; cbn [find_end]; now rewrite E1, E2].
      * destruct (negb a) eqn:Ea.
        -- destruct (Ascii.eqb c "{") eqn:E3.
           ++ eapply Hrec; [exact H | cbn [find_end]; now rewrite E1, E2, Ea, E3
                            | intros; cbn [find_end]; now rewrite E1, E2, Ea, E3].
           ++ destruct (Ascii.eqb c "}") eqn:E4.
              ** destruct (n - 1 =? 0)%Z eqn:E5.
                 --- inversion H; subst. apply Ascii.eqb_eq in E4. subst c.
                     exists [], s. split; [reflexivity|]. split; [simpl; lia|].
                     cbn [app find_end]. rewrite E1, E2, Ea, E3, E5. reflexivity.
                 --- eapply Hrec; [exact H | cbn [find_end]; now rewrite E1, E2, Ea, E3, E4, E5
                                   | intros; cbn [find_end]; now rewrite E1, E2, Ea, E3, E4, E5].
              ** eapply Hrec; [exact H | cbn [find_end]; now rewrite E1, E2, Ea, E3, E4
                               | intros; cbn [find_end]; now rewrite E1, E2, Ea, E3, E4].
        -- eapply Hrec; [exact H | cbn [find_end]; now rewrite E1, E2, Ea
                         | intros; cbn [find_end]; now rewrite E1, E2, Ea].
Qed.

Lemma starts_with_nil (s : list ascii) : Str.starts_with s [] = true.
Proof. now destruct s. Qed.

Lemma index_of_head c s : index_of c (c :: s) = Some 0.
Proof. simpl. now rewrite Ascii.eqb_refl. Qed.

(** The text from its first brace on. *)
Definition from_brace (s : list ascii) : list ascii :=
  match index_of "{" s with
  | Some i => skipn i s
  | None => s
  end.

Lemma brace_search_from_brace s :
  brace_search s =
  match index_of "{" s with
  | None => s
  | Some _ =>
      match find_end (from_brace s) 0 false false 0%Z with
      | Some e => firstn e (from_brace s)
      | None => from_brace s
      end
  end.
Proof.
  unfold brace_search, from_brace.
  destruct (index_of "{" s) as [i|] eqn:Ei.
  - destruct (index_of_split _ _ Ei) as (pre & post & -> & Hl & Hn).
    rewrite <- Hl, skipn_after_prefix.
    assert (Hd : (if Str.starts_with (pre ++ "{"%char :: post) (str "{")
                  then pre ++ "{"%char :: post else "{"%char :: post) = "{"%char :: post).
    { destruct pre as [|x pre]; [now destruct (Str.starts_with _ _)|].
      simpl in Hn. apply orb_false_iff in Hn. destruct Hn as [Hx _].
      cbn [app Str.starts_with str list_ascii_of_string].
      rewrite Ascii.eqb_sym, Hx. reflexivity. }
    rewrite Hd, index_of_head. cbn [skipn].
    destruct (find_end ("{"%char :: post) 0 false false 0%Z) as [e|] eqn:Ee; [|reflexivity].
    apply find_end_spec in Ee. destruct Ee as (w & rest & _ & -> & _).
    cbn [Nat.add Nat.ltb Nat.leb]. unfold substring. rewrite Nat.sub_0_r. reflexivity.
  - assert (Hs : Str.starts_with s (str "{") = false).
    { destruct s as [|x s]; [reflexivity|]. simpl in Ei.
      cbn [Str.starts_with str list_ascii_of_string].
      rewrite Ascii.eqb_sym. destruct (Ascii.eqb x "{"); [discriminate|reflexivity]. }
    rewrite Hs, Ei. reflexivity.
Qed.

End BackgroundFacts.


(** * Escaping a search value *)

Module EscapeFacts.
Import Lang LangFacts StrFacts MatchFacts Highlighter.

(** The parser of one alternative, named: [pd] parses the groups. *)
Section Alternative.
Variable pd : list ascii -> option (regex * list ascii).

Fixpoint alt_of (g : nat) (s : list ascii) {struct g} : option (regex * list ascii) :=
  match g with
  | 0 => None
  | S g' =>
      let continue (res : option (regex * list ascii)) :=
        match res with
        | Some (r, s1) =>
            match alt_of g' s1 with
            | Some (r2, s2) => Some (Syntax.mk_seq r r2, s2)
            | None => None
            end
        | None => None
        end in
      let quantified (res : option (regex * list ascii)) :=
        match res with
        | Some (r, s1) => continue (Syntax.parse_quant r s1)
        | None => None
        end in
      match s with
      | [] => Some (REmpty, s)
      | "|"%char :: _ => Some (REmpty, s)
      | ")"%char :: _ => Some (REmpty, s)
      | "^"%char :: s' => continue (Some (RBol, s'))
      | "$"%char :: s' => continue (Some (REol, s'))
      | "\"%char :: "b"%char :: s' => continue (Some (RWordB, s'))
      | "\"%char :: "s"%char :: s' => quantified (Some (RClass false [CSpace], s'))
      | "\"%char :: "w"%char :: s' => quantified (Some (RClass false [CWord], s'))
      | "\"%char :: "d"%char :: s' => quantified (Some (RClass false [CRange "0" "9"], s'))
      | "\"%char :: c :: s' =>
          if Syntax.is_alnum c then None else quantified (Some (RChar c, s'))
      | "\"%char :: [] => None
      | "("%char :: "?"%char :: ":"%char :: s' =>
          match pd s' with
          | Some (r, ")"%char :: s1) => quantified (Some (r, s1))
          | _ => None
          end
      | "("%char :: "?"%char :: "!"%char :: s' =>
          match pd s' with
          | Some (r, ")"%char :: s1) => continue (Some (RNotAhead r, s1))
          | _ => None
          end
      | "("%char :: _ => None
      | "["%char :: s' => quantified (Syntax.parse_class s')
      | "*"%char :: _ => None
      | "+"%char :: _ => None
      | "?"%char :: _ => None
      | "{"%char :: _ => None
      | "."%char :: _ => None
      | c :: s' => quantified (Some (RChar c, s'))
      end
  end.

End Alternative.

Lemma parse_disj_unfold fuel s :
  Syntax.parse_disj (S fuel) s =
  match alt_of (Syntax.parse_disj fuel) (S (List.length s)) s with
  | Some (r, "|"%char :: s1) =>
      match Syntax.parse_disj fuel s1 with
      | Some (r2, s2) => Some (RAlt r r2, s2)
      | None => None
      end
  | res => res
  end.
Proof. reflexivity. Qed.

(** The characters that [escapeRegex] escapes. *)
Definition special (c : ascii) : bool :=
  existsb (Ascii.eqb c) (str ".*+?^${}()|[]\").

Definition esc (c : ascii) : list ascii :=
  if special c then ["\"%char; c] else [c].

(** The pattern that spells a text, as the parser builds it. *)
Fixpoint literal (s : list ascii) : regex :=
  match s with
  | [] => REmpty
  | c :: s' => Syntax.mk_seq (RChar c) (literal s')
  end.

Lemma compile_special :
  exists items,
    Str.compile (RegExp special_src false) = RClass false items
    /\ forall c, class_mem false false items c = special c.
Proof.
  eexists. split; [reflexivity|].
  intros c. destruct c as [[] [] [] [] [] [] [] []]; reflexivity.
Qed.

(** *** Replacing, one code unit at a time *)

Lemma between_same p : between p p = [].
Proof. unfold between. now rewrite Nat.sub_diag. Qed.

Lemma skip_unmatched ci r g fuel pv c t :
  match_at ci r (Pos pv (c :: t)) = None ->
  replace_with_from (S fuel) ci r g (Pos pv (c :: t))
  = c :: replace_with_from (S fuel) ci r g (Pos (Some c) t).
Proof.
  intros H. cbn [replace_with_from]. unfold search. cbn [prev rest search_from]. rewrite H.
  destruct (search_from ci r (Some c) t) as [[ps pe]|] eqn:E; [|reflexivity].
  pose proof (search_from_sound _ _ _ _ E) as (w & _ & _ & _ & Hle).
  assert (Hb : between (Pos pv (c :: t)) ps = c :: between (Pos (Some c) t) ps).
  { unfold between. cbn [rest List.length].
    replace (S (List.length t) - List.length (rest ps))
      with (S (List.length t - List.length (rest ps))) by lia.
    reflexivity. }
  rewrite Hb. reflexivity.
Qed.

Lemma escape_from items t :
  (forall c, class_mem false false items c = special c) ->
  forall pv fuel, List.length t < fuel ->
    replace_with_from fuel false (RClass false items) (fun matched => str "\" ++ matched) (Pos pv t)
    = flat_map esc t.
Proof.
  intros Hitems. induction t as [|c t IH]; intros pv fuel Hfuel.
  - destruct fuel; reflexivity.
  - destruct fuel as [|fuel]; [simpl in Hfuel; lia|]. simpl in Hfuel.
    cbn [flat_map]. unfold esc at 1.
    assert (Hat : match_at false (RClass false items) (Pos pv (c :: t))
                  = if special c then Some (Pos (Some c) t) else None).
    { unfold match_at. cbn [run advance rest]. now rewrite Hitems. }
    destruct (special c) eqn:Es.
    + cbn [replace_with_from]. unfold search. cbn [prev rest search_from]. rewrite Hat.
      rewrite between_same. unfold between. cbn [rest List.length].
      replace (S (List.length t) - List.length t) with 1 by lia.
      replace (List.length t =? S (List.length t)) with false
        by (symmetry; apply Nat.eqb_neq; lia).
      cbn [firstn app str list_ascii_of_string]. f_equal. f_equal. apply IH. lia.
    + rewrite skip_unmatched by exact Hat. cbn [app]. f_equal. apply IH. lia.
Qed.

Lemma escapeRegex_flat_map s : escapeRegex s = flat_map esc s.
Proof.
  unfold escapeRegex, replace_all_with. cbn [ignore_case].
  destruct compile_special as (items & -> & Hitems).
  apply escape_from; [exact Hitems | lia].
Qed.

(** *** Reading the escaped text as a pattern *)

Lemma parse_quant_esc r s :
  Syntax.parse_quant r (flat_map esc s) = Some (r, flat_map esc s).
Proof.
  destruct s as [|c s]; [reflexivity|].
  destruct c as [[] [] [] [] [] [] [] []]; vm_compute; reflexivity.
Qed.

Lemma alt_of_esc pd s :
  forall g, List.length (flat_map esc s) < g ->
    alt_of pd g (flat_map esc s) = Some (literal s, []).
Proof.
  induction s as [|c s IH]; intros g Hg.
  - destruct g; [simpl in Hg; lia | reflexivity].
  - cbn [flat_map literal] in *. rewrite length_app in Hg.
    pose proof (parse_quant_esc (RChar c) s) as HQ.
    assert (Hrec : forall g', List.length (flat_map esc s) < g' ->
              alt_of pd g' (flat_map esc s) = Some (literal s, [])) by exact IH.
    clear IH. revert HQ Hrec Hg. generalize (flat_map esc s) as REST. generalize (literal s) as L.
    intros L REST HQ Hrec Hg.
    destruct g as [|g]; [lia|].
    destruct c as [[] [] [] [] [] [] [] []];
      cbn -[Syntax.parse_quant] in Hg |- *;
      rewrite HQ; rewrite Hrec by lia; reflexivity.
Qed.

Lemma parse_escaped s : Syntax.parse (flat_map esc s) = Some (literal s).
Proof.
  unfold Syntax.parse. rewrite parse_disj_unfold.
  rewrite alt_of_esc by lia. reflexivity.
Qed.

Lemma matches_mk_seq ci r1 r2 pv w t :
  matches ci (Syntax.mk_seq r1 r2) pv w t <-> matches ci (RSeq r1 r2) pv w t.
Proof.
  assert (Hl : forall r, matches ci r pv w t <-> matches ci (RSeq REmpty r) pv w t).
  { intros r. cbn [matches]. split.
    - intros H. exists [], w. auto.
    - intros (w1 & w2 & -> & -> & H). exact H. }
  assert (Hr : forall r, matches ci r pv w t <-> matches ci (RSeq r REmpty) pv w t).
  { intros r. cbn [matches]. split.
    - intros H. exists w, []. rewrite app_nil_r. auto.
    - intros (w1 & w2 & -> & H & ->). rewrite app_nil_r. exact H. }
  destruct r1; try apply Hl; destruct r2; try apply Hr; reflexivity.
Qed.

Lemma literal_matches s : forall pv w t, matches false (literal s) pv w t <-> w = s.
Proof.
  induction s as [|c s IH]; intros pv w t; cbn [literal].
  - reflexivity.
  - rewrite matches_mk_seq. cbn [matches]. split.
    + intros (w1 & w2 & -> & (a & -> & Ha) & H2). apply IH in H2. subst.
      unfold char_eq in Ha. apply Ascii.eqb_eq in Ha. now subst.
    + intros ->. exists [c], s. split; [reflexivity|]. split.
      * exists c. split; [reflexivity|]. unfold char_eq. apply Ascii.eqb_refl.
      * now apply IH.
Qed.

End EscapeFacts.


(** * Replacing a three-character marker *)

Module MarkerFacts.
Import Lang LangFacts StrFacts MatchFacts Highlighter EscapeFacts.

Lemma replace_from_constant fuel ci r by_ p :
  Str.replace_from fuel ci r by_ p = replace_with_from fuel ci r (fun _ => by_) p.
Proof.
  revert p. induction fuel as [|fuel IH]; intros p; simpl; [reflexivity|].
  destruct (search ci r p) as [[ps pe]|]; [|reflexivity].
  destruct (List.length (rest pe) =? List.length (rest ps)).
  - destruct (advance pe) as [[c p']|]; [now rewrite IH | reflexivity].
  - now rewrite IH.
Qed.

(** A text cut into words, which hold no opening character of the
    marker, and occurrences of the marker. *)
Inductive piece : Type :=
| Word (w : list ascii)
| Marker.

Section Marker.
Variables a b : ascii.
Variable by_ : list ascii.

(** The pattern of the marker [a . b]. *)
Definition marker_re : regex := RSeq (RChar a) (RSeq (RChar ".") (RChar b)).

Definition marker_text : list ascii := [a; "."%char; b].

Definition text_of (ps : list piece) : list ascii :=
  flat_map (fun p => match p with Word w => w | Marker => marker_text end) ps.

Definition replaced_of (ps : list piece) : list ascii :=
  flat_map (fun p => match p with Word w => w | Marker => by_ end) ps.

Definition clean (p : piece) : bool :=
  match p with
  | Word w => forallb (fun c => negb (Ascii.eqb a c)) w
  | Marker => true
  end.

Definition markers (ps : list piece) : nat :=
  List.length (filter (fun p => match p with Marker => true | Word _ => false end) ps).

Lemma marker_miss pv c t :
  Ascii.eqb a c = false -> match_at false marker_re (Pos pv (c :: t)) = None.
Proof. intros H. unfold match_at, marker_re. cbn [run advance rest char_eq]. now rewrite H. Qed.

Lemma marker_hit pv t :
  match_at false marker_re (Pos pv (marker_text ++ t)) = Some (Pos (Some b) t).
Proof.
  unfold match_at, marker_re, marker_text. cbn [run advance rest char_eq app].
  now rewrite !Ascii.eqb_refl.
Qed.

Lemma skip_word fuel w pv t :
  forallb (fun c => negb (Ascii.eqb a c)) w = true ->
  replace_with_from (S fuel) false marker_re (fun _ => by_) (Pos pv (w ++ t))
  = w ++ replace_with_from (S fuel) false marker_re (fun _ => by_) (Pos (lastp pv w) t).
Proof.
  revert pv. induction w as [|c w IH]; intros pv Hw; [reflexivity|].
  simpl in Hw. apply andb_true_iff in Hw. destruct Hw as [Hc Hw].
  apply negb_true_iff in Hc. cbn [app].
  rewrite skip_unmatched by now apply marker_miss.
  rewrite IH by exact Hw. reflexivity.
Qed.

Lemma replace_marker fuel pv t :
  replace_with_from (S fuel) false marker_re (fun _ => by_) (Pos pv (marker_text ++ t))
  = by_ ++ replace_with_from fuel false marker_re (fun _ => by_) (Pos (Some b) t).
Proof.
  cbn [replace_with_from]. unfold search. cbn [prev rest].
  assert (Hs : search_from false marker_re pv (marker_text ++ t)
               = Some (Pos pv (marker_text ++ t), Pos (Some b) t)).
  { unfold marker_text. cbn [app search_from]. fold marker_text.
    change (a :: "."%char :: b :: t) with (marker_text ++ t). now rewrite marker_hit. }
  rewrite Hs. rewrite between_same. cbn [rest app].
  replace (List.length t =? List.length (marker_text ++ t)) with false
    by (symmetry; apply Nat.eqb_neq; unfold marker_text; simpl; lia).
  reflexivity.
Qed.

Lemma replace_end fuel pv :
  replace_with_from fuel false marker_re (fun _ => by_) (Pos pv []) = [].
Proof. destruct fuel; reflexivity. Qed.

(** Replacing the marker throughout a text given by its pieces. *)
Lemma replace_pieces ps :
  forallb clean ps = true ->
  forall fuel pv, markers ps < fuel ->
    replace_with_from fuel false marker_re (fun _ => by_) (Pos pv (text_of ps))
    = replaced_of ps.
Proof.
  induction ps as [|p ps IH]; intros Hc fuel pv Hf.
  - apply replace_end.
  - simpl in Hc. apply andb_true_iff in Hc. destruct Hc as [Hp Hc].
    destruct fuel as [|fuel]; [lia|].
    unfold text_of, replaced_of. cbn [flat_map]. fold (text_of ps). fold (replaced_of ps).
    destruct p as [w|].
    + rewrite skip_word by exact Hp. f_equal. apply IH; [exact Hc|].
      unfold markers in *. simpl in Hf. exact Hf.
    + rewrite replace_marker. f_equal. apply IH; [exact Hc|].
      unfold markers in *. simpl in Hf. lia.
Qed.

End Marker.

End MarkerFacts.


(** * De-fanged dotted quads *)

Module DefangedQuad.
Import Lang LangFacts StrFacts NormFacts MatchFacts Highlighter EscapeFacts MarkerFacts
       Quad QuadRun QuadScan Analysis.

Section Pass.
Variables a b : ascii.
Variable re : regexp.
Hypothesis Hci : ignore_case re = false.
Hypothesis Hre : Str.compile re = marker_re a b.
Hypothesis Ha : is_digit a = false.

(** What one pass makes of a separator. *)
Definition pass (sp : list ascii) : list ascii :=
  if list_eqb sp (marker_text a b) then dot else sp.

Definition sep_piece (sp : list ascii) : piece :=
  if list_eqb sp (marker_text a b) then Marker else Word sp.

Definition passable (sp : list ascii) : Prop :=
  sp = marker_text a b \/ forallb (fun c => negb (Ascii.eqb a c)) sp = true.

Lemma octet_clean o : is_octet o = true -> forallb (fun c => negb (Ascii.eqb a c)) o = true.
Proof.
  intros H. apply octet_digits in H. rewrite forallb_forall in *. intros c Hc.
  specialize (H c Hc). apply negb_true_iff. destruct (Ascii.eqb a c) eqn:E; [|reflexivity].
  apply Ascii.eqb_eq in E. subst. congruence.
Qed.

Lemma sep_piece_text sp :
  text_of a b [sep_piece sp] = sp /\ replaced_of dot [sep_piece sp] = pass sp.
Proof.
  unfold sep_piece, pass, text_of, replaced_of.
  destruct (list_eqb sp (marker_text a b)) eqn:E; cbn [flat_map]; rewrite ?app_nil_r; auto.
  apply list_eqb_eq in E. now subst.
Qed.

Lemma sep_piece_clean sp : passable sp -> clean a (sep_piece sp) = true.
Proof.
  intros [-> | H]; unfold sep_piece.
  - now rewrite (proj2 (list_eqb_eq _ _) eq_refl).
  - destruct (list_eqb sp (marker_text a b)); [reflexivity | exact H].
Qed.

Lemma pass_quad o1 s1 o2 s2 o3 s3 o4 :
  is_octet o1 = true -> is_octet o2 = true -> is_octet o3 = true -> is_octet o4 = true ->
  passable s1 -> passable s2 -> passable s3 ->
  Str.replace_all re dot (marked_quad o1 s1 o2 s2 o3 s3 o4)
  = marked_quad o1 (pass s1) o2 (pass s2) o3 (pass s3) o4.
Proof.
  intros H1 H2 H3 H4 P1 P2 P3. unfold Str.replace_all. rewrite Hci, Hre.
  rewrite replace_from_constant.
  set (ps := [Word o1; sep_piece s1; Word o2; sep_piece s2; Word o3; sep_piece s3; Word o4]).
  assert (Ht : marked_quad o1 s1 o2 s2 o3 s3 o4 = text_of a b ps).
  { unfold ps, marked_quad, text_of. cbn [flat_map].
    fold (text_of a b [sep_piece s1]). fold (text_of a b [sep_piece s2]).
    fold (text_of a b [sep_piece s3]).
    unfold sep_piece.
    destruct (list_eqb s1 (marker_text a b)) eqn:E1;
      destruct (list_eqb s2 (marker_text a b)) eqn:E2;
      destruct (list_eqb s3 (marker_text a b)) eqn:E3;
      try (apply list_eqb_eq in E1; subst s1);
      try (apply list_eqb_eq in E2; subst s2);
      try (apply list_eqb_eq in E3; subst s3);
      now rewrite ?app_nil_r. }
  assert (Hr : marked_quad o1 (pass s1) o2 (pass s2) o3 (pass s3) o4 = replaced_of dot ps).
  { unfold ps, marked_quad, replaced_of, pass, sep_piece. cbn [flat_map].
    destruct (list_eqb s1 (marker_text a b));
      destruct (list_eqb s2 (marker_text a b));
      destruct (list_eqb s3 (marker_text a b)); now rewrite ?app_nil_r. }
  rewrite Hr, Ht. apply replace_pieces.
  - unfold ps. cbn [forallb clean].
    rewrite !octet_clean, !sep_piece_clean by assumption. reflexivity.
  - rewrite <- Ht. unfold marked_quad. rewrite !length_app.
    apply octet_length in H1, H2, H3, H4.
    assert (Hm : markers ps <= 3).
    { unfold ps, markers, sep_piece. cbn [filter].
      destruct (list_eqb s1 _), (list_eqb s2 _), (list_eqb s3 _); simpl; lia. }
    lia.
Qed.

End Pass.

Lemma marker_reads sp : is_marker sp -> reads defanged_sep sp.
Proof.
  intros [-> | [-> | ->]]; [apply reads_dot | apply reads_bracket | apply reads_paren].
Qed.

Lemma bracket_passable sp : is_marker sp -> passable "[" "]" sp.
Proof. intros [-> | [-> | ->]]; [right | left | right]; reflexivity. Qed.

Lemma paren_passable sp : is_marker sp -> passable "(" ")" (pass "[" "]" sp).
Proof. intros [-> | [-> | ->]]; [right | right | left]; reflexivity. Qed.

Lemma both_passes sp : is_marker sp -> pass "(" ")" (pass "[" "]" sp) = dot.
Proof. intros [-> | [-> | ->]]; reflexivity. Qed.

Section Marked.
Variables o1 o2 o3 o4 s1 s2 s3 : list ascii.
Hypothesis H1 : is_octet o1 = true.
Hypothesis H2 : is_octet o2 = true.
Hypothesis H3 : is_octet o3 = true.
Hypothesis H4 : is_octet o4 = true.
Hypothesis M1 : is_marker s1.
Hypothesis M2 : is_marker s2.
Hypothesis M3 : is_marker s3.

Let T := marked_quad o1 s1 o2 s2 o3 s3 o4.
Let Q := dotted_quad o1 o2 o3 o4.

(** The normalizer turns a de-fanged quad into the dotted quad. *)
Lemma normalizeDefangedIP_marked : normalizeDefangedIP T = Q.
Proof.
  unfold normalizeDefangedIP. cbv zeta. unfold T.
  rewrite (@pass_quad "[" "]" (lit "\[\.\]" false) eq_refl eq_refl eq_refl)
    by auto using bracket_passable.
  rewrite (@pass_quad "(" ")" (lit "\(\.\)" false) eq_refl eq_refl eq_refl)
    by auto using paren_passable.
  rewrite (@both_passes s1 M1), (@both_passes s2 M2), (@both_passes s3 M3).
  change (marked_quad o1 dot o2 dot o3 dot o4) with Q.
  assert (Hop : existsb is_opening Q = false).
  { apply absent_from_plain; [vm_compute; reflexivity | now apply dotted_quad_plain]. }
  assert (Hid : forall re, must_have (ignore_case re) is_opening (Str.compile re) = true ->
                        Str.replace_all re dot Q = Q).
  { intros re Hre. now apply (@replace_all_lacking re is_opening). }
  rewrite !Hid by (vm_compute; reflexivity). reflexivity.
Qed.

Lemma defanged_ip_on_marked : Str.match_all (IOC_PATTERNS DEFANGED_IP) T = [T].
Proof.
  unfold T, marked_quad.
  apply (@quad_match_all _ defanged_sep RWordB);
    auto using marker_reads, word_boundary_ends.
  vm_compute. lia.
Qed.

Lemma no_slash_in_marked : existsb (Ascii.eqb "/") T = false.
Proof.
  assert (Ho : forall o, is_octet o = true -> existsb (Ascii.eqb "/") o = false).
  { intros o Ho. apply absent_from_plain; [vm_compute; reflexivity | now apply octet_plain]. }
  assert (Hs : forall sp, is_marker sp -> existsb (Ascii.eqb "/") sp = false).
  { intros sp [-> | [-> | ->]]; reflexivity. }
  unfold T, marked_quad. rewrite !existsb_app.
  rewrite (Ho o1 H1), (Ho o2 H2), (Ho o3 H3), (Ho o4 H4), (Hs s1 M1), (Hs s2 M2), (Hs s3 M3).
  reflexivity.
Qed.

Lemma cidr_on_marked : Str.match_all (IOC_PATTERNS CIDR) T = [].
Proof.
  unfold Str.match_all.
  apply (@match_from_lacking _ (Ascii.eqb "/")); [vm_compute; reflexivity|].
  apply no_slash_in_marked.
Qed.

Lemma marked_length : 7 <= List.length T.
Proof.
  unfold T, marked_quad. rewrite !length_app.
  pose proof (@octet_length o1 H1). pose proof (@octet_length o2 H2).
  pose proof (@octet_length o3 H3). pose proof (@octet_length o4 H4).
  assert (Hs : forall sp, is_marker sp -> 1 <= List.length sp).
  { intros sp [-> | [-> | ->]]; simpl; lia. }
  pose proof (Hs s1 M1). pose proof (Hs s2 M2). pose proof (Hs s3 M3). lia.
Qed.

End Marked.

End DefangedQuad.


(** * A second pass of a normalizer *)

Module PassFacts.
Import Lang LangFacts StrFacts NormFacts MatchFacts Analysis Markers.

(** ** One global replacement *)

Lemma replace_all_unmatched re by_ s :
  found re s = false -> Str.replace_all re by_ s = s.
Proof.
  unfold found, Str.test, Str.replace_all. cbn [Str.replace_from].
  destruct (search _ _ _) as [[ps pe]|]; [discriminate|reflexivity].
Qed.

(** A search that succeeds cuts the subject in three. *)
Lemma search_split ci r p ps pe :
  search ci r p = Some (ps, pe) ->
  exists pre w, rest p = pre ++ w ++ rest pe /\ between p ps = pre
                /\ rest ps = w ++ rest pe /\ min_len r <= List.length w.
Proof.
  unfold search. intros H.
  destruct (search_from_suffix _ _ _ _ H) as [pre Hpre].
  apply search_from_sound in H. destruct H as (w & Hps & HM & _ & _).
  exists pre, w. repeat split.
  - now rewrite Hpre, Hps.
  - unfold between. rewrite Hpre. apply firstn_consumed.
  - exact Hps.
  - eapply min_len_sound; eauto.
Qed.

(** What follows the first replacement, as [replace_from] computes it. *)
Definition replace_tail (fuel : nat) (ci : bool) (r : regex) (by_ : list ascii)
    (ps pe : pos) : list ascii :=
  if List.length (rest pe) =? List.length (rest ps) then
    match advance pe with
    | Some (c, p') => c :: Str.replace_from fuel ci r by_ p'
    | None => []
    end
  else Str.replace_from fuel ci r by_ pe.

Lemma replace_from_step fuel ci r by_ p :
  Str.replace_from (S fuel) ci r by_ p =
  match search ci r p with
  | None => rest p
  | Some (ps, pe) => between p ps ++ by_ ++ replace_tail fuel ci r by_ ps pe
  end.
Proof. reflexivity. Qed.

Lemma replace_from_length fuel ci r by_ p :
  List.length by_ <= min_len r ->
  List.length (Str.replace_from fuel ci r by_ p) <= List.length (rest p).
Proof.
  intros Hb. revert p. induction fuel as [|fuel IH]; intros p; [simpl; lia|].
  rewrite replace_from_step.
  destruct (search ci r p) as [[ps pe]|] eqn:E; [|lia].
  destruct (search_split _ _ _ E) as (pre & w & Hp & Hbt & Hps & Hw).
  rewrite Hbt, Hp, !length_app.
  assert (Ht : List.length (replace_tail fuel ci r by_ ps pe) <= List.length (rest pe)).
  { unfold replace_tail. destruct (_ =? _); [|apply IH].
    unfold advance. destruct (rest pe) as [|c u] eqn:Eu; [simpl; lia|].
    simpl. specialize (IH (Pos (Some c) u)). simpl in IH. lia. }
  lia.
Qed.

Lemma replace_all_length re by_ s :
  List.length by_ <= min_len (Str.compile re) ->
  List.length (Str.replace_all re by_ s) <= List.length s.
Proof. intros H. unfold Str.replace_all. now apply (@replace_from_length _ _ _ _ (start_pos s)). Qed.

(** A replacement shorter than every match shortens a text that has one. *)
Lemma replace_all_shrinks re by_ s :
  found re s = true -> List.length by_ < min_len (Str.compile re) ->
  List.length (Str.replace_all re by_ s) < List.length s.
Proof.
  unfold found, Str.test, Str.replace_all. intros Hf Hb. rewrite replace_from_step.
  destruct (search _ _ _) as [[ps pe]|] eqn:E; [|discriminate].
  destruct (search_split _ _ _ E) as (pre & w & Hp & Hbt & Hps & Hw).
  rewrite Hbt. simpl in Hp. rewrite Hp at 2. rewrite !length_app.
  assert (Ht : List.length (replace_tail (List.length s) (ignore_case re) (Str.compile re) by_ ps pe)
               <= List.length (rest pe)).
  { unfold replace_tail. destruct (_ =? _); [|apply replace_from_length; lia].
    unfold advance. destruct (rest pe) as [|c u] eqn:Eu; [simpl; lia|].
    simpl.
    pose proof (@replace_from_length (List.length s) (ignore_case re) (Str.compile re) by_
                  (Pos (Some c) u)) as Hl.
    simpl in Hl. lia. }
  lia.
Qed.

(** The replaced text keeps what precedes the first match. *)
Lemma replace_all_shape re by_ s :
  Str.replace_all re by_ s = s
  \/ exists pre more tl, s = pre ++ more /\ Str.replace_all re by_ s = pre ++ by_ ++ tl.
Proof.
  unfold Str.replace_all. rewrite replace_from_step.
  destruct (search _ _ _) as [[ps pe]|] eqn:E; [|now left].
  destruct (search_split _ _ _ E) as (pre & w & Hp & Hbt & _ & _).
  right. rewrite Hbt. simpl in Hp. eauto.
Qed.

(** ** The loop of marker replacements *)

Lemma normalizeDefangedIP_passes s : normalizeDefangedIP s = passes marker_patterns s.
Proof. reflexivity. Qed.

Lemma normalizeDefangedURL_passes s :
  normalizeDefangedURL s = passes marker_patterns (schemes s).
Proof. reflexivity. Qed.

Lemma passes_fixed res s :
  forallb (fun re => negb (found re s)) res = true -> passes res s = s.
Proof.
  induction res as [|re res IH]; simpl; intros H; [reflexivity|].
  apply andb_true_iff in H. destruct H as [H1 H2]. apply negb_true_iff in H1.
  unfold passes in *. simpl. rewrite (replace_all_unmatched re dot s H1). now apply IH.
Qed.

Lemma passes_length res s :
  Forall (fun re => List.length dot <= min_len (Str.compile re)) res ->
  List.length (passes res s) <= List.length s.
Proof.
  revert s. induction res as [|re res IH]; intros s H; [simpl; lia|].
  inversion H; subst. unfold passes in *. simpl.
  etransitivity; [apply IH; assumption|]. now apply replace_all_length.
Qed.

Lemma passes_shrink res s :
  Forall (fun re => List.length dot < min_len (Str.compile re)) res ->
  forallb (fun re => negb (found re s)) res = false ->
  List.length (passes res s) < List.length s.
Proof.
  induction res as [|re res IH]; intros HF H; [discriminate|].
  inversion HF as [|? ? Hre Hres]; subst. simpl in H. unfold passes in *. simpl.
  destruct (found re s) eqn:E.
  - eapply Nat.le_lt_trans; [|apply (replace_all_shrinks re dot s E Hre)].
    apply (@passes_length res). eapply Forall_impl; [|exact Hres]. simpl. intros; lia.
  - rewrite (replace_all_unmatched re dot s E). apply IH; assumption.
Qed.

Lemma marker_patterns_long :
  Forall (fun re => List.length dot < min_len (Str.compile re)) marker_patterns.
Proof. repeat constructor. Qed.

(** The marker loop leaves a text alone exactly when no marker pattern
    matches in it. *)
Lemma passes_fixed_iff s : passes marker_patterns s = s <-> marker_free s = true.
Proof.
  split.
  - intros H. destruct (marker_free s) eqn:E; [reflexivity|].
    pose proof (@passes_shrink marker_patterns s marker_patterns_long E) as Hl.
    rewrite H in Hl. lia.
  - apply passes_fixed.
Qed.

(** ** The scheme replacements *)

Lemma prefix_ci_split cs t :
  prefix_ci cs t = true ->
  exists w t', t = w ++ t' /\ map to_upper w = map to_upper cs.
Proof.
  unfold prefix_ci. revert t. induction cs as [|a cs IH]; intros t H.
  - exists [], t. auto.
  - destruct t as [|c t]; simpl in H; [discriminate|].
    apply andb_true_iff in H. destruct H as [H1 H2]. apply Ascii.eqb_eq in H1.
    destruct (IH t H2) as (w & t' & -> & Hw).
    exists (c :: w), t'. simpl. rewrite Hw, H1. auto.
Qed.

Lemma spelled_reads cs pv w s :
  map to_upper w = map to_upper cs -> matches true (spelled cs) pv w s.
Proof.
  revert pv w. induction cs as [|c cs IH]; intros pv w H.
  - destruct w; [reflexivity|discriminate].
  - destruct w as [|a w]; [discriminate|]. simpl in H. inversion H as [[H1 H2]].
    destruct cs as [|c' cs'].
    + destruct w; [|discriminate]. simpl. exists a. split; [reflexivity|].
      unfold char_eq. rewrite H1. apply Ascii.eqb_refl.
    + cbn [spelled matches]. exists [a], w. split; [reflexivity|]. split.
      * exists a. split; [reflexivity|]. unfold char_eq. rewrite H1. apply Ascii.eqb_refl.
      * apply IH. exact H2.
Qed.

Lemma app_same_length (a b x y : list ascii) :
  List.length a = List.length b -> a ++ x = b ++ y -> a = b /\ x = y.
Proof.
  revert b. induction a as [|c a IH]; intros [|d b] Hl H; simpl in *; try discriminate.
  - auto.
  - inversion H; subst. destruct (IH b) as [-> ->]; auto.
Qed.

Lemma search_from_here ci r pv s q :
  match_at ci r (Pos pv s) = Some q -> search_from ci r pv s = Some (Pos pv s, q).
Proof. intros H. destruct s; simpl; now rewrite H. Qed.

(** An anchored scheme pattern replaces the scheme a text begins with. *)
Lemma scheme_hit re cs by_ t :
  ignore_case re = true -> Str.compile re = RSeq RBol (spelled cs) ->
  prefix_ci cs t = true ->
  exists t', Str.replace_first re by_ t = by_ ++ t'.
Proof.
  intros Hci Hre Hp. destruct (prefix_ci_split _ _ Hp) as (w & t' & -> & Hw).
  exists t'. unfold Str.replace_first. rewrite Hci, Hre. unfold search, start_pos. cbn [prev rest].
  assert (HM : matches true (RSeq RBol (spelled cs)) None w t').
  { cbn [matches]. exists [], w. split; [reflexivity|]. split; [now split|].
    now apply spelled_reads. }
  destruct (@run_complete true (RSeq RBol (spelled cs)) (fun q => Some q) None w t' _ HM eq_refl)
    as [y Hy].
  change (match_at true (RSeq RBol (spelled cs)) (Pos None (w ++ t')) = Some y) in Hy.
  rewrite (search_from_here _ _ _ _ Hy).
  apply match_at_sound in Hy. destruct Hy as (w2 & s2 & Ht & HM2 & ->).
  cbn [matches] in HM2. destruct HM2 as (a & b & -> & [-> _] & HM2).
  apply spelled_matches in HM2. simpl in Ht.
  destruct (@app_same_length w b t' s2) as [-> ->]; [|exact Ht|].
  { apply (f_equal (@List.length ascii)) in Hw. apply (f_equal (@List.length ascii)) in HM2.
    rewrite !length_map in *. congruence. }
  unfold between, after. cbn [rest]. rewrite Nat.sub_diag. reflexivity.
Qed.

Lemma scheme_step re cs by_ t :
  ignore_case re = true -> Str.compile re = RSeq RBol (spelled cs) ->
  (Str.replace_first re by_ t = t /\ prefix_ci cs t = false)
  \/ exists t', Str.replace_first re by_ t = by_ ++ t'.
Proof.
  intros Hci Hre. destruct (prefix_ci cs t) eqn:E.
  - right. eapply scheme_hit; eauto.
  - left. split; [|reflexivity]. eapply replace_first_scheme; eauto.
Qed.

(** No de-fanged scheme is left in front after the scheme replacements. *)
Lemma schemes_clear x : defanged_scheme (schemes x) = false.
Proof.
  unfold schemes. cbv zeta.
  set (r1 := Str.replace_first (lit "^hxxp:\/\/" true) (str "http://") x).
  set (r2 := Str.replace_first (lit "^hxxps:\/\/" true) (str "https://") r1).
  destruct (@scheme_step (lit "^ftxp:\/\/" true) (str "ftxp://") (str "ftp://") r2 eq_refl eq_refl)
    as [[E3 P3]|[t3 E3]]; rewrite E3; [|reflexivity].
  unfold r2 in *.
  destruct (@scheme_step (lit "^hxxps:\/\/" true) (str "hxxps://") (str "https://") r1 eq_refl eq_refl)
    as [[E2 P2]|[t2 E2]]; rewrite E2 in *; [|reflexivity].
  unfold r1 in *.
  destruct (@scheme_step (lit "^hxxp:\/\/" true) (str "hxxp://") (str "http://") x eq_refl eq_refl)
    as [[E1 P1]|[t1 E1]]; rewrite E1 in *; [|reflexivity].
  unfold defanged_scheme. now rewrite P1, P2, P3.
Qed.

Lemma schemes_fixed x : defanged_scheme x = false -> schemes x = x.
Proof.
  unfold defanged_scheme. intros Hs.
  apply orb_false_iff in Hs. destruct Hs as [Hs H3].
  apply orb_false_iff in Hs. destruct Hs as [H1 H2].
  unfold schemes. cbv zeta.
  rewrite (@replace_first_scheme (lit "^hxxp:\/\/" true) (str "hxxp://") (str "http://") x)
    by (exact H1 || reflexivity).
  rewrite (@replace_first_scheme (lit "^hxxps:\/\/" true) (str "hxxps://") (str "https://") x)
    by (exact H2 || reflexivity).
  now rewrite (@replace_first_scheme (lit "^ftxp:\/\/" true) (str "ftxp://") (str "ftp://") x)
    by (exact H3 || reflexivity).
Qed.

(** ** A marker replacement brings no scheme to the front *)

Lemma starts_with_cut (a : list ascii) d tl more pre :
  ~ In d pre -> Str.starts_with (a ++ d :: tl) pre = true ->
  Str.starts_with (a ++ more) pre = true.
Proof.
  revert pre. induction a as [|x a IH]; intros pre Hn H.
  - destruct pre as [|p pre]; [now destruct more|]. simpl in H.
    apply andb_true_iff in H. destruct H as [H _]. apply Ascii.eqb_eq in H.
    exfalso. apply Hn. now left.
  - destruct pre as [|p pre]; [reflexivity|]. simpl in *.
    apply andb_true_iff in H. destruct H as [H1 H2]. rewrite H1. simpl.
    apply IH; [|exact H2]. intros Hin. apply Hn. now right.
Qed.

Lemma replace_all_prefix re sc z :
  ~ In "."%char (map to_upper sc) ->
  prefix_ci sc (Str.replace_all re dot z) = true -> prefix_ci sc z = true.
Proof.
  intros Hn. destruct (replace_all_shape re dot z) as [-> | (pre & more & tl & Hz & ->)];
    [auto|].
  unfold prefix_ci. rewrite Hz, !map_app. simpl. apply starts_with_cut. exact Hn.
Qed.

Lemma replace_all_no_scheme re z :
  defanged_scheme z = false -> defanged_scheme (Str.replace_all re dot z) = false.
Proof.
  unfold defanged_scheme. intros Hs.
  apply orb_false_iff in Hs. destruct Hs as [Hs H3].
  apply orb_false_iff in Hs. destruct Hs as [H1 H2].
  assert (Hk : forall sc, ~ In "."%char (map to_upper sc) -> prefix_ci sc z = false ->
                          prefix_ci sc (Str.replace_all re dot z) = false).
  { intros sc Hn Hp. destruct (prefix_ci sc (Str.replace_all re dot z)) eqn:E; [|reflexivity].
    apply replace_all_prefix in E; [congruence | exact Hn]. }
  rewrite !Hk; auto; simpl; intuition discriminate.
Qed.

Lemma passes_no_scheme res z :
  defanged_scheme z = false -> defanged_scheme (passes res z) = false.
Proof.
  revert z. induction res as [|re res IH]; intros z H; [exact H|].
  unfold passes in *. simpl. apply IH. now apply replace_all_no_scheme.
Qed.

Lemma normalizeDefangedURL_no_scheme x : defanged_scheme (normalizeDefangedURL x) = false.
Proof. rewrite normalizeDefangedURL_passes. apply passes_no_scheme, schemes_clear. Qed.

(** ** Either normalizer, applied again *)

Lemma normalize_settled n x : settled n x = true -> normalize n x = x.
Proof.
  unfold settled. intros H. apply andb_true_iff in H. destruct H as [Hm Hs].
  destruct n; simpl.
  - rewrite normalizeDefangedIP_passes. now apply passes_fixed_iff.
  - rewrite normalizeDefangedURL_passes. apply negb_true_iff in Hs.
    rewrite (schemes_fixed x Hs). now apply passes_fixed_iff.
Qed.

Lemma normalize_again n x :
  normalize n (normalize n x) = normalize n x <-> marker_free (normalize n x) = true.
Proof.
  destruct n; simpl.
  - rewrite (normalizeDefangedIP_passes (normalizeDefangedIP x)). apply passes_fixed_iff.
  - rewrite (normalizeDefangedURL_passes (normalizeDefangedURL x)).
    rewrite (schemes_fixed _ (normalizeDefangedURL_no_scheme x)). apply passes_fixed_iff.
Qed.

(** A normalizer leaves a text alone exactly when the text is settled. *)
Lemma normalize_fixed_iff n x : normalize n x = x <-> settled n x = true.
Proof.
  split; [|apply normalize_settled].
  intros H. unfold settled. destruct n; simpl in *.
  - rewrite andb_true_r. apply passes_fixed_iff. now rewrite <- normalizeDefangedIP_passes.
  - assert (Hs : defanged_scheme x = false).
    { rewrite <- H. apply normalizeDefangedURL_no_scheme. }
    rewrite Hs. simpl. rewrite andb_true_r. apply passes_fixed_iff.
    rewrite normalizeDefangedURL_passes, (schemes_fixed x Hs) in H. exact H.
Qed.

End PassFacts.


(** * What the de-fanged IP pattern matches *)

Module QuadInverse.
Import Lang LangFacts StrFacts MatchFacts Analysis QuadRun QuadScan DefangedQuad.

Lemma class_enum ci neg items c :
  class_mem ci neg items c = true -> In c (filter (class_mem ci neg items) all_ascii).
Proof. intros H. apply filter_In. split; [apply in_all_ascii | exact H]. Qed.

Ltac enum H :=
  apply class_enum in H; vm_compute in H;
  repeat (destruct H as [<- | H]); try (exfalso; exact H).

Lemma iter_optional (R : ctx) pv w s :
  Iter R 0 (Some 1) pv w s -> w = [] \/ R pv w s.
Proof.
  intros H. inversion H as [mn mx pv' s' Hd | mn mx pv' w1 w2 s' Hmx H1 Hne HI]; subst;
    [now left|].
  right. simpl in HI.
  inversion HI as [? ? ? ? Hd' | ? ? ? ? ? ? Hmx']; subst.
  - rewrite app_nil_r. simpl in H1. exact H1.
  - simpl in Hmx'. discriminate.
Qed.

(** A quantifier [{n}] reads [n] texts of its body. *)
Lemma iter_exact (R : ctx) n pv w s :
  Iter R n (Some n) pv w s ->
  exists ws, List.length ws = n /\ w = List.concat ws
             /\ Forall (fun x => exists pv' s', R pv' x s') ws.
Proof.
  revert pv w. induction n as [|n IH]; intros pv w H.
  - inversion H as [? ? ? ? Hd | ? ? ? ? ? ? Hmx]; subst.
    + exists []. auto.
    + simpl in Hmx. discriminate.
  - inversion H as [? ? ? ? Hd | ? ? ? w1 w2 ? Hmx H1 Hne HI]; subst.
    + destruct Hd as [Hd | Hd]; simpl in Hd; discriminate.
    + simpl in HI. apply IH in HI. destruct HI as (ws & Hl & -> & HF).
      exists (w1 :: ws). simpl. repeat split; [now rewrite Hl|].
      constructor; eauto.
Qed.

Lemma octet_inverse pv w s : matches false octet_re pv w s -> is_octet w = true.
Proof.
  unfold octet_re. cbn [matches]. intros [H | [H | H]].
  - destruct H as (w1 & w2 & -> & (a & -> & Ea) & (w3 & w4 & -> & (b & -> & Eb) & (c & -> & Ec))).
    unfold char_eq in Ea, Eb. apply Ascii.eqb_eq in Ea, Eb. subst.
    enum Ec; reflexivity.
  - destruct H as (w1 & w2 & -> & (a & -> & Ea) & (w3 & w4 & -> & (b & -> & Eb) & (c & -> & Ec))).
    unfold char_eq in Ea. apply Ascii.eqb_eq in Ea. subst.
    enum Eb; enum Ec; reflexivity.
  - destruct H as (w1 & w2 & -> & Ha & (w3 & w4 & -> & (d & -> & Ed) & He)).
    apply iter_optional in Ha, He. cbn [matches] in Ha, He.
    destruct Ha as [-> | (a & -> & Ea)]; destruct He as [-> | (e & -> & Ee)].
    + enum Ed; reflexivity.
    + enum Ed; enum Ee; reflexivity.
    + enum Ea; enum Ed; reflexivity.
    + enum Ea; enum Ed; enum Ee; reflexivity.
Qed.

Lemma sep_inverse pv w s : matches false defanged_sep pv w s -> is_marker w.
Proof.
  unfold defanged_sep, is_marker. cbn [matches]. unfold char_eq.
  intros [H | [H | H]].
  - destruct H as (c & -> & E). apply Ascii.eqb_eq in E. subst. now left.
  - destruct H as (w1 & w2 & -> & (a & -> & Ea) & (w3 & w4 & -> & (b & -> & Eb) & (c & -> & Ec))).
    apply Ascii.eqb_eq in Ea, Eb, Ec. subst. right. now left.
  - destruct H as (w1 & w2 & -> & (a & -> & Ea) & (w3 & w4 & -> & (b & -> & Eb) & (c & -> & Ec))).
    apply Ascii.eqb_eq in Ea, Eb, Ec. subst. right. now right.
Qed.

Lemma group_inverse pv w s :
  matches false (RSeq octet_re defanged_sep) pv w s ->
  exists o sp, w = o ++ sp /\ is_octet o = true /\ is_marker sp.
Proof.
  cbn [matches]. intros (o & sp & -> & Ho & Hs).
  exists o, sp. split; [reflexivity|]. split; [eapply octet_inverse | eapply sep_inverse]; eauto.
Qed.

(** Every match of the de-fanged IP pattern is four octets, each two
    joined by one of the three separators. *)
Lemma quad_inverse pv m s :
  matches false (quad_re defanged_sep RWordB) pv m s ->
  exists o1 s1 o2 s2 o3 s3 o4,
    m = marked_quad o1 s1 o2 s2 o3 s3 o4
    /\ is_octet o1 = true /\ is_octet o2 = true /\ is_octet o3 = true /\ is_octet o4 = true
    /\ is_marker s1 /\ is_marker s2 /\ is_marker s3.
Proof.
  unfold quad_re. cbn [matches].
  intros (w0 & w' & -> & [-> _] & (wr & wt & -> & HI & (o4 & wb & -> & Ho4 & [-> _]))).
  apply iter_exact in HI. destruct HI as (ws & Hl & -> & HF).
  destruct ws as [|g1 [|g2 [|g3 [|g4 ws]]]]; try discriminate.
  inversion HF as [|? ? (p1 & t1 & G1) HF1]; subst.
  inversion HF1 as [|? ? (p2 & t2 & G2) HF2]; subst.
  inversion HF2 as [|? ? (p3 & t3 & G3) _]; subst.
  apply group_inverse in G1, G2, G3.
  destruct G1 as (o1 & s1 & -> & H1 & M1).
  destruct G2 as (o2 & s2 & -> & H2 & M2).
  destruct G3 as (o3 & s3 & -> & H3 & M3).
  apply octet_inverse in Ho4.
  exists o1, s1, o2, s2, o3, s3, o4. repeat split; auto.
  unfold marked_quad. simpl. now rewrite !app_nil_r, <- !app_assoc.
Qed.

Lemma match_all_defanged_ip text m :
  In m (Str.match_all (IOC_PATTERNS DEFANGED_IP) text) ->
  exists o1 s1 o2 s2 o3 s3 o4,
    m = marked_quad o1 s1 o2 s2 o3 s3 o4
    /\ is_octet o1 = true /\ is_octet o2 = true /\ is_octet o3 = true /\ is_octet o4 = true
    /\ is_marker s1 /\ is_marker s2 /\ is_marker s3.
Proof.
  intros H. apply match_all_sound in H. destruct H as (pv & s & H).
  rewrite defanged_ip_shape in H. change (ignore_case (IOC_PATTERNS DEFANGED_IP)) with false in H.
  eapply quad_inverse; eauto.
Qed.

Lemma no_space_in_marked o1 s1 o2 s2 o3 s3 o4 :
  is_octet o1 = true -> is_octet o2 = true -> is_octet o3 = true -> is_octet o4 = true ->
  is_marker s1 -> is_marker s2 -> is_marker s3 ->
  existsb is_space (marked_quad o1 s1 o2 s2 o3 s3 o4) = false.
Proof.
  intros H1 H2 H3 H4 M1 M2 M3.
  assert (Ho : forall o, is_octet o = true -> existsb is_space o = false).
  { intros o Ho. apply absent_from_plain; [vm_compute; reflexivity | now apply octet_plain]. }
  assert (Hs : forall sp, is_marker sp -> existsb is_space sp = false).
  { intros sp [-> | [-> | ->]]; reflexivity. }
  unfold marked_quad. rewrite !existsb_app.
  rewrite (Ho o1 H1), (Ho o2 H2), (Ho o3 H3), (Ho o4 H4), (Hs s1 M1), (Hs s2 M2), (Hs s3 M3).
  reflexivity.
Qed.

(** What the scan passes to [normalizeDefangedIP] comes out as a dotted
    quad, which a second pass leaves alone. *)
Lemma scanned_ip_normal text m :
  In m (Str.match_all (IOC_PATTERNS DEFANGED_IP) text) ->
  exists o1 o2 o3 o4,
    normalizeDefangedIP (Str.trim m) = dotted_quad o1 o2 o3 o4
    /\ normalizeDefangedIP (dotted_quad o1 o2 o3 o4) = dotted_quad o1 o2 o3 o4.
Proof.
  intros H. apply match_all_defanged_ip in H.
  destruct H as (o1 & s1 & o2 & s2 & o3 & s3 & o4 & -> & H1 & H2 & H3 & H4 & M1 & M2 & M3).
  exists o1, o2, o3, o4.
  rewrite trim_no_space by now apply no_space_in_marked.
  split.
  - now apply normalizeDefangedIP_marked.
  - apply normalizeDefangedIP_plain. now apply dotted_quad_plain.
Qed.

End QuadInverse.


(** * The properties of the specification *)

Section Scenario.
Variable stamp : nat -> list ascii.

(** What the scan yields on the scenario text. *)
Lemma scenario_output :
  map view (detectIOCs stamp scenario_text) =
  [(CIDR, str "8.8.8.8/32", None);
   (DEFANGED_IP, str "8.8.8.8", Some (str "8.8.8.8"));
   (EMAIL, str "admin@example.com", None);
   (DEFANGED_URL, str "http://bad.example.com/payload.exe,",
                  Some (str "hxxp://bad[.]example[.]com/payload.exe,"));
   (FILENAME, str "example.com", None);
   (FILENAME, str "payload.exe", None)].
Proof. vm_compute. reflexivity. Qed.

End Scenario.

(** C1, as stated, fails: on the scenario text the scan yields six
    records, not the three claimed, and the de-fanged URL record claimed
    is not among them (its value keeps the trailing comma). *)
Lemma scenario_not_three_records :
  ~ (List.length (detectIOCs no_stamp scenario_text) = 3 /\
     forall v, In v scenario_claimed -> In v (map view (detectIOCs no_stamp scenario_text))).
Proof.
  intros [Hlen _].
  assert (E : List.length (map view (detectIOCs no_stamp scenario_text)) = 3)
    by now rewrite length_map.
  rewrite scenario_output in E. discriminate E.
Qed.

(** C1, amended: apart from de-fanged IP records, the scan of the scenario
    text yields five records, in this order: the CIDR, the e-mail address,
    the de-fanged URL with the trailing comma that the URL character class
    admits, and the file names [example.com] and [payload.exe]; no record
    has type IPv4 or URL. *)
Theorem scenario_records (stamp : nat -> list ascii) :
  filter (fun v => negb (ioc_type_eqb (fst (fst v)) DEFANGED_IP))
         (map view (detectIOCs stamp scenario_text)) =
  [(CIDR, str "8.8.8.8/32", None);
   (EMAIL, str "admin@example.com", None);
   (DEFANGED_URL, str "http://bad.example.com/payload.exe,",
                  Some (str "hxxp://bad[.]example[.]com/payload.exe,"));
   (FILENAME, str "example.com", None);
   (FILENAME, str "payload.exe", None)]
  /\ forall r, In r (detectIOCs stamp scenario_text) -> type r <> IPV4 /\ type r <> URL.
Proof.
  split.
  - rewrite scenario_output. reflexivity.
  - intros r Hr. apply (in_map view) in Hr. rewrite scenario_output in Hr.
    unfold view in Hr. simpl in Hr.
    repeat (destruct Hr as [Hr|Hr]; [inversion Hr; split; discriminate|]). contradiction.
Qed.

(** C2: octets separated by [[dot]] are not detected at all, although the
    de-fanged IP normalizer would turn the text into a dotted quad. *)
Theorem dot_word_markers_undetected (stamp : nat -> list ascii) :
  detectIOCs stamp (str "1[dot]2[dot]3[dot]4") = []
  /\ detectIOCs stamp (str "1[ . ]2[ . ]3[ . ]4") = []
  /\ normalizeDefangedIP (str "1[dot]2[dot]3[dot]4") = str "1.2.3.4"
  /\ normalizeDefangedIP (str "1[ . ]2[ . ]3[ . ]4") = str "1.2.3.4".
Proof. repeat split; vm_compute; reflexivity. Qed.

(** C3: the validator is not anchored to the whole value for the CIDR
    pattern, rejects file names whose extension contains one of the
    letters g, i, m, u, y, and throws for a key inherited from
    [Object.prototype]; unknown types do give [false]. *)
Theorem validateIOC_not_whole_string :
  validateIOC (str "1.2.3.4/5 and more") (str "CIDR") = Returns true
  /\ complete_instance (IOC_PATTERNS CIDR) (str "1.2.3.4/5 and more") = false
  /\ validateIOC (str "a.zip") (str "Filename") = Returns false
  /\ complete_instance (IOC_PATTERNS FILENAME) (str "a.zip") = true
  /\ validateIOC (str "a.zip") (str "toString") = Throws
  /\ validateIOC (str "a.zip") (str "NoSuchType") = Returns false.
Proof. repeat split; vm_compute; reflexivity. Qed.

(** C8: no two records of one scan share their value. *)
Theorem detect_values_distinct (stamp : nat -> list ascii) (text : list ascii) :
  NoDup (map value (detectIOCs stamp text)).
Proof. apply ScanFacts.values_claimed_scan. Qed.

(** C10: the scan of [admin@example.com] yields the e-mail record and a
    file name record for [example.com], the only match of the file name
    pattern in that text. *)
Theorem email_domain_as_filename (stamp : nat -> list ascii) :
  map view (detectIOCs stamp (str "admin@example.com")) =
  [(EMAIL, str "admin@example.com", None); (FILENAME, str "example.com", None)]
  /\ Str.match_all (IOC_PATTERNS FILENAME) (str "admin@example.com") = [str "example.com"]
  /\ Str.match_all (IOC_PATTERNS EMAIL) (str "admin@example.com") = [str "admin@example.com"].
Proof. repeat split; vm_compute; reflexivity. Qed.

(** C4, as stated, fails: the value of a de-fanged URL record is the
    normalized URL, which the de-fanged URL pattern does not match; the
    validator rejects it too. *)
Lemma defanged_url_value_not_revalidated :
  exists r,
    In r (detectIOCs no_stamp (str "hxxp://a[.]b"))
    /\ value r = str "http://a.b"
    /\ complete_instance (IOC_PATTERNS (type r)) (value r) = false
    /\ validateIOC (value r) (IOC_TYPES (type r)) = Returns false.
Proof.
  exists (IOC DEFANGED_URL (str "http://a.b") (Some (str "hxxp://a[.]b"))
              (make_id no_stamp DEFANGED_URL (str "http://a.b") 0)).
  split; [vm_compute; auto|].
  split; [reflexivity|].
  split; vm_compute; reflexivity.
Qed.

(** C5, as stated, fails: the scan finds the de-fanged URL
    hxxp://a[[[.]]]b and passes it to [normalizeDefangedURL], whose result
    http://a[.]b still holds a marker; normalizing that result gives
    http://a.b. *)
Lemma defanged_url_normalized_twice_differs :
  map view (detectIOCs no_stamp (str "hxxp://a[[[.]]]b"))
  = [(DEFANGED_URL, str "http://a[.]b", Some (str "hxxp://a[[[.]]]b"))]
  /\ normalizeDefangedURL (str "hxxp://a[[[.]]]b") = str "http://a[.]b"
  /\ normalizeDefangedURL (normalizeDefangedURL (str "hxxp://a[[[.]]]b")) = str "http://a.b"
  /\ normalizeDefangedURL (normalizeDefangedURL (str "hxxp://a[[[.]]]b"))
     <> normalizeDefangedURL (str "hxxp://a[[[.]]]b").
Proof.
  split; [vm_compute; reflexivity|].
  split; [vm_compute; reflexivity|].
  split; [vm_compute; reflexivity|].
  vm_compute. discriminate.
Qed.

Lemma normalize_canonical n x : canonical n x = true -> normalize n x = x.
Proof.
  destruct n; simpl.
  - apply NormFacts.normalizeDefangedIP_canonical.
  - apply NormFacts.normalizeDefangedURL_canonical.
Qed.

(** C5, amended: for either normalizer and every text, normalizing twice
    equals normalizing once exactly when none of the six marker patterns
    matches in the text normalized once; every text that the scan passes
    to [normalizeDefangedIP], a trimmed match of the de-fanged IP pattern,
    is normalized to the same text by one pass and by two; and a
    normalizer changes nothing exactly in the settled texts, those in
    which no marker pattern matches and which, for the URL normalizer, do
    not begin with a de-fanged scheme. *)
Theorem normalize_twice_iff_no_marker_left :
  (forall n x,
      normalize n (normalize n x) = normalize n x
      <-> Markers.marker_free (normalize n x) = true)
  /\ (forall text m,
        In m (Str.match_all (IOC_PATTERNS DEFANGED_IP) text) ->
        normalizeDefangedIP (normalizeDefangedIP (Str.trim m))
        = normalizeDefangedIP (Str.trim m))
  /\ (forall n x, normalize n x = x <-> Markers.settled n x = true).
Proof.
  split; [exact PassFacts.normalize_again|].
  split; [|exact PassFacts.normalize_fixed_iff].
  intros text m H.
  destruct (QuadInverse.scanned_ip_normal _ _ H) as (o1 & o2 & o3 & o4 & E1 & E2).
  now rewrite E1, E2.
Qed.

Lemma normalize_twice_iff_no_marker_left_witness :
  Markers.marker_free (normalize ForURL (str "hxxp://evil[.]com/a(b)")) = true
  /\ normalize ForURL (normalize ForURL (str "hxxp://evil[.]com/a(b)"))
     = normalize ForURL (str "hxxp://evil[.]com/a(b)").
Proof.
  split; [vm_compute; reflexivity|].
  apply (proj2 (proj1 normalize_twice_iff_no_marker_left ForURL (str "hxxp://evil[.]com/a(b)"))).
  vm_compute. reflexivity.
Defined.

(** C6, as stated, fails: a plain dotted quad is reported by the de-fanged
    IP detector with an [originalValue] equal to its value. *)
Lemma original_value_equal_to_value :
  exists r,
    In r (detectIOCs no_stamp (str "8.8.8.8"))
    /\ originalValue r = Some (value r).
Proof.
  exists (IOC DEFANGED_IP (str "8.8.8.8") (Some (str "8.8.8.8"))
              (make_id no_stamp DEFANGED_IP (str "8.8.8.8") 0)).
  split; [vm_compute; auto | reflexivity].
Qed.

(** C6, amended: [originalValue] is present exactly on the records of the
    de-fanged IP and de-fanged URL detectors, whether or not it differs
    from the value; it is the trimmed match, and the value is its normal
    form. *)
Theorem original_value_iff_defanged (stamp : nat -> list ascii) (text : list ascii) (r : ioc) :
  In r (detectIOCs stamp text) ->
  (is_defanged (type r) = false /\ originalValue r = None)
  \/ (is_defanged (type r) = true /\
      exists o, originalValue r = Some o /\ value r = ScanFacts.final_value (type r) o).
Proof.
  intros Hr. apply ScanFacts.from_match_scan in Hr.
  destruct Hr as (m & _ & Hv & Ho).
  destruct (is_defanged (type r)); [right|left]; split; auto.
  exists (Str.trim m). auto.
Qed.

Lemma original_value_iff_defanged_witness :
  exists r,
    In r (detectIOCs no_stamp (str "10[.]0[.]0[.]1"))
    /\ is_defanged (type r) = true
    /\ originalValue r = Some (str "10[.]0[.]0[.]1")
    /\ value r = str "10.0.0.1".
Proof.
  pose (r := IOC DEFANGED_IP (str "10.0.0.1") (Some (str "10[.]0[.]0[.]1"))
                (make_id no_stamp DEFANGED_IP (str "10.0.0.1") 0)).
  assert (Hin : In r (detectIOCs no_stamp (str "10[.]0[.]0[.]1"))) by (vm_compute; auto).
  exists r. split; [exact Hin|].
  destruct (@original_value_iff_defanged no_stamp (str "10[.]0[.]0[.]1") r Hin) as [[H _]|[H _]].
  - discriminate H.
  - split; [exact H|]. split; reflexivity.
Defined.

(** C4, amended: every record comes from a match that the pattern of its
    own type finds in the scanned text; its value is the trimmed match
    itself for the plain types and the normal form of the trimmed match
    for the two de-fanged types, so a de-fanged record's value need not
    match its pattern when validated on its own. *)
Theorem record_from_match (stamp : nat -> list ascii) (text : list ascii) (r : ioc) :
  In r (detectIOCs stamp text) -> ScanFacts.from_match text r.
Proof. apply ScanFacts.from_match_scan. Qed.

Lemma record_from_match_witness :
  ScanFacts.from_match (str "hxxp://a[.]b")
    (IOC DEFANGED_URL (str "http://a.b") (Some (str "hxxp://a[.]b"))
         (make_id no_stamp DEFANGED_URL (str "http://a.b") 0)).
Proof.
  apply (@record_from_match no_stamp). vm_compute. auto.
Defined.


(** C9: a text that is exactly one plain dotted quad yields exactly one
    record, of type de-fanged IP: the de-fanged IP pattern accepts plain
    dots and runs before the IPv4 pattern, whose match is then already
    claimed. *)
Theorem plain_quad_is_defanged_ip (stamp : nat -> list ascii) (o1 o2 o3 o4 : list ascii) :
  is_octet o1 = true -> is_octet o2 = true -> is_octet o3 = true -> is_octet o4 = true ->
  detectIOCs stamp (dotted_quad o1 o2 o3 o4) =
  [IOC DEFANGED_IP (dotted_quad o1 o2 o3 o4) (Some (dotted_quad o1 o2 o3 o4))
       (make_id stamp DEFANGED_IP (dotted_quad o1 o2 o3 o4) 0)].
Proof.
  intros H1 H2 H3 H4.
  pose proof (@QuadScan.plain_T o1 o2 o3 o4 H1 H2 H3 H4) as Hplain.
  pose proof (@QuadScan.dotted_quad_length o1 o2 o3 o4 H1 H2 H3 H4) as Hlen.
  pose proof (@QuadScan.nothing_on_plain o1 o2 o3 o4 H1 H2 H3 H4) as Hnone.
  pose proof (@QuadScan.no_hash_on_plain o1 o2 o3 o4 H1 H2 H3 H4) as Hhash.
  pose proof (@QuadScan.defanged_ip_on_plain o1 o2 o3 o4 H1 H2 H3 H4) as Hdef.
  pose proof (@QuadScan.ipv4_on_plain o1 o2 o3 o4 H1 H2 H3 H4) as Hv4.
  set (T := dotted_quad o1 o2 o3 o4) in *.
  pose proof (QuadScan.trim_plain T Hplain) as Htrim.
  pose proof (QuadScan.normalizeDefangedIP_plain T Hplain) as Hnorm.
  unfold detectIOCs, scan, detectionOrder. cbn [fold_left]. unfold on_type.
  rewrite Hdef, Hv4.
  rewrite (Hnone CIDR), (Hnone IPV6), (Hnone EMAIL), (Hnone DEFANGED_URL), (Hnone URL),
    (Hnone FILENAME) by (vm_compute; reflexivity).
  rewrite (Hhash MD5), (Hhash SHA1), (Hhash SHA256), (Hhash SHA512) by (vm_compute; lia).
  cbn [fold_left].
  rewrite (@ScanFacts.on_match_fresh stamp DEFANGED_IP (Scan [] []) T);
    try reflexivity; rewrite ?Htrim; try (cbn [foundValues has existsb]; reflexivity);
    [|lia].
  rewrite ScanFacts.on_match_seen.
  - unfold ScanFacts.push, ScanFacts.final_value. cbn [ioc_type_eqb is_defanged orb].
    rewrite Hnorm. reflexivity.
  - rewrite Htrim. unfold ScanFacts.push, ScanFacts.final_value.
    cbn [ioc_type_eqb foundValues]. rewrite Hnorm.
    unfold add. cbn [has existsb app]. rewrite QuadScan.list_eqb_refl. cbn [orb has existsb].
    now rewrite QuadScan.list_eqb_refl.
Qed.

Lemma plain_quad_is_defanged_ip_witness :
  detectIOCs no_stamp (dotted_quad (str "8") (str "8") (str "8") (str "8")) =
  [IOC DEFANGED_IP (str "8.8.8.8") (Some (str "8.8.8.8"))
       (make_id no_stamp DEFANGED_IP (str "8.8.8.8") 0)].
Proof.
  apply (@plain_quad_is_defanged_ip no_stamp (str "8") (str "8") (str "8") (str "8"));
    reflexivity.
Defined.

(** C7: a dotted quad followed by a slash and a prefix length 0..32 is
    reported, whole, as the first record, of type CIDR; no record of type
    IPv4 carries its address part; and, in any state of a scan, an IPv4 or
    IPv6 match is dropped when a claimed value is that match followed by
    a slash and a suffix. *)
Theorem cidr_token_is_cidr (stamp : nat -> list ascii) (o1 o2 o3 o4 : list ascii) (n : nat) :
  is_octet o1 = true -> is_octet o2 = true -> is_octet o3 = true -> is_octet o4 = true ->
  n <= 32 ->
  (exists others,
     detectIOCs stamp (cidr_text o1 o2 o3 o4 n) =
     IOC CIDR (cidr_text o1 o2 o3 o4 n) None
         (make_id stamp CIDR (cidr_text o1 o2 o3 o4 n) 0) :: others)
  /\ (forall r, In r (detectIOCs stamp (cidr_text o1 o2 o3 o4 n)) ->
                type r = IPV4 -> value r <> dotted_quad o1 o2 o3 o4)
  /\ (forall t st m suffix,
        is_ip t = true ->
        In (Str.trim m ++ str "/" ++ suffix) (foundValues st) ->
        on_match stamp t st m = st).
Proof.
  intros H1 H2 H3 H4 Hn.
  pose proof (@QuadScan.cidr_on_cidr_text o1 o2 o3 o4 n H1 H2 H3 H4 Hn) as Hcidr.
  pose proof (@QuadScan.cidr_text_no_space o1 o2 o3 o4 n H1 H2 H3 H4 Hn) as Hsp.
  pose proof (@QuadScan.cidr_text_length o1 o2 o3 o4 n H1 H2 H3 H4 Hn) as Hlen.
  set (Q := dotted_quad o1 o2 o3 o4).
  assert (HT : cidr_text o1 o2 o3 o4 n = Q ++ str "/" ++ decimal n) by reflexivity.
  set (T := cidr_text o1 o2 o3 o4 n) in *.
  apply QuadScan.trim_no_space in Hsp.
  set (r0 := IOC CIDR T None (make_id stamp CIDR T 0)).
  set (I := fun st : scan_state =>
              (exists others, detectedIOCs st = r0 :: others)
              /\ In T (foundValues st)
              /\ forall r, In r (detectedIOCs st) -> type r = IPV4 -> value r <> Q).
  assert (Hfinal : I (scan stamp T)).
  { change (I (fold_left (on_type stamp T) (tl detectionOrder)
                         (on_type stamp T (Scan [] []) CIDR))).
    apply (@ScanFacts.types_invariant stamp T I).
    - intros t st m st' _ (Hhd & Hfound & Hno) Heff.
      destruct Heff as [|Hl Hf1 Hf2 Hc]; [split; [|split]; assumption|].
      unfold I, ScanFacts.push. cbn [detectedIOCs foundValues]. split; [|split].
      + destruct Hhd as [others ->]. eexists. reflexivity.
      + rewrite !StrFacts.In_add. auto.
      + intros r Hr Ht. apply in_app_iff in Hr. destruct Hr as [Hr|[E|[]]]; [now apply Hno|].
        subst r. cbn [type value] in *. subst t.
        unfold ScanFacts.final_value. cbn [ioc_type_eqb]. intros E.
        rewrite HT in Hfound. rewrite <- E in Hfound.
        apply ScanFacts.contains_cidr_of_claimed in Hfound.
        rewrite Hc in Hfound by reflexivity. discriminate.
    - unfold on_type. rewrite Hcidr. cbn [fold_left].
      rewrite (@ScanFacts.on_match_fresh stamp CIDR (Scan [] []) T);
        try reflexivity; rewrite ?Hsp; try (cbn [foundValues has existsb]; reflexivity);
        [|exact Hlen].
      unfold I, ScanFacts.push, ScanFacts.final_value. cbn [ioc_type_eqb is_defanged orb
        detectedIOCs foundValues app List.length]. split; [|split].
      + eexists. reflexivity.
      + rewrite !StrFacts.In_add. auto.
      + intros r [E|[]] Ht. subst r. discriminate Ht. }
  destruct Hfinal as (Hhd & _ & Hno). split; [|split].
  - exact Hhd.
  - exact Hno.
  - intros t st m suffix. apply ScanFacts.on_match_inside_cidr.
Qed.

Lemma cidr_token_is_cidr_witness :
  (exists others,
     detectIOCs no_stamp (str "8.8.8.8/32") =
     IOC CIDR (str "8.8.8.8/32") None (make_id no_stamp CIDR (str "8.8.8.8/32") 0) :: others)
  /\ (forall r, In r (detectIOCs no_stamp (str "8.8.8.8/32")) ->
                type r = IPV4 -> value r <> str "8.8.8.8").
Proof.
  destruct (@cidr_token_is_cidr no_stamp (str "8") (str "8") (str "8") (str "8") 32
              eq_refl eq_refl eq_refl eq_refl (le_n 32)) as (Ha & Hb & _).
  split; [exact Ha | exact Hb].
Defined.


(** * Further properties of the scan *)

Import Analysis.

(** A text made of white space only (the empty text included) yields no
    record. *)
Theorem blank_text_no_records (stamp : nat -> list ascii) (text : list ascii) :
  forallb is_space text = true -> detectIOCs stamp text = [].
Proof.
  intros Hsp.
  assert (Hno : existsb not_space text = false).
  { destruct (existsb not_space text) eqn:E; [|reflexivity].
    apply existsb_exists in E. destruct E as (c & Hc & Hn).
    rewrite forallb_forall in Hsp. specialize (Hsp c Hc).
    unfold not_space in Hn. rewrite Hsp in Hn. discriminate. }
  assert (Hnone : forall t, Str.match_all (IOC_PATTERNS t) text = []).
  { intros t. unfold Str.match_all.
    apply (@LangFacts.match_from_lacking _ not_space); [|exact Hno].
    destruct t; vm_compute; reflexivity. }
  unfold detectIOCs, scan, detectionOrder. cbn [fold_left]. unfold on_type.
  rewrite !Hnone. reflexivity.
Qed.

Lemma blank_text_no_records_witness :
  detectIOCs no_stamp (str "   ") = [].
Proof. apply (@blank_text_no_records no_stamp (str "   ")). reflexivity. Defined.

(** The as-found text of every record (its [originalValue] when present,
    its value otherwise) is, untrimmed, one of the matches of the record's
    pattern in the text; it is longer than two code units and holds no
    white space. *)
Theorem record_text_is_a_match (stamp : nat -> list ascii) (text : list ascii) (r : ioc) :
  In r (detectIOCs stamp text) ->
  In (as_found r) (Str.match_all (IOC_PATTERNS (type r)) text)
  /\ 2 < List.length (as_found r)
  /\ forallb not_space (as_found r) = true.
Proof.
  intros Hr. apply RecordFacts.found_as_matched_scan in Hr. destruct Hr as (Hin & Hlen & _).
  split; [exact Hin|]. split; [exact Hlen|].
  eapply RecordFacts.match_spaceless. exact Hin.
Qed.

Lemma record_text_is_a_match_witness :
  2 < List.length (str "hxxp://a[.]b") /\ forallb not_space (str "hxxp://a[.]b") = true.
Proof.
  pose (r := IOC DEFANGED_URL (str "http://a.b") (Some (str "hxxp://a[.]b"))
                 (make_id no_stamp DEFANGED_URL (str "http://a.b") 0)).
  assert (Hin : In r (detectIOCs no_stamp (str "hxxp://a[.]b"))) by (vm_compute; auto).
  destruct (@record_text_is_a_match no_stamp (str "hxxp://a[.]b") r Hin) as (_ & H1 & H2).
  split; [exact H1 | exact H2].
Defined.

(** The value of every MD5, SHA1, SHA256 or SHA512 record consists of
    exactly 32, 40, 64 or 128 hexadecimal digits. *)
Theorem hash_record_is_hex_digits (stamp : nat -> list ascii) (text : list ascii) (r : ioc) :
  In r (detectIOCs stamp text) -> is_hash (type r) = true ->
  List.length (value r) = hash_length (type r) /\ forallb is_hex (value r) = true.
Proof.
  intros Hr Hh. apply RecordFacts.found_as_matched_scan in Hr.
  destruct Hr as (Hin & _ & Hv).
  assert (Hval : value r = as_found r).
  { rewrite Hv. unfold ScanFacts.final_value.
    destruct (type r); try discriminate Hh; reflexivity. }
  rewrite Hval.
  apply MatchFacts.match_all_sound in Hin. destruct Hin as (pv & s & HM).
  rewrite (@RecordFacts.hash_shape (type r) Hh) in HM.
  replace (ignore_case (IOC_PATTERNS (type r))) with false in HM
    by (destruct (type r); try discriminate Hh; reflexivity).
  apply RecordFacts.hash_match in HM.
  - tauto.
  - destruct (type r); try discriminate Hh; simpl; lia.
Qed.

Lemma hash_record_is_hex_digits_witness :
  List.length (str "d41d8cd98f00b204e9800998ecf8427e") = 32
  /\ forallb is_hex (str "d41d8cd98f00b204e9800998ecf8427e") = true.
Proof.
  pose (v := str "d41d8cd98f00b204e9800998ecf8427e").
  pose (r := IOC MD5 v None (make_id no_stamp MD5 v 0)).
  assert (Hin : In r (detectIOCs no_stamp (str "md5 d41d8cd98f00b204e9800998ecf8427e ok")))
    by (vm_compute; auto).
  exact (@hash_record_is_hex_digits no_stamp _ r Hin eq_refl).
Defined.

(** The value of every hash record is accepted by [validateIOC] for the
    record's own type. *)
Theorem hash_record_revalidates (stamp : nat -> list ascii) (text : list ascii) (r : ioc) :
  In r (detectIOCs stamp text) -> is_hash (type r) = true ->
  validateIOC (value r) (IOC_TYPES (type r)) = Returns true.
Proof.
  intros Hr Hh. apply RecordFacts.found_as_matched_scan in Hr.
  destruct Hr as (Hin & Hlen & Hv).
  assert (Hval : value r = as_found r).
  { rewrite Hv. unfold ScanFacts.final_value.
    destruct (type r); try discriminate Hh; reflexivity. }
  rewrite Hval.
  apply MatchFacts.match_all_sound in Hin. destruct Hin as (pv & s & HM).
  rewrite (@RecordFacts.hash_shape (type r) Hh) in HM.
  replace (ignore_case (IOC_PATTERNS (type r))) with false in HM
    by (destruct (type r); try discriminate Hh; reflexivity).
  apply RecordFacts.hash_match in HM;
    [|destruct (type r); try discriminate Hh; simpl; lia].
  destruct HM as (_ & Hhex & HM).
  rewrite (@RecordFacts.validateIOC_hash (type r) (as_found r) Hh). f_equal.
  apply RecordFacts.anchored_hash_test; auto.
  intros E. rewrite E in Hlen. simpl in Hlen. lia.
Qed.

Lemma hash_record_revalidates_witness :
  validateIOC (str "d41d8cd98f00b204e9800998ecf8427e") (str "MD5") = Returns true.
Proof.
  pose (v := str "d41d8cd98f00b204e9800998ecf8427e").
  pose (r := IOC MD5 v None (make_id no_stamp MD5 v 0)).
  assert (Hin : In r (detectIOCs no_stamp (str "md5 d41d8cd98f00b204e9800998ecf8427e ok")))
    by (vm_compute; auto).
  exact (@hash_record_revalidates no_stamp _ r Hin eq_refl).
Defined.

(** The records come out grouped by type, in the order in which the
    types are scanned: the ranks of the types never decrease along the
    output. *)
Theorem records_in_detection_order (stamp : nat -> list ascii) (text : list ascii) :
  StronglySorted le (map (fun r => rank (type r)) (detectIOCs stamp text)).
Proof.
  destruct (@OrderFacts.sorted_types stamp text detectionOrder 0 (Scan [] [])) as [b [Hs _]].
  - unfold detectionOrder. cbn [map rank].
    repeat (constructor; [|repeat (constructor; [lia|]); constructor]). constructor.
  - split; constructor.
  - exact Hs.
Qed.

(** The clock and the random source only reach the ids: two scans of the
    same text yield the same types, values and original values, in the
    same order. *)
Theorem records_independent_of_clock (stamp1 stamp2 : nat -> list ascii) (text : list ascii) :
  map view (detectIOCs stamp1 text) = map view (detectIOCs stamp2 text).
Proof.
  apply (@OrderFacts.same_view_types stamp1 stamp2 text detectionOrder (Scan [] []) (Scan [] [])).
  split; reflexivity.
Qed.

(** For each of the twelve type names of the registry the validator
    returns a boolean, whatever the value: it does not throw. *)
Theorem validateIOC_returns_for_registry_types (t : ioc_type) (v : list ascii) :
  exists b, validateIOC v (IOC_TYPES t) = Returns b.
Proof.
  unfold validateIOC.
  destruct t;
    match goal with |- context [get_pattern (IOC_TYPES ?t)] =>
      replace (get_pattern (IOC_TYPES t)) with (Own (IOC_PATTERNS t))
        by (vm_compute; reflexivity)
    end;
    match goal with |- context [Syntax.parse ?src] =>
      destruct (Syntax.parse src) eqn:E; [eauto | vm_compute in E; discriminate E]
    end.
Qed.


(** * Properties of the background worker *)

Import Background.

(** The token budget of a request stays between 4000 and 16000, grows
    with the number of IOCs, and is 150 per IOC plus 500 in between (24
    to 103 IOCs). *)
Theorem max_tokens_bounds (count : N) :
  (4000 <= max_tokens count <= 16000)%N
  /\ (forall more, (count <= more)%N -> (max_tokens count <= max_tokens more)%N)
  /\ ((24 <= count <= 103)%N -> max_tokens count = (count * 150 + 500)%N).
Proof.
  unfold max_tokens. cbv zeta. repeat split; intros; lia.
Qed.

(** The brace search, whatever [jsonText] holds when it starts (the
    trimmed answer, or the trimmed content of its code fence): the text
    it hands to [JSON.parse] is a piece of [jsonText] that no brace
    precedes; when [jsonText] has a brace the piece begins with the first
    one, and when text is cut off after the piece, the piece ends with a
    closing brace. *)
Theorem brace_search_keeps_first_object (s : list ascii) :
  exists pre post,
    s = pre ++ brace_search s ++ post
    /\ existsb (fun c => Ascii.eqb c "{") pre = false
    /\ (existsb (fun c => Ascii.eqb c "{") s = true ->
        exists body, brace_search s = "{"%char :: body)
    /\ (post <> [] -> exists body, brace_search s = body ++ ["}"%char]).
Proof.
  rewrite BackgroundFacts.brace_search_from_brace. unfold BackgroundFacts.from_brace.
  destruct (index_of "{" s) as [i|] eqn:Ei.
  - destruct (BackgroundFacts.index_of_split _ _ Ei) as (pre & post & -> & Hl & Hn).
    rewrite <- Hl, BackgroundFacts.skipn_after_prefix.
    destruct (find_end ("{"%char :: post) 0 false false 0%Z) as [e|] eqn:Ee.
    + apply BackgroundFacts.find_end_spec in Ee. destruct Ee as (w & rest & Hw & -> & _).
      cbn [Nat.add]. rewrite Hw.
      assert (Hf : firstn (S (List.length w)) (w ++ "}"%char :: rest) = w ++ ["}"%char]).
      { replace (S (List.length w)) with (List.length (w ++ ["}"%char]))
          by (rewrite length_app; simpl; lia).
        change (w ++ "}"%char :: rest) with (w ++ ["}"%char] ++ rest).
        rewrite app_assoc, firstn_app, firstn_all, Nat.sub_diag. simpl. apply app_nil_r. }
      rewrite Hf. exists pre, rest. split; [now rewrite <- app_assoc|]. split; [exact Hn|].
      split.
      * intros _. destruct w as [|x w]; [discriminate Hw|].
        inversion Hw; subst. eexists. reflexivity.
      * intros _. eauto.
    + exists pre, []. rewrite app_nil_r. split; [reflexivity|]. split; [exact Hn|].
      split; [eauto | congruence].
  - exists [], []. rewrite app_nil_r. split; [reflexivity|]. split; [reflexivity|].
    apply BackgroundFacts.index_of_none in Ei. split; [congruence|congruence].
Qed.


(** * Properties of the highlighter's escaping *)

(** Whatever the search value, its escaped form is a valid pattern that
    spells the value: read without the [i] flag it matches the value
    itself, in any context, and no other text. *)
Theorem escapeRegex_spells_value (s : list ascii) :
  exists r,
    Syntax.parse (Highlighter.escapeRegex s) = Some r
    /\ forall pv w t, Lang.matches false r pv w t <-> w = s.
Proof.
  exists (EscapeFacts.literal s). split.
  - rewrite EscapeFacts.escapeRegex_flat_map. apply EscapeFacts.parse_escaped.
  - apply EscapeFacts.literal_matches.
Qed.

(** Escaping puts a backslash before each of the characters
    [. * + ? ^ $ { } ( ) | [ ] \] and leaves every other code unit as it
    is; so the escaped text is never shorter than the value and at most
    twice as long. *)
Theorem escapeRegex_length (s : list ascii) :
  Highlighter.escapeRegex s = flat_map EscapeFacts.esc s
  /\ List.length s <= List.length (Highlighter.escapeRegex s) <= 2 * List.length s.
Proof.
  split; [apply EscapeFacts.escapeRegex_flat_map|].
  rewrite EscapeFacts.escapeRegex_flat_map.
  induction s as [|c s IH]; [simpl; lia|].
  cbn [flat_map]. rewrite length_app. unfold EscapeFacts.esc at 1 3.
  destruct (EscapeFacts.special c); simpl in *; lia.
Qed.


(** * De-fanged IP addresses *)

Import Analysis.

(** A text that is four octets separated by any mix of [.], [[.]] and
    [(.)] is reported first, as a de-fanged IP record whose value is the
    dotted quad and whose [originalValue] is the text as found. *)
Theorem marked_quad_is_defanged_ip (stamp : nat -> list ascii)
    (o1 o2 o3 o4 s1 s2 s3 : list ascii) :
  is_octet o1 = true -> is_octet o2 = true -> is_octet o3 = true -> is_octet o4 = true ->
  is_marker s1 -> is_marker s2 -> is_marker s3 ->
  exists others,
    detectIOCs stamp (marked_quad o1 s1 o2 s2 o3 s3 o4) =
    IOC DEFANGED_IP (dotted_quad o1 o2 o3 o4) (Some (marked_quad o1 s1 o2 s2 o3 s3 o4))
        (make_id stamp DEFANGED_IP (dotted_quad o1 o2 o3 o4) 0) :: others.
Proof.
  intros H1 H2 H3 H4 M1 M2 M3.
  pose proof (@DefangedQuad.normalizeDefangedIP_marked o1 o2 o3 o4 s1 s2 s3 H1 H2 H3 H4 M1 M2 M3)
    as Hnorm.
  pose proof (@DefangedQuad.defanged_ip_on_marked o1 o2 o3 o4 s1 s2 s3 H1 H2 H3 H4 M1 M2 M3)
    as Hdef.
  pose proof (@DefangedQuad.cidr_on_marked o1 o2 o3 o4 s1 s2 s3 H1 H2 H3 H4 M1 M2 M3) as Hcidr.
  pose proof (@DefangedQuad.marked_length o1 o2 o3 o4 s1 s2 s3 H1 H2 H3 H4 M1 M2 M3) as Hlen.
  set (T := marked_quad o1 s1 o2 s2 o3 s3 o4) in *.
  set (Q := dotted_quad o1 o2 o3 o4) in *.
  assert (Htrim : Str.trim T = T).
  { apply RecordFacts.trim_spaceless.
    apply (@RecordFacts.match_spaceless DEFANGED_IP T T). rewrite Hdef. now left. }
  set (r0 := IOC DEFANGED_IP Q (Some T) (make_id stamp DEFANGED_IP Q 0)).
  change (exists others, detectedIOCs
            (fold_left (on_type stamp T) (tl (tl detectionOrder))
               (on_type stamp T (on_type stamp T (Scan [] []) CIDR) DEFANGED_IP))
          = r0 :: others).
  apply (@ScanFacts.types_invariant stamp T
           (fun st => exists others, detectedIOCs st = r0 :: others)).
  - intros t st m st' _ [others Ho] Heff. destruct Heff; [eauto|].
    unfold ScanFacts.push. cbn [detectedIOCs]. rewrite Ho. eexists. reflexivity.
  - unfold on_type. rewrite Hcidr, Hdef. cbn [fold_left].
    rewrite (@ScanFacts.on_match_fresh stamp DEFANGED_IP (Scan [] []) T);
      try reflexivity; rewrite ?Htrim; try (cbn [foundValues has existsb]; reflexivity);
      [|lia].
    unfold ScanFacts.push, ScanFacts.final_value. cbn [ioc_type_eqb is_defanged orb
      detectedIOCs app List.length]. rewrite Hnorm. eexists. reflexivity.
Qed.

Lemma marked_quad_is_defanged_ip_witness :
  exists others,
    detectIOCs no_stamp (str "104[.]194(.)150.26") =
    IOC DEFANGED_IP (str "104.194.150.26") (Some (str "104[.]194(.)150.26"))
        (make_id no_stamp DEFANGED_IP (str "104.194.150.26") 0) :: others.
Proof.
  apply (@marked_quad_is_defanged_ip no_stamp (str "104") (str "194") (str "150") (str "26")
           (str "[.]") (str "(.)") dot eq_refl eq_refl eq_refl eq_refl).
  - right. left. reflexivity.
  - right. right. reflexivity.
  - left. reflexivity.
Defined.


(** * What the values look like *)

Import Analysis.

(** What the highlighter searches for ([originalValue || value]) occurs
    verbatim in the scanned text, for every record of the scan. *)
Theorem search_value_occurs (stamp : nat -> list ascii) (text : list ascii) (r : ioc) :
  In r (detectIOCs stamp text) ->
  exists pre post, text = pre ++ Highlighter.searchValue r ++ post.
Proof.
  intros Hr. apply RecordFacts.found_as_matched_scan in Hr. destruct Hr as (Hin & Hlen & _).
  assert (Hsv : Highlighter.searchValue r = as_found r).
  { unfold Highlighter.searchValue, as_found in *.
    destruct (originalValue r) as [[|c o]|]; [simpl in Hlen; lia | reflexivity | reflexivity]. }
  rewrite Hsv. eapply MatchFacts.match_all_part. exact Hin.
Qed.

Lemma search_value_occurs_witness :
  exists pre post,
    str "see hxxp://a[.]b now" = pre ++ str "hxxp://a[.]b" ++ post.
Proof.
  pose (r := IOC DEFANGED_URL (str "http://a.b") (Some (str "hxxp://a[.]b"))
                 (make_id no_stamp DEFANGED_URL (str "http://a.b") 0)).
  assert (Hin : In r (detectIOCs no_stamp (str "see hxxp://a[.]b now"))) by (vm_compute; auto).
  exact (@search_value_occurs no_stamp _ r Hin).
Defined.

(** The value of a CIDR record holds a slash, that of an e-mail record an
    at sign. *)
Theorem cidr_has_slash_email_has_at (stamp : nat -> list ascii) (text : list ascii) (r : ioc) :
  In r (detectIOCs stamp text) ->
  (type r = CIDR -> existsb (Ascii.eqb "/") (value r) = true)
  /\ (type r = EMAIL -> existsb (Ascii.eqb "@") (value r) = true).
Proof.
  intros Hr. apply RecordFacts.found_as_matched_scan in Hr. destruct Hr as (Hin & _ & Hv).
  apply MatchFacts.match_all_sound in Hin. destruct Hin as (pv & s & HM).
  split; intros Ht; rewrite Ht in *;
    (assert (Hval : value r = as_found r)
       by (rewrite Hv; reflexivity));
    rewrite Hval;
    (eapply LangFacts.must_have_sound; [|exact HM]); vm_compute; reflexivity.
Qed.

Lemma cidr_has_slash_email_has_at_witness :
  existsb (Ascii.eqb "@") (str "admin@example.com") = true.
Proof.
  pose (r := IOC EMAIL (str "admin@example.com") None
                 (make_id no_stamp EMAIL (str "admin@example.com") 0)).
  assert (Hin : In r (detectIOCs no_stamp (str "admin@example.com"))) by (vm_compute; auto).
  exact (proj2 (@cidr_has_slash_email_has_at no_stamp _ r Hin) eq_refl).
Defined.

(** The value of a URL record begins with [http://], [https://] or
    [ftp://] and holds no white space, no double quote and none of the
    characters [< > { } | \ ^ `] at which the pattern stops. *)
Theorem url_record_shape (stamp : nat -> list ascii) (text : list ascii) (r : ioc) :
  In r (detectIOCs stamp text) -> type r = URL ->
  has_scheme (value r) = true
  /\ forallb (fun c => negb (url_stop c)) (value r) = true.
Proof.
  intros Hr Ht. apply RecordFacts.found_as_matched_scan in Hr. destruct Hr as (Hin & _ & Hv).
  apply MatchFacts.match_all_sound in Hin. destruct Hin as (pv & s & HM).
  rewrite Ht in *.
  assert (Hval : value r = as_found r) by (rewrite Hv; reflexivity).
  rewrite Hval. split.
  - eapply RecordFacts.url_match_scheme. exact HM.
  - eapply MatchFacts.all_in_sound; [|exact HM]. vm_compute. reflexivity.
Qed.

Lemma url_record_shape_witness :
  has_scheme (str "https://example.org/a?b=1") = true
  /\ forallb (fun c => negb (url_stop c)) (str "https://example.org/a?b=1") = true.
Proof.
  pose (v := str "https://example.org/a?b=1").
  pose (r := IOC URL v None (make_id no_stamp URL v 0)).
  assert (Hin : In r (detectIOCs no_stamp (str "go to https://example.org/a?b=1 now")))
    by (vm_compute; auto).
  exact (@url_record_shape no_stamp _ r Hin eq_refl).
Defined.
